(** * Discord-Video-Hoster: range serving, transcode jobs and the status hub

    A shallow embedding of the server scripts of the repository
    ([main.js] and the later revision that adds the WebSocket hub and the
    remux-based [transcodeToMp4]), with the properties of the specification
    stated and settled over it.

    Conventions of the embedding.
    - A JavaScript number is a double.  What [parseInt] returns is a
      [Js.Num]: [NaN], an infinity, or the integer the double holds, which
      is the double nearest to the digits read.  Sizes of files, clock
      readings and counters are integers below [2 ^ 53], which a double
      holds exactly, and are [Z]s.  The quotients and products of the
      progress estimate are rationals rounded to a double after every
      operation ([Js.fl]).
    - A JavaScript string is a [string] of Latin-1 code units.
    - [transcodeJobs] and the parsed [data.json] are plain objects: a
      [gmap] holds their own properties, and a key that is none of them
      but names a property of [Object.prototype] reads as that inherited
      value ([Js.get]); this matters for the identifiers a client
      names.  An identifier drawn by [uuidv4()] is never such a key, and
      the lookups of the upload task are lookups of own properties.
      The [Map] of subscribers and the response
      headers are [gmap]s; a JavaScript [Set], whose iteration order is
      insertion order, is a duplicate-free list.
    - Handlers are state transformers; an exception is a [None] or an
      explicit outcome, and what a [try]/[catch] swallows is written out.
    - A file that exists can be read: the file system of the embedding
      has no permissions and no read errors, so the ['error'] handlers of
      the read streams are never run. *)

From Stdlib Require Import ZArith QArith Qround Lia Lqa Ascii String.
From stdpp Require Import base option list strings gmap pretty sorting.

Local Open Scope Z_scope.
Local Open Scope string_scope.

(** ** JavaScript primitives used by the handlers *)

Module Js.

(** Truthiness of a string: only the empty string is falsy. *)
Definition truthy (s : string) : bool :=
  match s with
  | EmptyString => false
  | String _ _ => true
  end.

Definition code (c : ascii) : N := N_of_ascii c.

Definition is_digit (c : ascii) : bool :=
  ((48 <=? code c) && (code c <=? 57))%N.

Definition digit_value (c : ascii) : Z := Z.of_N (code c) - 48.

(** White space that [parseInt] skips, restricted to Latin-1:
    TAB, LF, VT, FF, CR, SP and NBSP. *)
Definition is_white (c : ascii) : bool :=
  let n := code c in
  ((9 <=? n) && (n <=? 13) || (n =? 32) || (n =? 160))%N.

Fixpoint trim_start (s : string) : string :=
  match s with
  | String c r => if is_white c then trim_start r else s
  | EmptyString => EmptyString
  end.

(** The longest prefix made of decimal digits. *)
Fixpoint digit_prefix (s : string) : string :=
  match s with
  | String c r => if is_digit c then String c (digit_prefix r) else EmptyString
  | EmptyString => EmptyString
  end.

Fixpoint digits_value (acc : Z) (s : string) : Z :=
  match s with
  | String c r => digits_value (10 * acc + digit_value c) r
  | EmptyString => acc
  end.

(** The integer [parseInt(s, 10)] reads: skip leading white space, read
    an optional sign, then the longest run of digits; nothing when that
    run is empty.  With radix 10 no [0x] prefix is recognised. *)
Definition mathInt (s : string) : option Z :=
  let s1 := trim_start s in
  let '(sign, s2) :=
    match s1 with
    | String "-" r => (-1, r)
    | String "+" r => (1, r)
    | _ => (1, s1)
    end in
  let z := digit_prefix s2 in
  if truthy z then Some (sign * digits_value 0 z) else None.

(** [Number.MAX_SAFE_INTEGER] *)
Definition MAX_SAFE_INTEGER : Z := 2 ^ 53 - 1.

(** A number that [parseInt] can return: [NaN], an integer-valued double
    or an infinity. *)
Inductive Num :=
| NaN
| Int (z : Z)
| Infinity
| MinusInfinity.

(** The integer nearest to [n / d] for [0 < d], a tie going to the even
    one. *)
Definition round_even (n d : Z) : Z :=
  let f := n / d in
  match 2 * (n mod d) ?= d with
  | Lt => f
  | Gt => f + 1
  | Eq => if Z.even f then f else f + 1
  end.

(** The double nearest to the integer [0 <= z], the exponent left
    unbounded: [z] itself when it has at most 53 bits, else [z] rounded
    to 53 significant bits. *)
Definition nearest_double (z : Z) : Z :=
  let e := Z.log2 z - 52 in
  if (e <=? 0)%Z then z else round_even z (2 ^ e) * 2 ^ e.

(** The Number value of an integer: the nearest double, an infinity from
    [2 ^ 1024 - 2 ^ 970] on. *)
Definition to_double (z : Z) : Num :=
  let m := nearest_double (Z.abs z) in
  if (2 ^ 1024 <=? m)%Z
  then (if (z <? 0)%Z then MinusInfinity else Infinity)
  else Int (Z.sgn z * m).

(** [parseInt(s, 10)].  (For a numeral of more than 20 digits an
    implementation may round from its first 20 digits; such a numeral
    lies far above [2 ^ 53] either way.) *)
Definition parseInt (s : string) : Num :=
  match mathInt s with
  | Some z => to_double z
  | None => NaN
  end.

Definition isNaN (n : Num) : bool :=
  match n with
  | NaN => true
  | _ => false
  end.

(** [a > b] *)
Definition gt (a b : Num) : bool :=
  match a, b with
  | NaN, _ | _, NaN => false
  | MinusInfinity, _ => false
  | _, Infinity => false
  | Infinity, _ => true
  | Int _, MinusInfinity => true
  | Int x, Int y => (x >? y)%Z
  end.

(** An integer from [0] to [Number.MAX_SAFE_INTEGER], which is what
    Node's [validateInteger(value, name, 0)] lets through. *)
Definition safe_offset (n : Num) : bool :=
  match n with
  | Int z => ((0 <=? z) && (z <=? MAX_SAFE_INTEGER))%Z
  | _ => false
  end.

(** [strip_prefix p s] is the rest of [s] after [p] when [s] starts
    with [p]. *)
Fixpoint strip_prefix (p s : string) : option string :=
  match p, s with
  | EmptyString, _ => Some s
  | String a p', String b s' =>
      if Ascii.eqb a b then strip_prefix p' s' else None
  | String _ _, EmptyString => None
  end.

(** [s.replace(/pat/, repl)] for a pattern without metacharacters and
    without the [g] flag: the leftmost occurrence is replaced. *)
Fixpoint replace_first (pat repl s : string) : string :=
  match strip_prefix pat s with
  | Some rest => repl ++ rest
  | None =>
      match s with
      | String c r => String c (replace_first pat repl r)
      | EmptyString => EmptyString
      end
  end.

(** [s.split(sep)] for a one-character separator; the result always has
    at least one element. *)
Fixpoint split (sep : ascii) (s : string) : list string :=
  match s with
  | EmptyString => [EmptyString]
  | String c r =>
      if Ascii.eqb c sep then EmptyString :: split sep r
      else match split sep r with
           | p :: ps => String c p :: ps
           | [] => [String c EmptyString]
           end
  end.

(** Rendering of an integer inside a template literal or as a header
    value: its decimal digits (integers below [10 ^ 21] are written in
    full). *)
Definition num_to_string (n : Z) : string := pretty n.

(** The same for a [Num] that is a safe integer or not finite. *)
Definition number_text (n : Num) : string :=
  match n with
  | NaN => "NaN"
  | Int z => num_to_string z
  | Infinity => "Infinity"
  | MinusInfinity => "-Infinity"
  end.

(** [Math.round]: the nearest integer, a tie going up. *)
Definition Math_round (x : Q) : Z := Qfloor (x + (1 # 2))%Q.

(** [floor (log2 (n / d))] for positive [n] and [d]. *)
Definition ilog2 (n d : Z) : Z :=
  let g := Z.log2 n - Z.log2 d in
  if (if (0 <=? g)%Z then (n <? d * 2 ^ g)%Z else (n * 2 ^ (- g) <? d)%Z)
  then g - 1 else g.

(** The double nearest to the positive rational [n / d]: a significand
    of 53 bits, a tie going to the even one. *)
Definition fl_pos (n d : Z) : Q :=
  let e := ilog2 n d - 52 in
  if (0 <=? e)%Z then inject_Z (round_even n (d * 2 ^ e) * 2 ^ e)
  else (round_even (n * 2 ^ (- e)) d # Z.to_pos (2 ^ (- e)))%Q.

(** Rounding of a real result to a double (binary64, round to nearest,
    ties to even), for magnitudes in the normal range
    [2 ^ -1022 .. 2 ^ 1024], which the quotients and products of sizes
    below [2 ^ 53], of clock differences and of percentages stay in. *)
Definition fl (x : Q) : Q :=
  match Qnum x with
  | 0 => 0%Q
  | Z.pos p => fl_pos (Z.pos p) (Z.pos (Qden x))
  | Z.neg p => (- fl_pos (Z.pos p) (Z.pos (Qden x)))%Q
  end.

(** [a - b], [a * b] and [a / b] on doubles, [b] not zero. *)
Definition fsub (a b : Q) : Q := fl (a - b)%Q.
Definition fmul (a b : Q) : Q := fl (a * b)%Q.
Definition fdiv (a b : Q) : Q := fl (a / b)%Q.

(** The names of the properties of [Object.prototype]: what a plain
    object answers for when it has no property of its own by the name. *)
Definition inherited (key : string) : bool :=
  bool_decide
    (key ∈ ["constructor"; "__proto__"; "hasOwnProperty"; "isPrototypeOf";
            "propertyIsEnumerable"; "toLocaleString"; "toString"; "valueOf";
            "__defineGetter__"; "__defineSetter__"; "__lookupGetter__";
            "__lookupSetter__"]).

(** What [obj[key]] finds on a plain object: a property of its own, a
    value inherited from [Object.prototype] (a function, or the
    prototype itself for [__proto__]: truthy, and without any of the
    properties the handlers read), or [undefined]. *)
Inductive Found (A : Type) :=
| Own (v : A)
| Inherited
| Missing.
Arguments Own {A} v.
Arguments Inherited {A}.
Arguments Missing {A}.

Definition get {A : Type} (obj : gmap string A) (key : string) : Found A :=
  match obj !! key with
  | Some v => Own v
  | None => if inherited key then Inherited else Missing
  end.

(** The own property found, if any. *)
Definition own {A : Type} (v : Found A) : option A :=
  match v with
  | Own a => Some a
  | Inherited | Missing => None
  end.

Fixpoint digits_only (s : string) : bool :=
  match s with
  | String c r => is_digit c && digits_only r
  | EmptyString => true
  end.

Fixpoint free_of (sep : ascii) (s : string) : bool :=
  match s with
  | String c r => negb (Ascii.eqb c sep) && free_of sep r
  | EmptyString => true
  end.

End Js.

(** ** What the scripts take from their platform

    [path.join], [path.extname], [String.prototype.toLowerCase],
    [mime.lookup] (whose [false] is [None]) and the uploads directory are
    given by Node and its packages. *)

Class Platform := {
  path_join : string -> string -> string;
  path_extname : string -> string;
  toLowerCase : string -> string;
  mime_lookup : string -> option string;
  UPLOADS_DIR : string;
}.

(** ** Metadata registry and media store *)

Module Media.

(** One entry of [data.json], as [POST /upload] writes it. *)
Record MediaRecord := {
  id : string;
  filename : string;
  originalName : string;
  mime : string;
  size : Z;
  createdAt : Z;
  converted : bool;
}.

(** The content of a file: its bytes, fewer than [2 ^ 53] of them, so
    that [fs.statSync(p).size], a double, is their number. *)
Record File := {
  bytes :> list Byte.byte;
  bytes_safe : Is_true (Z.of_nat (length bytes) <=? Js.MAX_SAFE_INTEGER)%Z;
}.

(** The disk: [data.json] ([None] when its text is not valid JSON) and the
    files of the uploads directory by path. *)
Record Disk := {
  data_file : option (gmap string MediaRecord);
  stored : gmap string File;
}.

(** The bytes of each file. *)
Definition files (k : Disk) : gmap string (list Byte.byte) :=
  bytes <$> stored k.

(** [readData]: the parsed file, or the empty object when parsing throws. *)
Definition readData (k : Disk) : gmap string MediaRecord :=
  match data_file k with
  | Some d => d
  | None => ∅
  end.

(** [writeData]: the whole file is overwritten. *)
Definition writeData (d : gmap string MediaRecord) (k : Disk) : Disk :=
  {| data_file := Some d; stored := stored k |}.

(** [fs.statSync(p).size]; [None] when the call throws. *)
Definition stat_size (k : Disk) (p : string) : option Z :=
  match files k !! p with
  | Some content => Some (Z.of_nat (length content))
  | None => None
  end.

(** [fs.unlinkSync(p)] inside [try { } catch (e) {}]. *)
Definition unlink_quiet (p : string) (k : Disk) : Disk :=
  {| data_file := data_file k; stored := delete p (stored k) |}.

End Media.

(** ** Range media server: [GET /v/:id] *)

Module Range.

Record Response := {
  status : Z;
  headers : gmap string string;
  body : list Byte.byte;
}.

(** What the handler does: the fallback page of [sendInvalidEmbed], a
    response of its own, or an exception that leaves the handler, which
    Express answers with status 500. *)
Inductive Reply :=
| InvalidEmbed
| Served (r : Response)
| Crashed.

(** The bytes a read stream opened with [{ start, end }] delivers: from
    offset [start] up to and including offset [end], or up to the end of
    the file when that comes first. *)
Definition read_span (content : list Byte.byte) (start end_ : Z) : list Byte.byte :=
  take (Z.to_nat (end_ - start + 1)) (drop (Z.to_nat start) content).

(** [range.replace(/bytes=/, '').split('-')] *)
Definition range_parts (range : string) : list string :=
  Js.split "-" (Js.replace_first "bytes=" "" range).

(** [parts[0]] and [parts[1]]; an index past the end reads [undefined]. *)
Definition start_text (range : string) : string :=
  match range_parts range !! 0%nat with
  | Some p => p
  | None => EmptyString
  end.

Definition end_text (range : string) : option string :=
  range_parts range !! 1%nat.

Definition range_start (range : string) : Js.Num :=
  Js.parseInt (start_text range).

(** [parts[1] ? parseInt(parts[1], 10) : fileSize - 1] *)
Definition range_end (fileSize : Z) (range : string) : Js.Num :=
  match end_text range with
  | Some p => if Js.truthy p then Js.parseInt p else Js.Int (fileSize - 1)
  | None => Js.Int (fileSize - 1)
  end.

(** [fs.createReadStream(filePath, { start, end })] and what the stream
    delivers.  Node throws [ERR_OUT_OF_RANGE] unless [start] is an
    integer from [0] to [Number.MAX_SAFE_INTEGER] and [end] is such an
    integer, not below [start], or [Infinity]. *)
Definition createReadStream (content : list Byte.byte) (start end_ : Js.Num)
  : option (list Byte.byte) :=
  match start with
  | Js.Int s =>
      if Js.safe_offset start then
        match end_ with
        | Js.Infinity => Some (drop (Z.to_nat s) content)
        | Js.Int e =>
            if Js.safe_offset end_ && negb (s >? e)%Z
            then Some (read_span content s e)
            else None
        | _ => None
        end
      else None
  | _ => None
  end.

Definition range_not_satisfiable (h : gmap string string) (fileSize : Z)
  : Response :=
  {| status := 416;
     headers :=
       <["Content-Range" := "bytes */" +:+ Js.num_to_string fileSize]> h;
     body := [] |}.

(** [(end - start) + 1] for a [start] that is a safe integer. *)
Definition chunk_size (start end_ : Js.Num) : Js.Num :=
  match start, end_ with
  | Js.Int s, Js.Int e => Js.Int ((e - s) + 1)
  | Js.Int _, Js.Infinity => Js.Infinity
  | _, _ => Js.NaN
  end.

(** The 206 response, [bytes] being what the read stream delivers. *)
Definition partial_content (h : gmap string string) (fileSize : Z)
    (start end_ : Js.Num) (bytes : list Byte.byte) : Response :=
  let chunkSize := chunk_size start end_ in
  {| status := 206;
     headers :=
       <["Content-Length" := Js.number_text chunkSize]>
       (<["Content-Range" :=
            "bytes " +:+ Js.number_text start +:+ "-" +:+
            Js.number_text end_ +:+ "/" +:+ Js.num_to_string fileSize]> h);
     body := bytes |}.

Definition whole_file (h : gmap string string) (content : list Byte.byte)
    (fileSize : Z) : Response :=
  {| status := 200;
     headers := <["Content-Length" := Js.num_to_string fileSize]> h;
     body := content |}.

(** [d[id].mime || mime.lookup(filePath) || 'application/octet-stream'] *)
Definition content_type `{Platform} (r : Media.MediaRecord) : string :=
  if Js.truthy (Media.mime r) then Media.mime r
  else match mime_lookup (path_join UPLOADS_DIR (Media.filename r)) with
       | Some t => t
       | None => "application/octet-stream"
       end.

(** The two headers set before the handler looks at [range]. *)
Definition base_headers `{Platform} (r : Media.MediaRecord)
  : gmap string string :=
  <["Content-Type" := content_type r]> (<["Accept-Ranges" := "bytes"]> ∅).

(** The handler of [app.get('/v/:id')]; [range] is [req.headers.range],
    [None] when the request has no such header.  For an identifier that
    reads as an inherited value, [d[id].filename] is [undefined] and
    [path.join] throws.  A path without a file is the case where
    [fs.existsSync] is false.  In the range branch the status and the
    headers are set before [fs.createReadStream] is called; when that
    call throws nothing has been sent, and what Express answers does not
    depend on them. *)
Definition get_v `{Platform} (k : Media.Disk) (id : string)
    (range : option string) : Reply :=
  let d := Media.readData k in
  match Js.get d id with
  | Js.Missing => InvalidEmbed
  | Js.Inherited => Crashed
  | Js.Own r =>
      let filePath := path_join UPLOADS_DIR (Media.filename r) in
      match Media.files k !! filePath with
      | None => InvalidEmbed
      | Some content =>
          let fileSize := Z.of_nat (length content) in
          let h := base_headers r in
          match range with
          | Some rg =>
              if Js.truthy rg then
                let start := range_start rg in
                let end_ := range_end fileSize rg in
                if Js.isNaN start || Js.isNaN end_ || Js.gt start end_
                then Served (range_not_satisfiable h fileSize)
                else
                  match createReadStream content start end_ with
                  | Some bytes =>
                      Served (partial_content h fileSize start end_ bytes)
                  | None => Crashed
                  end
              else Served (whole_file h content fileSize)
          | None => Served (whole_file h content fileSize)
          end
      end
  end.

(** The header text [bytes=a-b], the bounds written as decimal numerals. *)
Definition bytes_range (a b : Z) : string :=
  "bytes=" +:+ Js.num_to_string a +:+ "-" +:+ Js.num_to_string b.

(** The value of [Content-Range] in a partial response. *)
Definition content_range (a b fileSize : Z) : string :=
  "bytes " +:+ Js.num_to_string a +:+ "-" +:+ Js.num_to_string b +:+
  "/" +:+ Js.num_to_string fileSize.

(** The value of [Content-Range] in a 416 response. *)
Definition content_range_unsatisfied (fileSize : Z) : string :=
  "bytes */" +:+ Js.num_to_string fileSize.

(** *** The bounds of a header, as a reader of the header sees them

    These describe the text of a bound without the handler's parser. *)

Definition blank (w : string) : Prop :=
  Forall (fun c => Js.is_white c = true) (list_ascii_of_string w).






End Range.

(** ** Transcode jobs *)

Module Jobs.

Inductive Status := Queued | Running | Done | Error.

(** The [eta] property of a job: never written, [null], or seconds. *)
Inductive Eta := EtaUnset | EtaNull | EtaSeconds (s : Z).

(** An entry of [transcodeJobs].  It is created with [status], [progress]
    and [message]; the other properties appear when first assigned. *)
Record Job := {
  status : Status;
  progress : Z;
  message : string;
  startedAt : option Z;
  elapsed : option Z;
  eta : Eta;
  timemark : option string;
}.

(** [{ status: 'queued', progress: 0, message: 'queued' }] *)
Definition fresh : Job :=
  {| status := Queued; progress := 0; message := "queued";
     startedAt := None; elapsed := None; eta := EtaUnset; timemark := None |}.

Definition set_status (v : Status) (j : Job) : Job :=
  {| status := v; progress := progress j; message := message j;
     startedAt := startedAt j; elapsed := elapsed j; eta := eta j;
     timemark := timemark j |}.

Definition set_progress (v : Z) (j : Job) : Job :=
  {| status := status j; progress := v; message := message j;
     startedAt := startedAt j; elapsed := elapsed j; eta := eta j;
     timemark := timemark j |}.

Definition set_message (v : string) (j : Job) : Job :=
  {| status := status j; progress := progress j; message := v;
     startedAt := startedAt j; elapsed := elapsed j; eta := eta j;
     timemark := timemark j |}.

Definition set_startedAt (v : Z) (j : Job) : Job :=
  {| status := status j; progress := progress j; message := message j;
     startedAt := Some v; elapsed := elapsed j; eta := eta j;
     timemark := timemark j |}.

Definition set_elapsed (v : Z) (j : Job) : Job :=
  {| status := status j; progress := progress j; message := message j;
     startedAt := startedAt j; elapsed := Some v; eta := eta j;
     timemark := timemark j |}.

Definition set_eta (v : Eta) (j : Job) : Job :=
  {| status := status j; progress := progress j; message := message j;
     startedAt := startedAt j; elapsed := elapsed j; eta := v;
     timemark := timemark j |}.

Definition set_timemark (v : string) (j : Job) : Job :=
  {| status := status j; progress := progress j; message := message j;
     startedAt := startedAt j; elapsed := elapsed j; eta := eta j;
     timemark := Some v |}.

Definition terminal (s : Status) : bool :=
  match s with
  | Done | Error => true
  | Queued | Running => false
  end.

(** The order of the specification's state machine,
    [queued -> running -> (done | error)]: [advances s s'] when [s'] is
    [s] or lies further along. *)
Definition advances (s s' : Status) : Prop :=
  match s, s' with
  | Queued, _ => True
  | Running, (Running | Done | Error) => True
  | Done, Done => True
  | Error, Error => True
  | _, _ => False
  end.

(** The same order on what an observer reads, [None] being the
    [{ status: 'none' }] of an identifier without a job. *)
Definition follows (o o' : option Status) : Prop :=
  match o, o' with
  | None, _ => True
  | Some s, Some s' => advances s s'
  | Some _, None => False
  end.

End Jobs.

(** ** The server's state and the status broadcast hub *)

Module Hub.

(** A WebSocket connection object, by identity. *)
Definition Conn := nat.

Inductive ReadyState := CONNECTING | OPEN | CLOSING | CLOSED.

(** What the server reads from or stores on a connection object:
    [ws.readyState], the [_subscribedId] property the message handler
    sets, and whether a call of [ws.send] on it throws. *)
Record Socket := {
  readyState : ReadyState;
  send_throws : bool;
  _subscribedId : option string;
}.

(** [{ type: 'status', id, job }] as it is handed to [JSON.stringify],
    which takes a snapshot of the job.  [job] is
    [transcodeJobs[id] || { status: 'none' }]: the job of its own that
    the table has for [id], or the value the table inherits under that
    name, or, [Js.Missing], the object [{ status: 'none' }]. *)
Record StatusMessage := {
  msg_id : string;
  msg_job : Js.Found Jobs.Job;
}.

Record App := {
  transcodeJobs : gmap string Jobs.Job;
  subscribers : gmap string (list Conn);
  sockets : gmap Conn Socket;
  (** every call of [ws.send], oldest first *)
  wire : list (Conn * StatusMessage);
  disk : Media.Disk;
}.

Definition with_jobs (v : gmap string Jobs.Job) (st : App) : App :=
  {| transcodeJobs := v; subscribers := subscribers st;
     sockets := sockets st; wire := wire st; disk := disk st |}.

Definition with_subscribers (v : gmap string (list Conn)) (st : App) : App :=
  {| transcodeJobs := transcodeJobs st; subscribers := v;
     sockets := sockets st; wire := wire st; disk := disk st |}.

Definition with_sockets (v : gmap Conn Socket) (st : App) : App :=
  {| transcodeJobs := transcodeJobs st; subscribers := subscribers st;
     sockets := v; wire := wire st; disk := disk st |}.

Definition with_wire (v : list (Conn * StatusMessage)) (st : App) : App :=
  {| transcodeJobs := transcodeJobs st; subscribers := subscribers st;
     sockets := sockets st; wire := v; disk := disk st |}.

Definition with_disk (v : Media.Disk) (st : App) : App :=
  {| transcodeJobs := transcodeJobs st; subscribers := subscribers st;
     sockets := sockets st; wire := wire st; disk := v |}.

(** [transcodeJobs[id].f = v], for an entry that exists. *)
Definition update_job (id : string) (f : Jobs.Job -> Jobs.Job) (st : App)
  : App :=
  with_jobs (alter f id (transcodeJobs st)) st.

(** [Set.prototype.add] and [Set.prototype.delete]. *)
Definition set_add (ws : Conn) (set : list Conn) : list Conn :=
  if decide (ws ∈ set) then set else set ++ [ws].

Definition set_delete (ws : Conn) (set : list Conn) : list Conn :=
  filter (fun x => x <> ws) set.

(** A call either returns or throws; both carry the state it leaves. *)
Inductive Outcome :=
| Returned (st : App)
| Thrown (st : App).

(** [ws.send(msg)] *)
Definition ws_send (ws : Conn) (msg : StatusMessage) (st : App) : Outcome :=
  let st' := with_wire (wire st ++ [(ws, msg)]) st in
  match sockets st !! ws with
  | Some sk => if send_throws sk then Thrown st' else Returned st'
  | None => Thrown st'
  end.

Definition is_open (st : App) (ws : Conn) : bool :=
  match sockets st !! ws with
  | Some sk => match readyState sk with OPEN => true | _ => false end
  | None => false
  end.

(** One turn of the loop of [broadcastStatus]:
    [try { if (ws.readyState === WebSocket.OPEN) ws.send(msg); } catch (e) {}] *)
Definition broadcast_to (msg : StatusMessage) (st : App) (ws : Conn) : App :=
  if is_open st ws then
    match ws_send ws msg st with
    | Returned st' => st'
    | Thrown st' => st'
    end
  else st.

(** [broadcastStatus(id)] *)
Definition broadcastStatus (id : string) (st : App) : App :=
  match subscribers st !! id with
  | None => st
  | Some set =>
      let msg := {| msg_id := id; msg_job := Js.get (transcodeJobs st) id |} in
      foldl (broadcast_to msg) st set
  end.

(** What [JSON.parse(msg.toString())] gave, as far as the handler looks:
    [data.type] and [data.id], the empty string for a missing or falsy
    one. *)
Record ClientData := {
  type : string;
  id : string;
}.

Definition subscribe (ws : Conn) (id : string) (st : App) : Outcome :=
  let set :=
    match subscribers st !! id with
    | Some set => set
    | None => []
    end in
  let st1 := with_subscribers (<[id := set_add ws set]> (subscribers st)) st in
  let st2 :=
    with_sockets
      (alter (fun sk => {| readyState := readyState sk;
                           send_throws := send_throws sk;
                           _subscribedId := Some id |}) ws (sockets st1))
      st1 in
  ws_send ws {| msg_id := id; msg_job := Js.get (transcodeJobs st2) id |} st2.

Definition unsubscribe (ws : Conn) (id : string) (st : App) : App :=
  match subscribers st !! id with
  | Some set => with_subscribers (<[id := set_delete ws set]> (subscribers st)) st
  | None => st
  end.

(** The handler of [ws.on('message')]; [data] is [None] when
    [JSON.parse] throws or gives a falsy value.  The whole body sits in a
    [try] whose [catch] ignores the exception. *)
Definition on_message (ws : Conn) (data : option ClientData) (st : App)
  : App :=
  match data with
  | None => st
  | Some data =>
      let after_subscribe :=
        if String.eqb (type data) "subscribe" && Js.truthy (id data)
        then subscribe ws (id data) st
        else Returned st in
      match after_subscribe with
      | Thrown st' => st'
      | Returned st' =>
          if String.eqb (type data) "unsubscribe" && Js.truthy (id data)
          then unsubscribe ws (id data) st'
          else st'
      end
  end.

(** The handler of [ws.on('close')]. *)
Definition on_close (ws : Conn) (st : App) : App :=
  match sockets st !! ws with
  | Some sk =>
      match _subscribedId sk with
      | Some id =>
          if Js.truthy id then unsubscribe ws id st else st
      | None => st
      end
  | None => st
  end.

(** [wss.on('connection')]: a new connection object, open and without
    [_subscribedId]. *)
Definition on_connection (ws : Conn) (throws : bool) (st : App) : App :=
  with_sockets
    (<[ws := {| readyState := OPEN; send_throws := throws;
                _subscribedId := None |}]> (sockets st)) st.

(** What [GET /transcode-status/:id] answers with: the job, the value
    [transcodeJobs[id]] inherits, or, [Js.Missing], [{ status: 'none' }]. *)
Definition transcode_status (id : string) (st : App) : Js.Found Jobs.Job :=
  Js.get (transcodeJobs st) id.

(** The connection [ws] is in the subscriber set of [id]. *)
Definition subscribed (st : App) (ws : Conn) (id : string) : Prop :=
  exists set, subscribers st !! id = Some set /\ ws ∈ set.

End Hub.

(** ** The remux engine: [transcodeToMp4] of the WebSocket revision *)

Module Transcode.

(** What one call of [transcodeToMp4(inputPath, outputPath, jobId)]
    captures for its event handlers. *)
Record Remux := {
  inputPath : string;
  outputPath : string;
  jobId : string;
  inputSize : Z;
  startTime : Z;
}.

(** The synchronous part of the call; [now] is [Date.now()].
    [inputSize] is [fs.statSync(inputPath).size || 0], and [0] when
    [statSync] throws. *)
Definition transcodeToMp4 (inputPath outputPath jobId : string) (now : Z)
    (st : Hub.App) : Remux :=
  {| inputPath := inputPath; outputPath := outputPath; jobId := jobId;
     inputSize :=
       match Media.stat_size (Hub.disk st) inputPath with
       | Some n => n
       | None => 0
       end;
     startTime := now |}.

(** [fs.statSync(outputPath).size || 0], and [0] when the call throws. *)
Definition output_size (c : Remux) (st : Hub.App) : Z :=
  match Media.stat_size (Hub.disk st) (outputPath c) with
  | Some n => n
  | None => 0
  end.

(** [jobId && transcodeJobs[jobId]] *)
Definition job_present (c : Remux) (st : Hub.App) : bool :=
  Js.truthy (jobId c) &&
  bool_decide (is_Some (Hub.transcodeJobs st !! jobId c)).

(** [Math.max(0, Math.round((Date.now() - startTime) / 1000))] *)
Definition elapsed_seconds (c : Remux) (now : Z) : Z :=
  Z.max 0
    (Js.Math_round
       (Js.fdiv (Js.fsub (inject_Z now) (inject_Z (startTime c))) 1000)).

(** [Math.min(100, Math.round((outSize / inputSize) * 100))]: the
    quotient is rounded to a double before it is multiplied. *)
Definition percent (outSize inputSize : Z) : Z :=
  Z.min 100
    (Js.Math_round
       (Js.fmul (Js.fdiv (inject_Z outSize) (inject_Z inputSize)) 100)).

(** The [eta] a poll stores, from the percentage and the elapsed seconds:
    [Math.max(0, Math.round(elapsed * (100 / pct)) - elapsed)]. *)
Definition poll_eta (pct elapsed : Z) : Jobs.Eta :=
  if pct >? 0 then
    let totalEst :=
      Js.Math_round
        (Js.fmul (inject_Z elapsed) (Js.fdiv 100 (inject_Z pct))) in
    Jobs.EtaSeconds (Z.max 0 (totalEst - elapsed))
  else Jobs.EtaNull.

(** The handler of ['start'], apart from starting the poll timer. *)
Definition on_start (c : Remux) (now : Z) (st : Hub.App) : Hub.App :=
  if job_present c st then
    Hub.broadcastStatus (jobId c)
      (Hub.update_job (jobId c) (Jobs.set_startedAt now)
        (Hub.update_job (jobId c) (Jobs.set_message "remuxing (copying)")
          (Hub.update_job (jobId c) (Jobs.set_progress 0) st)))
  else st.

(** One firing of the [setInterval] callback. *)
Definition on_poll (c : Remux) (now : Z) (st : Hub.App) : Hub.App :=
  if (inputSize c =? 0)%Z then st
  else
    let outSize := output_size c st in
    let pct := percent outSize (inputSize c) in
    if job_present c st then
      let elapsed := elapsed_seconds c now in
      Hub.broadcastStatus (jobId c)
        (Hub.update_job (jobId c) (Jobs.set_eta (poll_eta pct elapsed))
          (Hub.update_job (jobId c) (Jobs.set_elapsed elapsed)
            (Hub.update_job (jobId c) (Jobs.set_progress pct) st)))
    else st.

(** The handler of ['progress']; [timemark] is [p.timemark], [None] when
    [p] or the property is missing. *)
Definition on_progress (c : Remux) (timemark : option string)
    (st : Hub.App) : Hub.App :=
  match timemark with
  | Some tm =>
      if job_present c st && Js.truthy tm then
        Hub.broadcastStatus (jobId c)
          (Hub.update_job (jobId c) (Jobs.set_timemark tm) st)
      else st
  | None => st
  end.

(** The handler of ['end'], apart from stopping the timer and resolving
    the promise. *)
Definition on_end (c : Remux) (now : Z) (st : Hub.App) : Hub.App :=
  if job_present c st then
    Hub.broadcastStatus (jobId c)
      (Hub.update_job (jobId c) (Jobs.set_eta (Jobs.EtaSeconds 0))
        (Hub.update_job (jobId c) (Jobs.set_elapsed (elapsed_seconds c now))
          (Hub.update_job (jobId c) (Jobs.set_progress 100) st)))
  else st.

(** The estimate in the words of the specification:
    [min(100, round(100 * currentOutputSize / inputSize))] and
    [round(elapsed * (100 / percent) - elapsed)], in exact arithmetic,
    [round] taking a half up. *)
Definition spec_percent (outSize inputSize : Z) : Z :=
  Z.min 100
    (Js.Math_round (100 * inject_Z outSize / inject_Z inputSize)%Q).

Definition spec_eta (pct elapsed : Z) : Jobs.Eta :=
  if pct >? 0 then
    Jobs.EtaSeconds
      (Js.Math_round
         (inject_Z elapsed * (100 / inject_Z pct) - inject_Z elapsed)%Q)
  else Jobs.EtaNull.

End Transcode.

(** ** The background task of [POST /upload] *)

Module Upload.

(** The names the task closes over: the identifier of the upload, the
    path of the uploaded file, and the name and path of the converted
    one. *)
Record Conversion := {
  id : string;
  finalPath : string;
  convertedName : string;
  convertedPath : string;
}.

(** [convertedName = id + '.mp4'] and the two [path.join]s. *)
Definition conversion `{Platform} (id finalName : string) : Conversion :=
  {| id := id;
     finalPath := path_join UPLOADS_DIR finalName;
     convertedName := id +:+ ".mp4";
     convertedPath := path_join UPLOADS_DIR (id +:+ ".mp4") |}.

(** A block of synchronous file-system calls either completes or throws;
    both leave a disk behind. *)
Inductive Result :=
| Completed (k : Media.Disk)
| Threw (k : Media.Disk) (msg : string).

(** The record after the assignments to [filename], [mime], [size] and
    [converted]. *)
Definition converted_record `{Platform} (cv : Conversion) (sz : Z)
    (r : Media.MediaRecord) : Media.MediaRecord :=
  {| Media.id := Media.id r;
     Media.filename := convertedName cv;
     Media.originalName := Media.originalName r;
     Media.mime :=
       match mime_lookup (convertedPath cv) with
       | Some t => t
       | None => Media.mime r
       end;
     Media.size := sz;
     Media.createdAt := Media.createdAt r;
     Media.converted := true |}.

(** What follows a successful transcode in both revisions: the uploaded
    file is unlinked, [data.json] is read, and when it has the record the
    four properties are assigned on the parsed object and the object is
    written back.  [fs.statSync] throws when the converted file is not
    there, before anything is written. *)
Definition update_metadata `{Platform} (cv : Conversion) (k : Media.Disk)
  : Result :=
  let k1 := Media.unlink_quiet (finalPath cv) k in
  let d2 := Media.readData k1 in
  match d2 !! id cv with
  | Some r =>
      match Media.stat_size k1 (convertedPath cv) with
      | Some sz =>
          Completed
            (Media.writeData (<[id cv := converted_record cv sz r]> d2) k1)
      | None =>
          Threw k1
            ("ENOENT: no such file or directory, stat '" +:+
             convertedPath cv +:+ "'")
      end
  | None => Completed k1
  end.

(** [transcodeJobs[id] = transcodeJobs[id] || { status: 'queued', ... }] *)
Definition create_job (id : string) (st : Hub.App) : Hub.App :=
  match Hub.transcodeJobs st !! id with
  | Some _ => st
  | None => Hub.with_jobs (<[id := Jobs.fresh]> (Hub.transcodeJobs st)) st
  end.

(** The task up to its [await]: everything before the call of
    [transcodeToMp4]. *)
Definition task_prologue (id : string) (st : Hub.App) : Hub.App :=
  let st1 := Hub.update_job id (Jobs.set_status Jobs.Running) st in
  let st2 := Hub.update_job id (Jobs.set_message "starting") st1 in
  let st3 := Hub.broadcastStatus id st2 in
  let st4 := Hub.update_job id (Jobs.set_message "remux/re-encode (simple)") st3 in
  Hub.broadcastStatus id st4.

(** The task after the promise of [transcodeToMp4] is fulfilled. *)
Definition after_success `{Platform} (cv : Conversion) (st : Hub.App)
  : Hub.App :=
  match update_metadata cv (Hub.disk st) with
  | Completed k =>
      Hub.broadcastStatus (id cv)
        (Hub.update_job (id cv) (Jobs.set_message "finished")
          (Hub.update_job (id cv) (Jobs.set_progress 100)
            (Hub.update_job (id cv) (Jobs.set_status Jobs.Done)
              (Hub.with_disk k st))))
  | Threw k msg =>
      Hub.broadcastStatus (id cv)
        (Hub.update_job (id cv) (Jobs.set_message msg)
          (Hub.update_job (id cv) (Jobs.set_status Jobs.Error)
            (Hub.with_disk k st)))
  end.

(** The [catch] block, entered when the promise is rejected. *)
Definition after_failure (cv : Conversion) (msg : string) (st : Hub.App)
  : Hub.App :=
  Hub.broadcastStatus (id cv)
    (Hub.update_job (id cv) (Jobs.set_message msg)
      (Hub.update_job (id cv) (Jobs.set_status Jobs.Error) st)).

Inductive Promise := Pending | Fulfilled | Rejected (msg : string).

(** A promise settles once; later calls of [resolve] or [reject] do
    nothing. *)
Definition settle (v : Promise) (p : Promise) : Promise :=
  match p with
  | Pending => v
  | _ => p
  end.

(** A running task: the server state, the promise the task awaits,
    whether the task has been resumed after it, and whether the poll
    timer is set. *)
Record Task := {
  app : Hub.App;
  promise : Promise;
  resumed : bool;
  polling : bool;
}.

(** What can happen to a task: the encoder process writes its output
    file, the events of the encoder, a firing of the timer, and the
    resumption of the [async] function. *)
Inductive Event :=
| EncoderWrote (content : Media.File)
| FfStart (now : Z)
| PollTick (now : Z)
| FfProgress (timemark : option string)
| FfError (msg : string)
| FfEnd (now : Z)
| Resume.

(** The encoder leaves [content] in the file at [path]. *)
Definition encoder_output (path : string) (content : Media.File)
    (st : Hub.App) : Hub.App :=
  Hub.with_disk
    {| Media.data_file := Media.data_file (Hub.disk st);
       Media.stored := <[path := content]> (Media.stored (Hub.disk st)) |}
    st.

(** The job is created and the task runs up to its [await]. *)
Definition start_task `{Platform} (cv : Conversion) (now : Z) (st : Hub.App)
  : Transcode.Remux * Task :=
  let st1 := task_prologue (id cv) (create_job (id cv) st) in
  (Transcode.transcodeToMp4 (finalPath cv) (convertedPath cv) (id cv) now st1,
   {| app := st1; promise := Pending; resumed := false; polling := false |}).

Definition step `{Platform} (cv : Conversion) (c : Transcode.Remux)
    (ev : Event) (t : Task) : Task :=
  match ev with
  | EncoderWrote content =>
      {| app := encoder_output (convertedPath cv) content (app t);
         promise := promise t; resumed := resumed t; polling := polling t |}
  | FfStart now =>
      {| app := Transcode.on_start c now (app t); promise := promise t;
         resumed := resumed t; polling := true |}
  | PollTick now =>
      if polling t then
        {| app := Transcode.on_poll c now (app t); promise := promise t;
           resumed := resumed t; polling := true |}
      else t
  | FfProgress tm =>
      {| app := Transcode.on_progress c tm (app t); promise := promise t;
         resumed := resumed t; polling := polling t |}
  | FfError msg =>
      {| app := app t; promise := settle (Rejected msg) (promise t);
         resumed := resumed t; polling := false |}
  | FfEnd now =>
      {| app := Transcode.on_end c now (app t);
         promise := settle Fulfilled (promise t);
         resumed := resumed t; polling := false |}
  | Resume =>
      if resumed t then t
      else
        match promise t with
        | Pending => t
        | Fulfilled =>
            {| app := after_success cv (app t); promise := promise t;
               resumed := true; polling := polling t |}
        | Rejected msg =>
            {| app := after_failure cv msg (app t); promise := promise t;
               resumed := true; polling := polling t |}
        end
  end.

(** The states a task goes through under a sequence of events, the
    starting state first. *)
Fixpoint trace {E S : Type} (step : E -> S -> S) (evs : list E) (s : S)
  : list S :=
  match evs with
  | [] => [s]
  | e :: evs' => s :: trace step evs' (step e s)
  end.

(** [req.file], as multer leaves it: the name the client gave, the name
    of the temporary file in the uploads directory, and the media type. *)
Record UploadedFile := {
  originalname : string;
  filename : string;
  mimetype : string;
}.

(** [supportedExts.has(finalExt)] *)
Definition supported (ext : string) : bool :=
  String.eqb ext ".mp4" || String.eqb ext ".mov" || String.eqb ext ".webm".

(** [fs.renameSync(tempPath, finalPath)], with its fallback of copying
    and unlinking: the content ends up under the new name, and the call
    throws when there is no temporary file. *)
Definition move_file (from to : string) (k : Media.Disk) : option Media.Disk :=
  match Media.stored k !! from with
  | Some content =>
      Some {| Media.data_file := Media.data_file k;
              Media.stored :=
                <[to := content]> (delete from (Media.stored k)) |}
  | None => None
  end.

(** What [POST /upload] answers and leaves behind. *)
Inductive Uploaded :=
| NoFile
| Failed
| Accepted (info : Media.MediaRecord) (task : option (Transcode.Remux * Task))
    (st : Hub.App).

(** The handler of [POST /upload] of the WebSocket revision.  [id] is the
    value of [uuidv4()], [clock] that of [Date.now()] inside
    [transcodeToMp4] and [stamp] that of the later [Date.now()] for
    [createdAt].  The handler runs the task up to its [await] and then
    writes the record; [Failed] is an exception that leaves the
    handler. *)
Definition post_upload `{Platform} (id : string) (clock stamp : Z)
    (file : option UploadedFile) (st : Hub.App) : Uploaded :=
  match file with
  | None => NoFile
  | Some f =>
      let ext := path_extname (originalname f) in
      let tempPath := path_join UPLOADS_DIR (filename f) in
      let finalExt := toLowerCase ext in
      let finalName := id +:+ finalExt in
      let finalPath := path_join UPLOADS_DIR finalName in
      match move_file tempPath finalPath (Hub.disk st) with
      | None => Failed
      | Some k1 =>
          let st1 := Hub.with_disk k1 st in
          let started :=
            if supported finalExt then None
            else Some (start_task (conversion id finalName) clock st1) in
          let st2 :=
            match started with
            | Some (_, t) => app t
            | None => st1
            end in
          match Media.stat_size (Hub.disk st2) finalPath with
          | None => Failed
          | Some sz =>
              let info :=
                {| Media.id := id;
                   Media.filename := finalName;
                   Media.originalName := originalname f;
                   Media.mime :=
                     match mime_lookup finalPath with
                     | Some t => t
                     | None =>
                         if Js.truthy (mimetype f) then mimetype f
                         else "application/octet-stream"
                     end;
                   Media.size := sz;
                   Media.createdAt := stamp;
                   Media.converted := false |} in
              let d := Media.readData (Hub.disk st2) in
              let st3 :=
                Hub.with_disk (Media.writeData (<[id := info]> d) (Hub.disk st2))
                  st2 in
              Accepted info
                (match started with
                 | Some (c, t) =>
                     Some (c, {| app := st3; promise := promise t;
                                 resumed := resumed t; polling := polling t |})
                 | None => None
                 end)
                st3
          end
      end
  end.

(** The status [GET /transcode-status/:id] would report in a state:
    that of the job, [None] when the answer is [{ status: 'none' }] or
    carries no status. *)
Definition status_in (id : string) (st : Hub.App) : option Jobs.Status :=
  Jobs.status <$> Js.own (Hub.transcode_status id st).

(** The statuses carried by the messages about [id] among [w], in the
    order they were sent. *)
Definition statuses_sent (id : string) (w : list (Hub.Conn * Hub.StatusMessage))
  : list (option Jobs.Status) :=
  omap (fun m => if String.eqb (Hub.msg_id m.2) id
                 then Some (Jobs.status <$> Js.own (Hub.msg_job m.2))
                 else None) w.

(** Everything an observer of [id] can have read while the server went
    from state [prev] through the states [rest]: for each state in turn,
    the statuses of the messages about [id] sent on the way to it, then
    the status a poll of that state reports. *)
Fixpoint observations (id : string) (prev : Hub.App) (rest : list Hub.App)
  : list (option Jobs.Status) :=
  match rest with
  | [] => []
  | st :: rest' =>
      (statuses_sent id (drop (length (Hub.wire prev)) (Hub.wire st)) ++
       status_in id st :: observations id st rest')%list
  end.

(** From [st] to [st'] the wire only grew, and the status of [id] in
    [st], the statuses sent in between and the status in [st'] are in the
    order of the state machine. *)
Definition evolves (id : string) (st st' : Hub.App) : Prop :=
  exists sent,
    Hub.wire st' = (Hub.wire st ++ sent)%list /\
    StronglySorted Jobs.follows
      (status_in id st :: statuses_sent id sent ++ [status_in id st'])%list.

Fixpoint linked (id : string) (prev : Hub.App) (rest : list Hub.App) : Prop :=
  match rest with
  | [] => True
  | st :: rest' => evolves id prev st /\ linked id st rest'
  end.

(** Until the task is resumed after its [await], the job is [running]. *)
Definition awaiting (cv : Conversion) (t : Task) : Prop :=
  resumed t = false -> status_in (id cv) (app t) = Some Jobs.Running.

End Upload.

(** ** The background task of [main.js] *)

Module MainJs.

Inductive Event :=
| EncoderWrote (content : Media.File)
| FfStart
| FfProgress (percent : option Q)
| FfError (msg : string)
| FfEnd
| Resume.

(** [transcodeJobs[id] = { status: 'queued', progress: 0, message: 'queued' }] *)
Definition create_job (id : string) (st : Hub.App) : Hub.App :=
  Hub.with_jobs (<[id := Jobs.fresh]> (Hub.transcodeJobs st)) st.

Definition task_prologue (id : string) (st : Hub.App) : Hub.App :=
  Hub.update_job id (Jobs.set_message "starting")
    (Hub.update_job id (Jobs.set_status Jobs.Running) st).

(** [Math.round(p.percent || 0)] *)
Definition rounded_percent (percent : option Q) : Z :=
  match percent with
  | Some q => Js.Math_round q
  | None => 0
  end.

(** After the [await]: the same metadata update, and nothing more when it
    completes; the [catch] block when it throws. *)
Definition after_success `{Platform} (cv : Upload.Conversion) (st : Hub.App)
  : Hub.App :=
  match Upload.update_metadata cv (Hub.disk st) with
  | Upload.Completed k => Hub.with_disk k st
  | Upload.Threw k msg =>
      Hub.update_job (Upload.id cv) (Jobs.set_message msg)
        (Hub.update_job (Upload.id cv) (Jobs.set_status Jobs.Error)
          (Hub.with_disk k st))
  end.

Definition after_failure (cv : Upload.Conversion) (msg : string)
    (st : Hub.App) : Hub.App :=
  Hub.update_job (Upload.id cv) (Jobs.set_message msg)
    (Hub.update_job (Upload.id cv) (Jobs.set_status Jobs.Error) st).

Definition start_task (cv : Upload.Conversion) (st : Hub.App) : Upload.Task :=
  {| Upload.app := task_prologue (Upload.id cv) (create_job (Upload.id cv) st);
     Upload.promise := Upload.Pending;
     Upload.resumed := false;
     Upload.polling := false |}.

Definition step `{Platform} (cv : Upload.Conversion) (ev : Event)
    (t : Upload.Task) : Upload.Task :=
  let id := Upload.id cv in
  let st := Upload.app t in
  match ev with
  | EncoderWrote content =>
      {| Upload.app :=
           Upload.encoder_output (Upload.convertedPath cv) content st;
         Upload.promise := Upload.promise t;
         Upload.resumed := Upload.resumed t;
         Upload.polling := Upload.polling t |}
  | FfStart =>
      {| Upload.app := Hub.update_job id (Jobs.set_message "started") st;
         Upload.promise := Upload.promise t;
         Upload.resumed := Upload.resumed t;
         Upload.polling := Upload.polling t |}
  | FfProgress p =>
      {| Upload.app :=
           Hub.update_job id (Jobs.set_message "running")
             (Hub.update_job id (Jobs.set_progress (rounded_percent p)) st);
         Upload.promise := Upload.promise t;
         Upload.resumed := Upload.resumed t;
         Upload.polling := Upload.polling t |}
  | FfError msg =>
      {| Upload.app :=
           Hub.update_job id (Jobs.set_message msg)
             (Hub.update_job id (Jobs.set_status Jobs.Error) st);
         Upload.promise := Upload.settle (Upload.Rejected msg) (Upload.promise t);
         Upload.resumed := Upload.resumed t;
         Upload.polling := Upload.polling t |}
  | FfEnd =>
      {| Upload.app :=
           Hub.update_job id (Jobs.set_message "finished")
             (Hub.update_job id (Jobs.set_progress 100)
               (Hub.update_job id (Jobs.set_status Jobs.Done) st));
         Upload.promise := Upload.settle Upload.Fulfilled (Upload.promise t);
         Upload.resumed := Upload.resumed t;
         Upload.polling := Upload.polling t |}
  | Resume =>
      if Upload.resumed t then t
      else
        match Upload.promise t with
        | Upload.Pending => t
        | Upload.Fulfilled =>
            {| Upload.app := after_success cv st;
               Upload.promise := Upload.promise t;
               Upload.resumed := true;
               Upload.polling := Upload.polling t |}
        | Upload.Rejected msg =>
            {| Upload.app := after_failure cv msg st;
               Upload.promise := Upload.promise t;
               Upload.resumed := true;
               Upload.polling := Upload.polling t |}
        end
  end.

End MainJs.

(** ** A sample installation, for the worked examples *)

Module Sample.

(** The extension of a name: from its last dot on, empty without one. *)
Fixpoint extname (name : string) : string :=
  match name with
  | EmptyString => EmptyString
  | String c rest =>
      match extname rest with
      | EmptyString =>
          if Ascii.eqb c "." then name else EmptyString
      | ext => ext
      end
  end.

Definition lookup (path : string) : option string :=
  let ext := extname path in
  if String.eqb ext ".mp4" then Some "video/mp4"
  else if String.eqb ext ".avi" then Some "video/x-msvideo"
  else if String.eqb ext ".mov" then Some "video/quicktime"
  else if String.eqb ext ".webm" then Some "video/webm"
  else None.

Definition platform : Platform :=
  {| path_join := fun dir name => dir +:+ "/" +:+ name;
     path_extname := extname;
     toLowerCase := fun s => s;
     mime_lookup := lookup;
     UPLOADS_DIR := "uploads" |}.

Definition clip : Media.MediaRecord :=
  {| Media.id := "v1";
     Media.filename := "v1.mp4";
     Media.originalName := "clip.mp4";
     Media.mime := "video/mp4";
     Media.size := 5;
     Media.createdAt := 1700000000000;
     Media.converted := false |}.

Definition clip_bytes : list Byte.byte :=
  [Byte.x10; Byte.x11; Byte.x12; Byte.x13; Byte.x14].

Definition clip_file : Media.File :=
  {| Media.bytes := clip_bytes; Media.bytes_safe := I |}.


(** The file [holiday.avi] and its conversion. *)
Definition movie_file : Media.File :=
  {| Media.bytes := [Byte.x01; Byte.x02; Byte.x03; Byte.x04];
     Media.bytes_safe := I |}.

Definition converted_file : Media.File :=
  {| Media.bytes := [Byte.x05; Byte.x06; Byte.x07];
     Media.bytes_safe := I |}.

(** One record with a five-byte file behind it. *)
Definition disk : Media.Disk :=
  {| Media.data_file := Some {[ "v1" := clip ]};
     Media.stored := {[ "uploads/v1.mp4" := clip_file ]} |}.

Definition blank : Media.MediaRecord :=
  {| Media.id := "v0";
     Media.filename := "v0.mp4";
     Media.originalName := "blank.mp4";
     Media.mime := "video/mp4";
     Media.size := 0;
     Media.createdAt := 1700000000001;
     Media.converted := false |}.


(** A job half way through its remux. *)
Definition remuxing : Jobs.Job :=
  {| Jobs.status := Jobs.Running; Jobs.progress := 40;
     Jobs.message := "remuxing (copying)"; Jobs.startedAt := Some 1000;
     Jobs.elapsed := Some 2; Jobs.eta := Jobs.EtaSeconds 3;
     Jobs.timemark := None |}.

Definition finished : Jobs.Job :=
  {| Jobs.status := Jobs.Done; Jobs.progress := 100;
     Jobs.message := "finished"; Jobs.startedAt := Some 1000;
     Jobs.elapsed := Some 5; Jobs.eta := Jobs.EtaSeconds 0;
     Jobs.timemark := None |}.

(** A server that has just started: nothing in memory, [disk] on disk. *)
Definition idle : Hub.App :=
  {| Hub.transcodeJobs := ∅; Hub.subscribers := ∅; Hub.sockets := ∅;
     Hub.wire := []; Hub.disk := disk |}.

Definition socket (rs : Hub.ReadyState) (throws : bool) (sub : option string)
  : Hub.Socket :=
  {| Hub.readyState := rs; Hub.send_throws := throws;
     Hub._subscribedId := sub |}.

(** Three subscribers of ["v1"]: connection 1 is closing, a send on
    connection 2 throws, connection 3 is healthy. *)
Definition hub : Hub.App :=
  {| Hub.transcodeJobs := {[ "v1" := remuxing ]};
     Hub.subscribers := {[ "v1" := [1; 2; 3]%nat ]};
     Hub.sockets :=
       {[ 1%nat := socket Hub.CLOSING false (Some "v1");
          2%nat := socket Hub.OPEN true (Some "v1");
          3%nat := socket Hub.OPEN false (Some "v1") ]};
     Hub.wire := [];
     Hub.disk := disk |}.

Definition subscribe_to (id : string) : option Hub.ClientData :=
  Some {| Hub.type := "subscribe"; Hub.id := id |}.

(** Connection 5 subscribes to ["a"], then to ["b"], and closes. *)
Definition two_subscriptions : Hub.App :=
  Hub.on_message 5%nat (subscribe_to "b")
    (Hub.on_message 5%nat (subscribe_to "a")
      (Hub.on_connection 5%nat false idle)).

(** An upload ["v2"] of an [.avi] file, its record, and the disk once the
    encoder has written the converted file. *)
Definition movie : Media.MediaRecord :=
  {| Media.id := "v2";
     Media.filename := "v2.avi";
     Media.originalName := "holiday.avi";
     Media.mime := "video/x-msvideo";
     Media.size := 4;
     Media.createdAt := 1700000000002;
     Media.converted := false |}.

Definition movie_conversion : Upload.Conversion :=
  @Upload.conversion platform "v2" "v2.avi".

Definition disk_after_encoding : Media.Disk :=
  {| Media.data_file := Some {[ "v1" := clip; "v2" := movie ]};
     Media.stored :=
       {[ "uploads/v1.mp4" := clip_file;
          "uploads/v2.avi" := movie_file;
          "uploads/v2.mp4" := converted_file ]} |}.

(** The same disk when the encoder has left no output file. *)
Definition disk_without_output : Media.Disk :=
  {| Media.data_file := Some {[ "v1" := clip; "v2" := movie ]};
     Media.stored :=
       {[ "uploads/v1.mp4" := clip_file;
          "uploads/v2.avi" := movie_file ]} |}.

(** The remux of ["v2"], started at time 1000, while the output file
    holds three of the four input bytes. *)
Definition movie_remux : Transcode.Remux :=
  {| Transcode.inputPath := "uploads/v2.avi";
     Transcode.outputPath := "uploads/v2.mp4";
     Transcode.jobId := "v2";
     Transcode.inputSize := 4;
     Transcode.startTime := 1000 |}.

(** The server while a 40-byte upload is remuxed and 23 bytes of
    output are written, and the call of [transcodeToMp4] for it, made at
    time 1000. *)
Definition short_file : Media.File :=
  {| Media.bytes := replicate 40 Byte.x00; Media.bytes_safe := I |}.

Definition part_file : Media.File :=
  {| Media.bytes := replicate 23 Byte.x00; Media.bytes_safe := I |}.

Definition part_written : Hub.App :=
  {| Hub.transcodeJobs := {[ "v2" := remuxing ]};
     Hub.subscribers := ∅; Hub.sockets := ∅; Hub.wire := [];
     Hub.disk :=
       {| Media.data_file := Some {[ "v2" := movie ]};
          Media.stored := {[ "uploads/v2.avi" := short_file;
                             "uploads/v2.mp4" := part_file ]} |} |}.

Definition short_remux : Transcode.Remux :=
  Transcode.transcodeToMp4 "uploads/v2.avi" "uploads/v2.mp4" "v2" 1000
    part_written.

Definition encoding : Hub.App :=
  {| Hub.transcodeJobs := {[ "v2" := remuxing ]};
     Hub.subscribers := ∅; Hub.sockets := ∅; Hub.wire := [];
     Hub.disk := disk_after_encoding |}.

(** A server with one open connection subscribed to ["v2"], before the
    upload of ["v2"], and the disk once the encoder is through. *)
Definition watched : Hub.App :=
  {| Hub.transcodeJobs := ∅;
     Hub.subscribers := {[ "v2" := [3%nat] ]};
     Hub.sockets := {[ 3%nat := socket Hub.OPEN false (Some "v2") ]};
     Hub.wire := [];
     Hub.disk := disk_after_encoding |}.

(** A server about to receive [holiday.avi], which multer has stored as
    [tmp123]. *)
Definition incoming : Hub.App :=
  Hub.with_disk
    {| Media.data_file := Some {[ "v1" := clip ]};
       Media.stored :=
         {[ "uploads/v1.mp4" := clip_file;
            "uploads/tmp123" := movie_file ]} |}
    idle.

Definition holiday : Upload.UploadedFile :=
  {| Upload.originalname := "holiday.avi";
     Upload.filename := "tmp123";
     Upload.mimetype := "video/x-msvideo" |}.

(** The same server when the encoder ends without an output file. *)
Definition unlucky : Hub.App :=
  Hub.with_disk disk_without_output idle.

End Sample.

(** ** The short link and the info route *)

Module Pages.

(** [req.protocol] and [req.get('host')]. *)
Record Origin := {
  protocol : string;
  host : string;
}.

(** [`${protocol}://${host}/v/${id}`] and the same under [/s/]. *)
Definition videoUrl (o : Origin) (id : string) : string :=
  protocol o +:+ "://" +:+ host o +:+ "/v/" +:+ id.

Definition shortUrl (o : Origin) (id : string) : string :=
  protocol o +:+ "://" +:+ host o +:+ "/s/" +:+ id.

Inductive ShortReply :=
| ShortFallback
| Redirect (location : string).

(** The handler of [app.get('/s/:id')]: [d[id]] only has to be
    truthy. *)
Definition get_s (k : Media.Disk) (id : string) : ShortReply :=
  match Js.get (Media.readData k) id with
  | Js.Missing => ShortFallback
  | Js.Own _ | Js.Inherited => Redirect ("/v/" +:+ id)
  end.

(** A record as the value of a property. *)
Definition own_record (r : Media.MediaRecord) : Js.Found Media.MediaRecord :=
  Js.Own r.

(** The body [{ id, videoUrl, shortUrl, info }] as it is handed to
    [res.json]; [info] is [d[id]]. *)
Record Info := {
  info_id : string;
  info_videoUrl : string;
  info_shortUrl : string;
  info : Js.Found Media.MediaRecord;
}.

(** The handler of [app.get('/info/:id')]; [None] is the 404 answer. *)
Definition get_info (o : Origin) (k : Media.Disk) (id : string)
  : option Info :=
  match Js.get (Media.readData k) id with
  | Js.Missing => None
  | found =>
      Some {| info_id := id; info_videoUrl := videoUrl o id;
              info_shortUrl := shortUrl o id; info := found |}
  end.

End Pages.

Coercion Pages.own_record : Media.MediaRecord >-> Js.Found.

(** ** The first revision, without transcoding *)

Module Legacy.

(** It answers 404 with a text where the later revisions send the
    fallback page. *)
Inductive Reply :=
| NotFound (text : string)
| Served (r : Range.Response)
| Crashed.

(** The handler of [app.get('/v/:id')] of the first revision. *)
Definition get_v `{Platform} (k : Media.Disk) (id : string)
    (range : option string) : Reply :=
  let d := Media.readData k in
  match Js.get d id with
  | Js.Missing => NotFound "Not found"
  | Js.Inherited => Crashed
  | Js.Own r =>
      let filePath := path_join UPLOADS_DIR (Media.filename r) in
      match Media.files k !! filePath with
      | None => NotFound "File missing"
      | Some content =>
          let fileSize := Z.of_nat (length content) in
          let contentType :=
            if Js.truthy (Media.mime r) then Media.mime r
            else match mime_lookup filePath with
                 | Some t => t
                 | None => "application/octet-stream"
                 end in
          let h := <["Content-Type" := contentType]>
                     (<["Accept-Ranges" := "bytes"]> ∅) in
          match range with
          | Some rg =>
              if Js.truthy rg then
                let parts := Js.split "-" (Js.replace_first "bytes=" "" rg) in
                let start :=
                  match parts !! 0%nat with
                  | Some p => Js.parseInt p
                  | None => Js.NaN
                  end in
                let end_ :=
                  match parts !! 1%nat with
                  | Some p =>
                      if Js.truthy p then Js.parseInt p
                      else Js.Int (fileSize - 1)
                  | None => Js.Int (fileSize - 1)
                  end in
                if Js.isNaN start || Js.isNaN end_ || Js.gt start end_
                then Served (Range.range_not_satisfiable h fileSize)
                else
                  match Range.createReadStream content start end_ with
                  | Some bytes =>
                      Served (Range.partial_content h fileSize start end_
                                bytes)
                  | None => Crashed
                  end
              else Served (Range.whole_file h content fileSize)
          | None => Served (Range.whole_file h content fileSize)
          end
      end
  end.

End Legacy.

(** ** The webhook route *)

Module Webhook.

(** [String.prototype.trim]: white space is dropped at both ends. *)
Fixpoint trim_end (s : string) : string :=
  match s with
  | EmptyString => EmptyString
  | String c r =>
      match trim_end r with
      | EmptyString => if Js.is_white c then EmptyString else String c EmptyString
      | r' => String c r'
      end
  end.

Definition trim (s : string) : string := trim_end (Js.trim_start s).

(** [req.body] as far as the handler looks: the three properties, the
    empty string for one that is missing or falsy. *)
Record Body := {
  webhookUrl : string;
  id : string;
  label : string;
}.

(** [{ embeds: [{ title, url, description }] }], and where it is sent. *)
Record Outbound := {
  target : string;
  title : string;
  url : string;
  description : string;
}.

(** What the request to the webhook comes to: a response with a status
    code, or an exception ([fetch] rejects, the URL does not parse, the
    socket fails). *)
Inductive Upstream :=
| Replied (status : Z)
| Broke (msg : string).

Inductive Answer :=
| Missing
| UnknownId
| Delivered
| Rejected (status : Z)
| Crashed (msg : string).

(** The status code of each answer. *)
Definition code (a : Answer) : Z :=
  match a with
  | Missing => 400
  | UnknownId => 404
  | Delivered => 200
  | Rejected _ => 502
  | Crashed _ => 500
  end.

(** [(label && String(label).trim()) || d[id].originalName || 'Video'] *)
Definition embed_title (label originalName : string) : string :=
  if Js.truthy label && Js.truthy (trim label) then trim label
  else if Js.truthy originalName then originalName
  else "Video".

(** [d[id].originalName], the empty string standing for [undefined],
    which is what an inherited value has for it. *)
Definition original_name (found : Js.Found Media.MediaRecord) : string :=
  match found with
  | Js.Own r => Media.originalName r
  | Js.Inherited | Js.Missing => EmptyString
  end.

(** [r.ok], and the test of [statusCode] in the [https] fallback. *)
Definition accepted (status : Z) : bool :=
  ((200 <=? status) && (status <? 300))%Z.

(** The handler of [app.post('/post-webhook')]: its answer and the
    requests it attempted.  [body] is [None] when [req.body] is missing;
    [up] is what the one request comes to when it is made. *)
Definition post_webhook (o : Pages.Origin) (k : Media.Disk)
    (body : option Body) (up : Upstream) : Answer * list Outbound :=
  let b :=
    match body with
    | Some b => b
    | None => {| webhookUrl := EmptyString; id := EmptyString;
                 label := EmptyString |}
    end in
  if negb (Js.truthy (webhookUrl b)) || negb (Js.truthy (id b))
  then (Missing, [])
  else
    match Js.get (Media.readData k) (id b) with
    | Js.Missing => (UnknownId, [])
    | found =>
        let payload :=
          {| target := webhookUrl b;
             title := embed_title (label b) (original_name found);
             url := Pages.videoUrl o (id b);
             description := "Uploaded via Video Hoster" |} in
        match up with
        | Replied status =>
            if accepted status then (Delivered, [payload])
            else (Rejected status, [payload])
        | Broke msg => (Crashed msg, [payload])
        end
    end.

End Webhook.

(** ** Notions used to state what the handlers keep *)

Module Keeps.

(** The names [POST /upload] gives an uploaded file: the final name
    [id + ext.toLowerCase()] and the record written to [data.json] for a
    file of [size] bytes. *)
Definition final_name `{Platform} (id : string) (f : Upload.UploadedFile)
  : string :=
  id +:+ toLowerCase (path_extname (Upload.originalname f)).

Definition upload_record `{Platform} (id : string) (stamp : Z)
    (f : Upload.UploadedFile) (size : Z) : Media.MediaRecord :=
  {| Media.id := id;
     Media.filename := final_name id f;
     Media.originalName := Upload.originalname f;
     Media.mime :=
       match mime_lookup (path_join UPLOADS_DIR (final_name id f)) with
       | Some t => t
       | None =>
           if Js.truthy (Upload.mimetype f) then Upload.mimetype f
           else "application/octet-stream"
       end;
     Media.size := size;
     Media.createdAt := stamp;
     Media.converted := false |}.

(** No subscriber set holds a connection twice. *)
Definition sets_nodup (st : Hub.App) : Prop :=
  forall id set, Hub.subscribers st !! id = Some set -> NoDup set.

(** The numbers a job shows are in range: progress within 0 and 100,
    elapsed seconds and remaining seconds not negative. *)
Definition job_in_range (j : Jobs.Job) : Prop :=
  0 <= Jobs.progress j <= 100 /\
  (forall e, Jobs.elapsed j = Some e -> 0 <= e) /\
  (forall s, Jobs.eta j = Jobs.EtaSeconds s -> 0 <= s).

(** A job that is [done] has its record converted, when [data.json] has
    a record for it. *)
Definition done_means_converted (cv : Upload.Conversion) (st : Hub.App)
  : Prop :=
  Upload.status_in (Upload.id cv) st = Some Jobs.Done ->
  forall r, Media.readData (Hub.disk st) !! Upload.id cv = Some r ->
    Media.converted r = true /\
    Media.filename r = Upload.convertedName cv.

End Keeps.

(** ** More sample data *)

Module Demo.

Definition clip2_file : Media.File :=
  {| Media.bytes := [Byte.x0a; Byte.x0b; Byte.x0c];
     Media.bytes_safe := I |}.

(** A server about to receive [clip2.mp4], which multer has stored as
    [tmp9]. *)
Definition incoming_mp4 : Hub.App :=
  Hub.with_disk
    {| Media.data_file := Some {[ "v1" := Sample.clip ]};
       Media.stored :=
         {[ "uploads/v1.mp4" := Sample.clip_file;
            "uploads/tmp9" := clip2_file ]} |}
    Sample.idle.

Definition clip2 : Upload.UploadedFile :=
  {| Upload.originalname := "clip2.mp4";
     Upload.filename := "tmp9";
     Upload.mimetype := "video/mp4" |}.

Definition origin : Pages.Origin :=
  {| Pages.protocol := "https"; Pages.host := "vid.example" |}.

Definition hook : Webhook.Body :=
  {| Webhook.webhookUrl := "https://hooks.example/1";
     Webhook.id := "v1";
     Webhook.label := "  My clip " |}.

End Demo.

(** * Properties *)

Example parseInt_plain : Js.parseInt "42" = Js.Int 42.
Proof. reflexivity. Qed.
Example parseInt_lenient : Js.parseInt "  +7x" = Js.Int 7.
Proof. reflexivity. Qed.
Example parseInt_nan : Js.parseInt "abc" = Js.NaN.
Proof. reflexivity. Qed.
Example parseInt_empty : Js.parseInt "" = Js.NaN.
Proof. reflexivity. Qed.
(** Above [2 ^ 53] neighbouring integers read as the same double. *)
Example parseInt_rounds :
  Js.parseInt "9007199254740993" = Js.Int 9007199254740992 /\
  Js.parseInt "9007199254740995" = Js.Int 9007199254740996.
Proof. split; vm_compute; reflexivity. Qed.
Example inherited_lookup :
  Js.get (∅ : gmap string nat) "constructor" = Js.Inherited /\
  Js.get (∅ : gmap string nat) "v1" = Js.Missing.
Proof. split; reflexivity. Qed.
(** [Math.round((23 / 40) * 100)] is 57: the quotient is not 0.575. *)
Example double_rounding :
  Js.Math_round (Js.fmul (Js.fdiv 23 40) 100) = 57 /\
  Js.Math_round (100 * 23 / 40)%Q = 58.
Proof. split; vm_compute; reflexivity. Qed.
Example split_two : Js.split "-" "5-10" = ["5"; "10"].
Proof. reflexivity. Qed.
Example split_open : Js.split "-" "5-" = ["5"; ""].
Proof. reflexivity. Qed.
Example split_suffix : Js.split "-" "-5" = [""; "5"].
Proof. reflexivity. Qed.
Example replace_bytes : Js.replace_first "bytes=" "" "bytes=0-1" = "0-1".
Proof. reflexivity. Qed.
Example render_num : Js.num_to_string 1234 = "1234".
Proof. reflexivity. Qed.

(** ** Facts about the string primitives *)

Section JsFacts.

Lemma string_app_cons x (a b : string) : String x a ++ b = String x (a ++ b).
Proof. reflexivity. Qed.

Lemma string_app_assoc (a b c : string) : (a ++ b) ++ c = a ++ (b ++ c).
Proof.
  induction a as [|x a IH]; [done|].
  rewrite !string_app_cons. by rewrite IH.
Qed.

Lemma digits_only_app a b :
  Js.digits_only (a ++ b) = Js.digits_only a && Js.digits_only b.
Proof.
  induction a as [|c a IH]; simpl; [done|].
  rewrite IH. by destruct (Js.is_digit c).
Qed.

Lemma digits_value_app a b acc :
  Js.digits_value acc (a ++ b) = Js.digits_value (Js.digits_value acc a) b.
Proof. revert acc. induction a as [|c a IH]; intros acc; simpl; [done|apply IH]. Qed.

Lemma digit_prefix_digits_only s :
  Js.digits_only s = true -> Js.digit_prefix s = s.
Proof.
  induction s as [|c s IH]; simpl; [done|].
  destruct (Js.is_digit c); simpl; [|done].
  intros Hs. by rewrite IH.
Qed.

Lemma is_digit_not_white c : Js.is_digit c = true -> Js.is_white c = false.
Proof.
  unfold Js.is_digit, Js.is_white. intros Hd.
  apply andb_true_iff in Hd as [H1 H2].
  apply N.leb_le in H1. apply N.leb_le in H2.
  repeat (apply orb_false_iff; split).
  - apply andb_false_iff. right. apply N.leb_gt. lia.
  - apply N.eqb_neq. lia.
  - apply N.eqb_neq. lia.
Qed.

Lemma is_digit_not_sep c : Js.is_digit c = true -> Ascii.eqb c "-" = false.
Proof.
  intros Hd. apply Ascii.eqb_neq. intros ->. discriminate Hd.
Qed.

Lemma is_digit_not_plus c : Js.is_digit c = true -> Ascii.eqb c "+" = false.
Proof.
  intros Hd. apply Ascii.eqb_neq. intros ->. discriminate Hd.
Qed.

Lemma digits_only_free_of s :
  Js.digits_only s = true -> Js.free_of "-" s = true.
Proof.
  induction s as [|c s IH]; simpl; [done|].
  intros [Hc Hs]%andb_true_iff.
  by rewrite (is_digit_not_sep c Hc), IH.
Qed.

(** A non-empty run of digits parses to its value. *)
Lemma mathInt_digits s :
  Js.digits_only s = true -> s <> EmptyString ->
  Js.mathInt s = Some (Js.digits_value 0 s).
Proof.
  destruct s as [|c s]; [done|]. intros Hd _.
  pose proof Hd as Hd'. simpl in Hd'.
  apply andb_true_iff in Hd' as [Hc Hs].
  unfold Js.mathInt.
  assert (Js.trim_start (String c s) = String c s) as ->.
  { simpl. by rewrite (is_digit_not_white c Hc). }
  assert (Ascii.eqb c "-" = false) as Hm by by apply is_digit_not_sep.
  assert (Ascii.eqb c "+" = false) as Hp by by apply is_digit_not_plus.
  assert ((match String c s with
           | String "-" r => (-1, r)
           | String "+" r => (1, r)
           | _ => (1, String c s)
           end) = (1, String c s)) as ->.
  { apply Ascii.eqb_neq in Hm. apply Ascii.eqb_neq in Hp.
    destruct c as [[] [] [] [] [] [] [] []]; try reflexivity; congruence. }
  rewrite (digit_prefix_digits_only _ Hd). simpl Js.truthy. cbv iota.
  f_equal. lia.
Qed.

Lemma pretty_N_char_digit d :
  (d < 10)%N ->
  Js.is_digit (pretty_N_char d) = true /\
  Js.digit_value (pretty_N_char d) = Z.of_N d.
Proof.
  intros Hd.
  assert (d = 0 \/ d = 1 \/ d = 2 \/ d = 3 \/ d = 4 \/ d = 5 \/ d = 6 \/
          d = 7 \/ d = 8 \/ d = 9)%N as Hcases by lia.
  repeat destruct Hcases as [->|Hcases]; try subst d; by compute.
Qed.

Lemma pretty_N_go_app x s :
  pretty_N_go x s = pretty_N_go x EmptyString ++ s.
Proof.
  revert s. induction (N.lt_wf_0 x) as [x _ IH]; intros s.
  destruct (decide (x = 0%N)) as [->|Hx]; [done|].
  assert (x `div` 10 < x)%N as Hlt by (apply N.div_lt; lia).
  rewrite !(pretty_N_go_step x) by lia.
  rewrite (IH _ Hlt (String _ s)), (IH _ Hlt (String _ EmptyString)).
  by rewrite string_app_assoc.
Qed.

Lemma pretty_N_go_last x :
  (0 < x)%N ->
  pretty_N_go x EmptyString =
  pretty_N_go (x `div` 10)%N EmptyString ++
  String (pretty_N_char (x `mod` 10)%N) EmptyString.
Proof. intros Hx. by rewrite pretty_N_go_step, pretty_N_go_app. Qed.

Lemma pretty_N_go_digits x :
  Js.digits_only (pretty_N_go x EmptyString) = true /\
  Js.digits_value 0 (pretty_N_go x EmptyString) = Z.of_N x.
Proof.
  induction (N.lt_wf_0 x) as [x _ IH].
  destruct (decide (x = 0%N)) as [->|Hx]; [done|].
  rewrite pretty_N_go_last by lia.
  destruct (IH (x `div` 10)%N) as [Hd Hv]; [apply N.div_lt; lia|].
  destruct (pretty_N_char_digit (x `mod` 10)%N) as [Hc Hcv];
    [apply N.mod_lt; lia|].
  split.
  - rewrite digits_only_app, Hd. simpl. by rewrite Hc.
  - rewrite digits_value_app, Hv. simpl. rewrite Hcv.
    rewrite (N.div_mod x 10) at 3 by lia. lia.
Qed.

Lemma pretty_N_go_nonempty x :
  (0 < x)%N -> pretty_N_go x EmptyString <> EmptyString.
Proof.
  intros Hx. rewrite pretty_N_go_last by done.
  by destruct (pretty_N_go (x `div` 10)%N EmptyString).
Qed.

(** The decimal rendering of a non-negative integer is a non-empty run of
    digits whose value is the integer. *)
Lemma num_to_string_digits z :
  0 <= z ->
  Js.digits_only (Js.num_to_string z) = true /\
  Js.num_to_string z <> EmptyString /\
  Js.digits_value 0 (Js.num_to_string z) = z.
Proof.
  intros Hz. unfold Js.num_to_string, pretty, pretty_Z.
  destruct z as [|p|p]; [done| |lia].
  unfold pretty, pretty_positive, pretty, pretty_N.
  rewrite decide_False by done.
  destruct (pretty_N_go_digits (N.pos p)) as [Hd Hv].
  split_and!; [done|by apply pretty_N_go_nonempty|done].
Qed.

Lemma mathInt_num_to_string z :
  0 <= z -> Js.mathInt (Js.num_to_string z) = Some z.
Proof.
  intros Hz. destruct (num_to_string_digits z Hz) as (Hd & Hne & Hv).
  by rewrite mathInt_digits, Hv.
Qed.

(** [split] on a string whose first piece has no separator. *)
Lemma split_free sep s :
  Js.free_of sep s = true -> Js.split sep s = [s].
Proof.
  induction s as [|c s IH]; simpl; [done|].
  intros [Hc Hs]%andb_true_iff. apply negb_true_iff in Hc.
  by rewrite Hc, IH.
Qed.

Lemma split_app_sep sep a b :
  Js.free_of sep a = true ->
  Js.split sep (a ++ String sep b) = a :: Js.split sep b.
Proof.
  induction a as [|c a IH]; simpl.
  - intros _. by rewrite Ascii.eqb_refl.
  - intros [Hc Hs]%andb_true_iff. apply negb_true_iff in Hc.
    by rewrite Hc, IH.
Qed.

(** Every piece that [split] returns is free of the separator. *)
Lemma split_pieces_free sep s :
  Forall (fun p => Js.free_of sep p = true) (Js.split sep s).
Proof.
  induction s as [|c s IH]; simpl; [by repeat constructor|].
  destruct (Ascii.eqb c sep) eqn:Hc; [by constructor|].
  destruct (Js.split sep s) as [|p ps]; simpl.
  - repeat constructor. simpl. by rewrite Hc.
  - inversion IH as [|?? Hp Hps]; subst. constructor; [|done].
    simpl. by rewrite Hc, Hp.
Qed.

Lemma replace_first_prefix pat rest :
  Js.replace_first pat EmptyString (pat ++ rest) = rest.
Proof.
  assert (Js.strip_prefix pat (pat ++ rest) = Some rest) as Hp.
  { induction pat as [|c pat IH]; simpl; [done|].
    by rewrite Ascii.eqb_refl. }
  destruct pat as [|c pat]; [by destruct rest|].
  simpl in *. by rewrite Hp.
Qed.


(** *** Rounding to a double *)

Lemma round_even_bounds n d :
  0 < d -> n / d <= Js.round_even n d <= n / d + 1.
Proof.
  intros Hd. unfold Js.round_even.
  destruct (2 * (n mod d) ?= d)%Z; [destruct (Z.even (n / d))|..]; lia.
Qed.

(** An integer of at most 53 bits is a double. *)
Lemma nearest_double_exact z :
  0 <= z <= 2 ^ 53 -> Js.nearest_double z = z.
Proof.
  intros Hz. unfold Js.nearest_double.
  destruct (Z.log2 z - 52 <=? 0)%Z eqn:He; [done|].
  apply Z.leb_gt in He.
  assert (z = 2 ^ 53) as ->.
  { destruct (decide (z = 0)) as [->|Hnz]; [by vm_compute in He|].
    assert (2 ^ 53 <= z); [|lia].
    apply Z.log2_le_pow2; lia. }
  by vm_compute.
Qed.

(** Rounding does not take an integer from [2 ^ 53] on below [2 ^ 53]. *)
Lemma nearest_double_large z :
  2 ^ 53 <= z -> 2 ^ 53 <= Js.nearest_double z.
Proof.
  intros Hz. unfold Js.nearest_double.
  destruct (Z.log2 z - 52 <=? 0)%Z eqn:He; [done|].
  apply Z.leb_gt in He.
  set (e := Z.log2 z - 52) in *.
  assert (0 < 2 ^ e) as Hpow by (apply Z.pow_pos_nonneg; lia).
  pose proof (round_even_bounds z (2 ^ e) Hpow) as [Hlo _].
  assert (2 ^ 52 <= z / 2 ^ e) as Hq.
  { apply Z.div_le_lower_bound; [done|].
    rewrite Z.mul_comm, <- Z.pow_add_r by lia.
    replace (52 + e) with (Z.log2 z) by (unfold e; lia).
    apply Z.log2_spec. lia. }
  assert (2 <= 2 ^ e).
  { change 2 with (2 ^ 1) at 1. apply Z.pow_le_mono_r; lia. }
  change (2 ^ 53) with (2 ^ 52 * 2). nia.
Qed.

Lemma to_double_exact z :
  0 <= z <= 2 ^ 53 -> Js.to_double z = Js.Int z.
Proof.
  intros Hz. unfold Js.to_double.
  rewrite Z.abs_eq by lia. rewrite nearest_double_exact by done.
  destruct (2 ^ 1024 <=? z)%Z eqn:Hbig.
  - apply Z.leb_le in Hbig.
    assert (2 ^ 53 < 2 ^ 1024) by (apply Z.pow_lt_mono_r; lia). lia.
  - f_equal. destruct z; simpl; lia.
Qed.

Lemma to_double_large z :
  2 ^ 53 <= z ->
  Js.to_double z = Js.Infinity \/
  exists m, Js.to_double z = Js.Int m /\ 2 ^ 53 <= m.
Proof.
  intros Hz. unfold Js.to_double.
  assert (0 < z) as Hpos by (assert (0 < 2 ^ 53) by done; lia).
  rewrite Z.abs_eq by lia.
  pose proof (nearest_double_large z Hz) as Hm.
  destruct (2 ^ 1024 <=? Js.nearest_double z)%Z.
  - left. by destruct (z <? 0)%Z eqn:Hneg; [apply Z.ltb_lt in Hneg; lia|].
  - right. eexists. split; [done|].
    rewrite (Z.sgn_pos z) by done. lia.
Qed.

(** A numeral of at most 53 bits reads as its value. *)
Lemma parseInt_num_to_string z :
  0 <= z <= 2 ^ 53 -> Js.parseInt (Js.num_to_string z) = Js.Int z.
Proof.
  intros Hz. unfold Js.parseInt.
  rewrite mathInt_num_to_string by lia. by apply to_double_exact.
Qed.

Lemma fl_pos_nonneg n d : 0 <= n -> 0 < d -> (0 <= Js.fl_pos n d)%Q.
Proof.
  intros Hn Hd. unfold Js.fl_pos.
  destruct (0 <=? Js.ilog2 n d - 52)%Z eqn:He.
  - apply Z.leb_le in He.
    assert (0 < d * 2 ^ (Js.ilog2 n d - 52)) as Hpos
      by (apply Z.mul_pos_pos; [done|apply Z.pow_pos_nonneg; lia]).
    pose proof (round_even_bounds n _ Hpos) as [Hlo _].
    pose proof (Z.div_pos n _ Hn Hpos).
    assert (0 <= 2 ^ (Js.ilog2 n d - 52)) by (apply Z.pow_nonneg; lia).
    change 0%Q with (inject_Z 0). rewrite <- Zle_Qle. nia.
  - set (k := (- (Js.ilog2 n d - 52))%Z).
    pose proof (round_even_bounds (n * 2 ^ k) d Hd) as [Hlo _].
    assert (0 <= 2 ^ k)%Z by (apply Z.pow_nonneg; lia).
    assert (0 <= (n * 2 ^ k) / d)%Z by (apply Z.div_pos; [nia|done]).
    unfold Qle. simpl. lia.
Qed.

(** Rounding keeps the sign. *)
Lemma fl_nonneg x : (0 <= x)%Q -> (0 <= Js.fl x)%Q.
Proof.
  intros Hx. unfold Js.fl. destruct x as [n d]. simpl.
  destruct n as [|p|p]; [done| |].
  - by apply fl_pos_nonneg.
  - unfold Qle in Hx. simpl in Hx. lia.
Qed.

(** *** Lookups on a plain object *)

Lemma get_own {A} (obj : gmap string A) key v :
  obj !! key = Some v -> Js.get obj key = Js.Own v.
Proof. intros Hv. unfold Js.get. by rewrite Hv. Qed.

Lemma get_none {A} (obj : gmap string A) key :
  obj !! key = None ->
  Js.get obj key = if Js.inherited key then Js.Inherited else Js.Missing.
Proof. intros Hv. unfold Js.get. by rewrite Hv. Qed.

Lemma own_get {A} (obj : gmap string A) key :
  Js.own (Js.get obj key) = obj !! key.
Proof.
  unfold Js.get. destruct (obj !! key); [done|].
  by destruct (Js.inherited key).
Qed.

End JsFacts.

(** ** Range requests *)

Section BoundTexts.

Lemma trim_start_blank s :
  Range.blank s -> Js.trim_start s = EmptyString.
Proof.
  unfold Range.blank. induction s as [|c s IH]; simpl; [done|].
  intros [Hc Hs]%Forall_cons. rewrite Hc. by apply IH.
Qed.











End BoundTexts.

Section RangeFacts.
Context `{Platform}.

(** The size of a file is a safe integer. *)
Lemma files_size_safe k p content :
  Media.files k !! p = Some content ->
  Z.of_nat (length content) <= Js.MAX_SAFE_INTEGER.
Proof.
  unfold Media.files. rewrite lookup_fmap.
  destruct (Media.stored k !! p) as [f|]; [|done].
  intros [= <-]. pose proof (Media.bytes_safe f) as Hsafe.
  by apply Is_true_true, Z.leb_le in Hsafe.
Qed.

Lemma range_parts_bytes a b :
  0 <= a -> 0 <= b ->
  Range.range_parts (Range.bytes_range a b) =
  [Js.num_to_string a; Js.num_to_string b].
Proof.
  intros Ha Hb. unfold Range.range_parts, Range.bytes_range.
  destruct (num_to_string_digits a Ha) as (Hda & _ & _).
  destruct (num_to_string_digits b Hb) as (Hdb & _ & _).
  rewrite (replace_first_prefix "bytes=").
  change ("-" +:+ Js.num_to_string b) with (String "-" (Js.num_to_string b)).
  rewrite split_app_sep by by apply digits_only_free_of.
  by rewrite split_free by by apply digits_only_free_of.
Qed.

Lemma range_bounds_bytes fileSize a b :
  0 <= a <= Js.MAX_SAFE_INTEGER -> 0 <= b <= Js.MAX_SAFE_INTEGER ->
  Range.range_start (Range.bytes_range a b) = Js.Int a /\
  Range.range_end fileSize (Range.bytes_range a b) = Js.Int b.
Proof.
  unfold Js.MAX_SAFE_INTEGER. intros Ha Hb.
  unfold Range.range_start, Range.range_end, Range.start_text, Range.end_text.
  rewrite range_parts_bytes by lia. simpl.
  destruct (num_to_string_digits b) as (_ & Hne & _); [lia|].
  split; [apply parseInt_num_to_string; lia|].
  destruct (Js.num_to_string b) eqn:Hs; [done|]. simpl.
  rewrite <- Hs. apply parseInt_num_to_string; lia.
Qed.

Lemma safe_offset_int z :
  0 <= z <= Js.MAX_SAFE_INTEGER -> Js.safe_offset (Js.Int z) = true.
Proof.
  intros Hz. unfold Js.safe_offset.
  apply andb_true_iff. split; apply Z.leb_le; lia.
Qed.

(** Whatever the size of the file, a header [bytes=a-b] with
    [0 <= a <= b] and [b] a safe integer is answered by the 206 branch. *)
Lemma get_v_bytes_range k id r content a b :
  Media.readData k !! id = Some r ->
  Media.files k !! path_join UPLOADS_DIR (Media.filename r) = Some content ->
  0 <= a <= b -> b <= Js.MAX_SAFE_INTEGER ->
  Range.get_v k id (Some (Range.bytes_range a b)) =
  Range.Served
    (Range.partial_content (Range.base_headers r) (Z.of_nat (length content))
       (Js.Int a) (Js.Int b) (Range.read_span content a b)).
Proof.
  intros Hr Hf Hab Hb. unfold Range.get_v. rewrite (get_own _ _ _ Hr), Hf.
  destruct (range_bounds_bytes (Z.of_nat (length content)) a b)
    as [Hs He]; [lia..|].
  change (Js.truthy (Range.bytes_range a b)) with true. cbv iota zeta.
  rewrite Hs, He. cbn [Js.isNaN Js.gt orb].
  destruct (a >? b)%Z eqn:Hgt; [lia|].
  unfold Range.createReadStream.
  rewrite !safe_offset_int by lia. by rewrite Hgt.
Qed.

Lemma partial_content_headers h fileSize a b bytes :
  h !! "Content-Range" = None -> h !! "Content-Length" = None ->
  let resp := Range.partial_content h fileSize (Js.Int a) (Js.Int b) bytes in
  Range.status resp = 206 /\
  Range.headers resp !! "Content-Range" =
    Some (Range.content_range a b fileSize) /\
  Range.headers resp !! "Content-Length" =
    Some (Js.num_to_string (b - a + 1)) /\
  Range.body resp = bytes.
Proof.
  intros _ _. simpl. split_and!; [done| |by rewrite lookup_insert_eq|done].
  by rewrite lookup_insert_ne, lookup_insert_eq by done.
Qed.

Lemma read_span_length content a b :
  0 <= a <= b -> b < Z.of_nat (length content) ->
  Z.of_nat (length (Range.read_span content a b)) = b - a + 1.
Proof.
  intros Hab Hb. unfold Range.read_span.
  rewrite length_take, length_drop. lia.
Qed.

Lemma read_span_lookup content a b (i : nat) :
  0 <= a -> Z.of_nat i <= b - a ->
  Range.read_span content a b !! i = content !! (Z.to_nat a + i)%nat.
Proof.
  intros Ha Hi. unfold Range.read_span.
  rewrite lookup_take_lt by lia. by rewrite lookup_drop.
Qed.

End RangeFacts.

Section RangeBounds.

Lemma free_of_trim_start sep s :
  Js.free_of sep s = true -> Js.free_of sep (Js.trim_start s) = true.
Proof.
  induction s as [|c s IH]; [done|]. intros Hs. simpl.
  destruct (Js.is_white c); [|done].
  simpl in Hs. apply andb_true_iff in Hs as [_ Hs]. by apply IH.
Qed.

Lemma digits_value_prefix_nonneg s acc :
  0 <= acc -> 0 <= Js.digits_value acc (Js.digit_prefix s).
Proof.
  revert acc. induction s as [|c s IH]; intros acc Hacc; simpl; [done|].
  destruct (Js.is_digit c) eqn:Hc; simpl; [|done].
  apply IH. unfold Js.is_digit in Hc. unfold Js.digit_value.
  apply andb_true_iff in Hc as [Hlo _]. apply N.leb_le in Hlo. lia.
Qed.

(** A text without a minus sign never reads as a negative number. *)
Lemma mathInt_free_nonneg p z :
  Js.free_of "-" p = true -> Js.mathInt p = Some z -> 0 <= z.
Proof.
  intros Hfree%(free_of_trim_start "-"). unfold Js.mathInt.
  destruct (Js.trim_start p) as [|c r]; [done|].
  simpl in Hfree. apply andb_true_iff in Hfree as [Hc _].
  apply negb_true_iff, Ascii.eqb_neq in Hc.
  assert (exists s2, (match String c r with
                      | String "-" r' => (-1, r')
                      | String "+" r' => (1, r')
                      | _ => (1, String c r)
                      end) = (1, s2)) as [s2 ->].
  { destruct c as [[] [] [] [] [] [] [] []];
      first [by destruct Hc | by eexists]. }
  destruct (Js.truthy _); [|done].
  intros [= <-].
  pose proof (digits_value_prefix_nonneg s2 0). lia.
Qed.

Lemma nearest_double_nonneg z : 0 <= z -> 0 <= Js.nearest_double z.
Proof.
  intros Hz. destruct (decide (z <= 2 ^ 53)) as [Hsmall|Hbig].
  - by rewrite nearest_double_exact.
  - pose proof (nearest_double_large z). assert (0 < 2 ^ 53) by done. lia.
Qed.

(** So such a text reads as [NaN], as a non-negative integer or as
    [Infinity]. *)
Lemma parseInt_free_cases p :
  Js.free_of "-" p = true ->
  Js.parseInt p = Js.NaN \/ Js.parseInt p = Js.Infinity \/
  exists z, Js.parseInt p = Js.Int z /\ 0 <= z.
Proof.
  intros Hfree. unfold Js.parseInt.
  destruct (Js.mathInt p) as [z|] eqn:Hp; [|by left].
  right. pose proof (mathInt_free_nonneg p z Hfree Hp) as Hz.
  unfold Js.to_double. rewrite Z.abs_eq by done.
  pose proof (nearest_double_nonneg z Hz).
  destruct (2 ^ 1024 <=? Js.nearest_double z)%Z.
  - left. by destruct (z <? 0)%Z eqn:Hneg; [apply Z.ltb_lt in Hneg; lia|].
  - right. eexists. split; [done|]. destruct z; simpl; lia.
Qed.


End RangeBounds.

Section RangeClaims.
Context `{Platform}.

(** C1.  For a stored record whose file is present and a header
    [Range: bytes=a-b] with [0 <= a <= b < size], [GET /v/:id] answers 206
    with [Content-Range: bytes a-b/size] and [Content-Length: b-a+1], and
    the body is exactly the bytes at offsets [a] to [b] of the file. *)
Theorem range_request_served k id r content a b :
  Media.readData k !! id = Some r ->
  Media.files k !! path_join UPLOADS_DIR (Media.filename r) = Some content ->
  0 <= a <= b ->
  b < Z.of_nat (length content) ->
  exists resp,
    Range.get_v k id (Some (Range.bytes_range a b)) = Range.Served resp /\
    Range.status resp = 206 /\
    Range.headers resp !! "Content-Range" =
      Some (Range.content_range a b (Z.of_nat (length content))) /\
    Range.headers resp !! "Content-Length" =
      Some (Js.num_to_string (b - a + 1)) /\
    Z.of_nat (length (Range.body resp)) = b - a + 1 /\
    (forall i : nat, Z.of_nat i <= b - a ->
       Range.body resp !! i = content !! (Z.to_nat a + i)%nat).
Proof.
  intros Hr Hf Hab Hb.
  pose proof (files_size_safe _ _ _ Hf) as Hsize.
  eexists. split; [apply get_v_bytes_range; [done..|lia]|].
  destruct (partial_content_headers (Range.base_headers r)
              (Z.of_nat (length content)) a b
              (Range.read_span content a b)) as (Hst & Hcr & Hcl & Hbody);
    [done..|].
  rewrite Hbody. split_and!; [done|done|done| |].
  - by apply read_span_length.
  - intros i Hi. apply read_span_lookup; lia.
Qed.

(** C10, as the code has it.  For a non-empty file and a header
    [bytes=a-b] with [0 <= a <= b], [b >= size] and [b] not above
    [Number.MAX_SAFE_INTEGER], the handler neither rejects nor clamps: it
    answers 206 with [Content-Range: bytes a-b/size] and
    [Content-Length: b-a+1], which is more than the file holds from
    offset [a] on; the stream delivers what is left of the file. *)
Theorem range_end_past_eof_not_clamped k id r content a b :
  Media.readData k !! id = Some r ->
  Media.files k !! path_join UPLOADS_DIR (Media.filename r) = Some content ->
  0 < Z.of_nat (length content) ->
  0 <= a <= b ->
  Z.of_nat (length content) <= b ->
  b <= Js.MAX_SAFE_INTEGER ->
  exists resp,
    Range.get_v k id (Some (Range.bytes_range a b)) = Range.Served resp /\
    Range.status resp = 206 /\
    Range.headers resp !! "Content-Range" =
      Some (Range.content_range a b (Z.of_nat (length content))) /\
    Range.headers resp !! "Content-Length" =
      Some (Js.num_to_string (b - a + 1)) /\
    Range.body resp = drop (Z.to_nat a) content /\
    Z.of_nat (length (drop (Z.to_nat a) content)) < b - a + 1.
Proof.
  intros Hr Hf Hpos Hab Hb Hsafe.
  eexists. split; [by apply get_v_bytes_range|].
  destruct (partial_content_headers (Range.base_headers r)
              (Z.of_nat (length content)) a b
              (Range.read_span content a b)) as (Hst & Hcr & Hcl & Hbody);
    [done..|].
  rewrite Hbody. split_and!; [done|done|done| |].
  - unfold Range.read_span. apply take_ge. rewrite length_drop. lia.
  - rewrite length_drop. lia.
Qed.

(** A bound above [Number.MAX_SAFE_INTEGER] that is not rejected makes
    [fs.createReadStream] throw. *)
Lemma get_v_unsafe_end k id r content a b :
  Media.readData k !! id = Some r ->
  Media.files k !! path_join UPLOADS_DIR (Media.filename r) = Some content ->
  0 <= a <= Js.MAX_SAFE_INTEGER -> Js.MAX_SAFE_INTEGER < b -> b < 2 ^ 1023 ->
  Range.get_v k id (Some (Range.bytes_range a b)) = Range.Crashed.
Proof.
  intros Hr Hf Ha Hb Hfin. unfold Range.get_v.
  rewrite (get_own _ _ _ Hr), Hf.
  change (Js.truthy (Range.bytes_range a b)) with true. cbv iota zeta.
  unfold Range.range_start, Range.range_end, Range.start_text, Range.end_text.
  unfold Js.MAX_SAFE_INTEGER in *.
  rewrite range_parts_bytes by lia. cbn [lookup list_lookup].
  destruct (num_to_string_digits b) as (_ & Hne & _); [lia|].
  destruct (Js.num_to_string b) as [|c t] eqn:Hs; [done|].
  cbn [Js.truthy]. rewrite <- Hs. clear Hs Hne c t.
  rewrite parseInt_num_to_string by lia.
  unfold Js.parseInt. rewrite mathInt_num_to_string by lia.
  destruct (to_double_large b) as [Hinf | (m & Hm & Hbig)]; [lia| |].
  - exfalso. revert Hinf. unfold Js.to_double.
    rewrite Z.abs_eq by lia.
    destruct (2 ^ 1024 <=? Js.nearest_double b)%Z eqn:Hover; [|done].
    intros _. apply Z.leb_le in Hover. revert Hover.
    unfold Js.nearest_double.
    destruct (Z.log2 b - 52 <=? 0)%Z eqn:He.
    + assert (2 ^ 1023 < 2 ^ 1024) by (apply Z.pow_lt_mono_r; lia). lia.
    + apply Z.leb_gt in He. set (e := Z.log2 b - 52) in *.
      assert (0 < 2 ^ e) as Hpow by (apply Z.pow_pos_nonneg; lia).
      pose proof (round_even_bounds b (2 ^ e) Hpow) as [_ Hhi].
      assert (Z.log2 b < 1023) as Hlog by (apply Z.log2_lt_pow2; lia).
      assert (b / 2 ^ e < 2 ^ 53) as Hq.
      { apply Z.div_lt_upper_bound; [done|].
        rewrite <- Z.pow_add_r by lia.
        replace (e + 53) with (Z.succ (Z.log2 b)) by (unfold e; lia).
        apply Z.log2_spec. lia. }
      assert (2 ^ e * 2 ^ 53 <= 2 ^ 1023) as Hprod.
      { rewrite <- Z.pow_add_r by lia. apply Z.pow_le_mono_r; lia. }
      assert (2 ^ 1023 < 2 ^ 1024) by (apply Z.pow_lt_mono_r; lia).
      nia.
  - rewrite Hm. cbn [Js.isNaN Js.gt orb].
    destruct (a >? m)%Z eqn:Hgt; [lia|].
    unfold Range.createReadStream.
    rewrite safe_offset_int by (unfold Js.MAX_SAFE_INTEGER; lia).
    assert (Js.safe_offset (Js.Int m) = false) as ->; [|done].
    unfold Js.safe_offset, Js.MAX_SAFE_INTEGER.
    apply andb_false_iff. right. apply Z.leb_gt. lia.
Qed.


End RangeClaims.

Lemma range_request_served_witness :
  (Media.readData Sample.disk !! "v1" = Some Sample.clip /\
   Media.files Sample.disk !! "uploads/v1.mp4" = Some Sample.clip_bytes /\
   0 <= 1 <= 3 /\ 3 < 5) /\
  exists resp,
    @Range.get_v Sample.platform Sample.disk "v1" (Some "bytes=1-3")
      = Range.Served resp /\
    Range.status resp = 206 /\
    Range.headers resp !! "Content-Range" = Some "bytes 1-3/5" /\
    Range.headers resp !! "Content-Length" = Some "3" /\
    Z.of_nat (length (Range.body resp)) = 3 /\
    (forall i : nat, Z.of_nat i <= 2 ->
       Range.body resp !! i = Sample.clip_bytes !! (1 + i)%nat).
Proof.
  split.
  - split_and!; first [reflexivity | lia].
  - apply (@range_request_served Sample.platform Sample.disk "v1"
             Sample.clip Sample.clip_bytes 1 3);
      [reflexivity|reflexivity|lia|simpl; lia].
Defined.

Lemma range_end_past_eof_witness :
  (Media.readData Sample.disk !! "v1" = Some Sample.clip /\
   Media.files Sample.disk !! "uploads/v1.mp4" = Some Sample.clip_bytes /\
   0 < 5 /\ 0 <= 2 <= 9 /\ 5 <= 9 /\ 9 <= Js.MAX_SAFE_INTEGER) /\
  exists resp,
    @Range.get_v Sample.platform Sample.disk "v1" (Some "bytes=2-9")
      = Range.Served resp /\
    Range.status resp = 206 /\
    Range.headers resp !! "Content-Range" = Some "bytes 2-9/5" /\
    Range.headers resp !! "Content-Length" = Some "8" /\
    Range.body resp = [Byte.x12; Byte.x13; Byte.x14] /\
    3 < 8.
Proof.
  split.
  - split_and!; first [reflexivity | lia | (by vm_compute)].
  - apply (@range_end_past_eof_not_clamped Sample.platform Sample.disk "v1"
             Sample.clip Sample.clip_bytes 2 9);
      [reflexivity|reflexivity|simpl; lia|lia|simpl; lia|by vm_compute].
Defined.

(** C10 as stated fails.  The five-byte file and the header
    [bytes=0-9007199254740993] satisfy its conditions, and the request is
    not answered 206: the end bound reads as [2 ^ 53], which
    [fs.createReadStream] refuses, and the exception leaves the handler. *)
Lemma range_end_unsafe_crashes :
  (Media.readData Sample.disk !! "v1" = Some Sample.clip /\
   Media.files Sample.disk !! "uploads/v1.mp4" = Some Sample.clip_bytes /\
   0 < 5 /\ 0 <= 0 <= 9007199254740993 /\ 5 <= 9007199254740993) /\
  Range.range_end 5 (Range.bytes_range 0 9007199254740993) =
    Js.Int 9007199254740992 /\
  @Range.get_v Sample.platform Sample.disk "v1"
    (Some (Range.bytes_range 0 9007199254740993)) = Range.Crashed /\
  ~ exists resp,
      @Range.get_v Sample.platform Sample.disk "v1"
        (Some (Range.bytes_range 0 9007199254740993)) = Range.Served resp.
Proof.
  assert (@Range.get_v Sample.platform Sample.disk "v1"
            (Some (Range.bytes_range 0 9007199254740993)) = Range.Crashed)
    as Hcrash by (vm_compute; reflexivity).
  split_and!; [reflexivity|reflexivity|lia|lia|lia|lia|
               vm_compute; reflexivity|exact Hcrash|].
  intros [resp Hresp]. rewrite Hcrash in Hresp. discriminate.
Qed.



(** Non-numeric bounds and an inverted range on the five-byte file. *)
Example range_letters_416 :
  @Range.get_v Sample.platform Sample.disk "v1" (Some "bytes=abc-def") =
  Range.Served (Range.range_not_satisfiable
                  (@Range.base_headers Sample.platform Sample.clip) 5).
Proof. reflexivity. Qed.

(** A header without a dash has no end bound at all. *)
Example range_no_dash_416 :
  @Range.get_v Sample.platform Sample.disk "v1" (Some "bytes=abc") =
  Range.Served (Range.range_not_satisfiable
                  (@Range.base_headers Sample.platform Sample.clip) 5).
Proof. reflexivity. Qed.

Example range_inverted_416 :
  @Range.get_v Sample.platform Sample.disk "v1" (Some "bytes=4-2") =
  Range.Served (Range.range_not_satisfiable
                  (@Range.base_headers Sample.platform Sample.clip) 5).
Proof. reflexivity. Qed.

Example range_suffix_form_416 :
  @Range.get_v Sample.platform Sample.disk "v1" (Some "bytes=-2") =
  Range.Served (Range.range_not_satisfiable
                  (@Range.base_headers Sample.platform Sample.clip) 5).
Proof. reflexivity. Qed.

(** Two bounds above [2 ^ 53] that read as the same double are not
    rejected as inverted, and the request crashes. *)
Example range_rounded_bounds_crash :
  @Range.get_v Sample.platform Sample.disk "v1"
    (Some "bytes=9007199254740993-9007199254740992") = Range.Crashed.
Proof. vm_compute. reflexivity. Qed.

(** An identifier that names a property of [Object.prototype] passes the
    test of [d[id]] and crashes the handler. *)
Example get_v_inherited_name :
  @Range.get_v Sample.platform Sample.disk "constructor" None =
  Range.Crashed.
Proof. reflexivity. Qed.

(** ** The disk *)

Section DiskFacts.

Lemma files_writeData d k :
  Media.files (Media.writeData d k) = Media.files k.
Proof. reflexivity. Qed.

Lemma files_unlink p k :
  Media.files (Media.unlink_quiet p k) = delete p (Media.files k).
Proof. unfold Media.files, Media.unlink_quiet. simpl. apply fmap_delete. Qed.

Lemma readData_unlink p k :
  Media.readData (Media.unlink_quiet p k) = Media.readData k.
Proof. reflexivity. Qed.

Lemma files_encoder_output path content st :
  Media.files (Hub.disk (Upload.encoder_output path content st)) =
  <[path := Media.bytes content]> (Media.files (Hub.disk st)).
Proof. unfold Media.files, Upload.encoder_output. simpl. apply fmap_insert. Qed.

Lemma move_file_moves from to k content :
  Media.files k !! from = Some content ->
  exists k1,
    Upload.move_file from to k = Some k1 /\
    Media.data_file k1 = Media.data_file k /\
    Media.files k1 = <[to := content]> (delete from (Media.files k)).
Proof.
  unfold Media.files, Upload.move_file. rewrite lookup_fmap.
  destruct (Media.stored k !! from) as [f|]; [|done].
  intros [= <-]. eexists. split; [done|]. split; [done|]. simpl.
  by rewrite fmap_insert, fmap_delete.
Qed.

Lemma move_file_missing from to k :
  Media.files k !! from = None -> Upload.move_file from to k = None.
Proof.
  unfold Media.files, Upload.move_file. rewrite lookup_fmap.
  by destruct (Media.stored k !! from).
Qed.

End DiskFacts.

(** ** The hub leaves everything but the wire alone *)

Section HubFrame.

Lemma broadcast_to_frame msg st ws :
  Hub.transcodeJobs (Hub.broadcast_to msg st ws) = Hub.transcodeJobs st /\
  Hub.subscribers (Hub.broadcast_to msg st ws) = Hub.subscribers st /\
  Hub.sockets (Hub.broadcast_to msg st ws) = Hub.sockets st /\
  Hub.disk (Hub.broadcast_to msg st ws) = Hub.disk st.
Proof.
  unfold Hub.broadcast_to, Hub.ws_send.
  destruct (Hub.is_open st ws); [|done].
  destruct (Hub.sockets st !! ws) as [sk|]; [|done].
  by destruct (Hub.send_throws sk).
Qed.

Lemma broadcast_loop_frame msg set st :
  Hub.transcodeJobs (foldl (Hub.broadcast_to msg) st set) = Hub.transcodeJobs st /\
  Hub.subscribers (foldl (Hub.broadcast_to msg) st set) = Hub.subscribers st /\
  Hub.sockets (foldl (Hub.broadcast_to msg) st set) = Hub.sockets st /\
  Hub.disk (foldl (Hub.broadcast_to msg) st set) = Hub.disk st.
Proof.
  revert st. induction set as [|ws set IH]; intros st; simpl.
  - done.
  - destruct (IH (Hub.broadcast_to msg st ws)) as (-> & -> & -> & ->).
    apply broadcast_to_frame.
Qed.

Lemma broadcastStatus_jobs id st :
  Hub.transcodeJobs (Hub.broadcastStatus id st) = Hub.transcodeJobs st.
Proof.
  unfold Hub.broadcastStatus. destruct (Hub.subscribers st !! id); [|done].
  apply broadcast_loop_frame.
Qed.

Lemma broadcastStatus_subscribers id st :
  Hub.subscribers (Hub.broadcastStatus id st) = Hub.subscribers st.
Proof.
  unfold Hub.broadcastStatus. destruct (Hub.subscribers st !! id); [|done].
  apply broadcast_loop_frame.
Qed.

Lemma broadcastStatus_sockets id st :
  Hub.sockets (Hub.broadcastStatus id st) = Hub.sockets st.
Proof.
  unfold Hub.broadcastStatus. destruct (Hub.subscribers st !! id); [|done].
  apply broadcast_loop_frame.
Qed.

Lemma broadcastStatus_disk id st :
  Hub.disk (Hub.broadcastStatus id st) = Hub.disk st.
Proof.
  unfold Hub.broadcastStatus. destruct (Hub.subscribers st !! id); [|done].
  apply broadcast_loop_frame.
Qed.

Lemma update_job_lookup id f st j :
  Hub.transcodeJobs st !! id = Some j ->
  Hub.transcodeJobs (Hub.update_job id f st) !! id = Some (f j).
Proof. intros Hj. simpl. by rewrite lookup_alter_eq, Hj. Qed.

Lemma update_job_lookup_ne id id' f st :
  id <> id' ->
  Hub.transcodeJobs (Hub.update_job id f st) !! id' =
  Hub.transcodeJobs st !! id'.
Proof. intros Hne. simpl. by rewrite lookup_alter_ne. Qed.

End HubFrame.

(** ** Progress estimation *)

Section Rounding.

Lemma Qfloor_unique (m : Z) (x : Q) :
  (inject_Z m <= x)%Q -> (x < inject_Z (m + 1))%Q -> Qfloor x = m.
Proof.
  intros Hlo Hhi.
  pose proof (Qfloor_le x) as Hfl. pose proof (Qlt_floor x) as Hfu.
  assert (inject_Z m < inject_Z (Qfloor x + 1))%Q as H1
    by (eapply Qle_lt_trans; eauto).
  assert (inject_Z (Qfloor x) < inject_Z (m + 1))%Q as H2
    by (eapply Qle_lt_trans; eauto).
  rewrite <- Zlt_Qlt in H1, H2. lia.
Qed.

(** Rounding commutes with subtracting an integer. *)
Lemma Math_round_minus_Z (x : Q) (n : Z) :
  Js.Math_round (x - inject_Z n)%Q = Js.Math_round x - n.
Proof.
  unfold Js.Math_round. apply Qfloor_unique.
  - pose proof (Qfloor_le (x + (1 # 2))) as Hfl.
    unfold Z.sub. rewrite inject_Z_plus, inject_Z_opp. lra.
  - pose proof (Qlt_floor (x + (1 # 2))) as Hfu.
    replace (Qfloor (x + (1 # 2)) - n + 1) with (Qfloor (x + (1 # 2)) + 1 + - n)
      by lia.
    rewrite (inject_Z_plus _ (- n)), inject_Z_opp. lra.
Qed.

Lemma Math_round_Z (n : Z) : Js.Math_round (inject_Z n) = n.
Proof.
  unfold Js.Math_round. apply Qfloor_unique.
  - lra.
  - rewrite inject_Z_plus. change (inject_Z 1) with 1%Q. lra.
Qed.

Lemma Math_round_le (x y : Q) :
  (x <= y)%Q -> Js.Math_round x <= Js.Math_round y.
Proof. intros Hxy. unfold Js.Math_round. apply Qfloor_resp_le. lra. Qed.

Lemma Math_round_Qeq (x y : Q) :
  (x == y)%Q -> Js.Math_round x = Js.Math_round y.
Proof. intros Hxy. unfold Js.Math_round. by rewrite Hxy. Qed.

Lemma percent_bounds outSize inputSize :
  0 <= outSize -> 0 < inputSize ->
  0 <= Transcode.percent outSize inputSize <= 100.
Proof.
  intros Hout Hin. unfold Transcode.percent. split; [|lia].
  apply Z.min_glb; [lia|].
  rewrite <- (Math_round_Z 0). apply Math_round_le.
  change (inject_Z 0) with 0%Q.
  unfold Js.fmul, Js.fdiv. apply fl_nonneg.
  apply Qmult_le_0_compat; [|lra].
  apply fl_nonneg. apply Qle_shift_div_l.
  - change 0%Q with (inject_Z 0). rewrite <- Zlt_Qlt. lia.
  - rewrite Qmult_0_l. change 0%Q with (inject_Z 0). rewrite <- Zle_Qle. lia.
Qed.

End Rounding.

Section ProgressClaims.

Lemma output_size_nonneg c st : 0 <= Transcode.output_size c st.
Proof.
  unfold Transcode.output_size, Media.stat_size.
  destruct (Media.files (Hub.disk st) !! Transcode.outputPath c); lia.
Qed.

Lemma elapsed_seconds_nonneg c now : 0 <= Transcode.elapsed_seconds c now.
Proof. unfold Transcode.elapsed_seconds. lia. Qed.

(** What a firing of the poll timer stores for a job that exists, with a
    known input size above zero. *)
Lemma on_poll_job c now st j :
  0 < Transcode.inputSize c ->
  Js.truthy (Transcode.jobId c) = true ->
  Hub.transcodeJobs st !! Transcode.jobId c = Some j ->
  let pct :=
    Transcode.percent (Transcode.output_size c st) (Transcode.inputSize c) in
  let e := Transcode.elapsed_seconds c now in
  Hub.transcodeJobs (Transcode.on_poll c now st) !! Transcode.jobId c =
  Some (Jobs.set_eta (Transcode.poll_eta pct e)
          (Jobs.set_elapsed e (Jobs.set_progress pct j))).
Proof.
  intros Hin Hid Hj pct e. unfold Transcode.on_poll.
  destruct (Transcode.inputSize c =? 0)%Z eqn:Hz; [lia|].
  assert (Transcode.job_present c st = true) as ->.
  { unfold Transcode.job_present. by rewrite Hid, Hj. }
  rewrite broadcastStatus_jobs.
  do 3 eapply update_job_lookup. exact Hj.
Qed.

End ProgressClaims.

(** C6 fails on the code.  The poll computes
    [Math.round((outSize / inputSize) * 100)] in doubles, and the
    quotient is rounded before it is multiplied.  With 23 of 40 bytes
    written the quotient is the double below 0.575, the product is
    57.49999999999999 and the stored progress is 57, where
    [round(100 * 23 / 40)] is 58; ten seconds into the job the stored eta
    is 8 seconds, where the formula of the claim gives 7. *)
Theorem poll_rounds_quotient_first :
  let c := Sample.short_remux in
  let st := Sample.part_written in
  Transcode.inputSize c = 40 /\
  Transcode.output_size c st = 23 /\
  Transcode.elapsed_seconds c 11000 = 10 /\
  (exists j',
     Hub.transcodeJobs (Transcode.on_poll c 11000 st) !! "v2" = Some j' /\
     Jobs.progress j' = 57 /\
     Jobs.elapsed j' = Some 10 /\
     Jobs.eta j' = Jobs.EtaSeconds 8) /\
  Transcode.spec_percent 23 40 = 58 /\
  Transcode.spec_eta 58 10 = Jobs.EtaSeconds 7.
Proof.
  split_and!; try (vm_compute; reflexivity).
  eexists. split; [vm_compute; reflexivity|]. by split_and!.
Qed.

(** ** The status broadcast hub *)

Section HubClaims.

Lemma set_add_elem ws set : ws ∈ Hub.set_add ws set.
Proof.
  unfold Hub.set_add. destruct (decide (ws ∈ set)); [done|].
  apply elem_of_app. right. by apply list_elem_of_singleton.
Qed.

Lemma set_delete_elem ws x set :
  x ∈ Hub.set_delete ws set <-> x ∈ set /\ x <> ws.
Proof. unfold Hub.set_delete. rewrite list_elem_of_filter. tauto. Qed.

Lemma ws_send_wire ws msg st :
  exists st',
    (Hub.ws_send ws msg st = Hub.Returned st' \/
     Hub.ws_send ws msg st = Hub.Thrown st') /\
    st' = Hub.with_wire (Hub.wire st ++ [(ws, msg)]) st.
Proof.
  unfold Hub.ws_send. eexists. split; [|reflexivity].
  destruct (Hub.sockets st !! ws) as [sk|]; [|by right].
  destruct (Hub.send_throws sk); [by right|by left].
Qed.

Lemma subscribe_result ws id st :
  exists st2,
    (Hub.subscribe ws id st = Hub.Returned st2 \/
     Hub.subscribe ws id st = Hub.Thrown st2) /\
    Hub.subscribers st2 =
      <[id := Hub.set_add ws (default [] (Hub.subscribers st !! id))]>
        (Hub.subscribers st) /\
    Hub.wire st2 =
      (Hub.wire st ++
       [(ws, {| Hub.msg_id := id;
                Hub.msg_job := Hub.transcode_status id st |})])%list /\
    Hub.transcodeJobs st2 = Hub.transcodeJobs st.
Proof.
  unfold Hub.subscribe.
  match goal with
  | |- context [Hub.ws_send ?w ?m ?s] =>
      destruct (ws_send_wire w m s) as (st1 & Hs & Hst1)
  end.
  exists st1. split; [exact Hs|]. subst st1. simpl.
  split_and!; [|done..]. by destruct (Hub.subscribers st !! id).
Qed.

(** X27.  A [subscribe] message for an identifier adds the connection to
    the subscriber set of that identifier, once and after the members
    that are there, and touches no other set; then it sends that
    connection exactly one status message, which carries what
    [transcodeJobs[id]] gives at that moment: the job when the
    identifier has one, and [{ status: 'none' }] when it has none and is
    not the name of a property of [Object.prototype]. *)
Theorem subscribe_sends_current_state ws id st :
  id <> EmptyString ->
  let st' := Hub.on_message ws
               (Some {| Hub.type := "subscribe"; Hub.id := id |}) st in
  let before := default [] (Hub.subscribers st !! id) in
  Hub.subscribers st' !! id =
    Some (if decide (ws ∈ before) then before else (before ++ [ws])%list) /\
  (forall id', id <> id' ->
     Hub.subscribers st' !! id' = Hub.subscribers st !! id') /\
  Hub.wire st' =
    (Hub.wire st ++
     [(ws, {| Hub.msg_id := id;
              Hub.msg_job := Hub.transcode_status id st |})])%list /\
  Hub.transcodeJobs st' = Hub.transcodeJobs st /\
  (forall j, Hub.transcodeJobs st !! id = Some j ->
     Hub.transcode_status id st = Js.Own j) /\
  (Hub.transcodeJobs st !! id = None -> Js.inherited id = false ->
     Hub.transcode_status id st = Js.Missing).
Proof.
  intros Hid st' before. subst st'. unfold Hub.on_message.
  cbn [Hub.type Hub.id].
  assert (Js.truthy id = true) as -> by by destruct id.
  change (String.eqb "subscribe" "subscribe") with true.
  change (String.eqb "subscribe" "unsubscribe") with false.
  cbn [andb].
  destruct (subscribe_result ws id st)
    as (st2 & [Hs|Hs] & Hsub & Hwire & Hjobs); rewrite Hs.
  all: rewrite Hsub, Hwire, Hjobs; split_and!;
    [by rewrite lookup_insert_eq
    |by intros id' Hne; rewrite lookup_insert_ne
    |done|done
    |by intros j Hj; apply get_own
    |by intros Hnone Hplain; unfold Hub.transcode_status;
        rewrite get_none, Hplain].
Qed.

(** A subscriber that joins after the job is done still gets that state. *)
Example subscribe_after_done :
  let st := Hub.with_jobs {[ "v1" := Sample.finished ]} Sample.idle in
  Hub.wire (Hub.on_message 7%nat (Sample.subscribe_to "v1")
              (Hub.on_connection 7%nat false st)) =
  [(7%nat, {| Hub.msg_id := "v1"; Hub.msg_job := Js.Own Sample.finished |})].
Proof. reflexivity. Qed.

(** C4 fails on the code.  [transcodeJobs] is a plain object, and
    [transcodeJobs[data.id] || { status: 'none' }] finds the function
    [Object] under the name [constructor]: a connection that subscribes
    to ["constructor"], for which there is no job, is sent a message
    that carries that value in place of [{ status: 'none' }]. *)
Theorem subscribe_to_inherited_name :
  let st := Hub.on_connection 4%nat false Sample.hub in
  let st' := Hub.on_message 4%nat (Sample.subscribe_to "constructor") st in
  Hub.transcodeJobs st !! "constructor" = None /\
  Hub.wire st' =
    [(4%nat, {| Hub.msg_id := "constructor";
                Hub.msg_job := Js.Inherited |})] /\
  Hub.msg_job {| Hub.msg_id := "constructor"; Hub.msg_job := Js.Inherited |}
    <> Js.Missing.
Proof. split_and!; [reflexivity|reflexivity|discriminate]. Qed.

(** The messages one run of the loop of [broadcastStatus] adds to the
    wire: one for each member whose connection is open, in the order of
    the set, whatever the sends do. *)
Lemma broadcast_loop_wire msg set st0 st :
  Hub.sockets st = Hub.sockets st0 ->
  Hub.wire (foldl (Hub.broadcast_to msg) st set) =
  (Hub.wire st ++
   map (fun ws => (ws, msg))
     (filter (fun ws => Hub.is_open st0 ws = true) set))%list.
Proof.
  revert st. induction set as [|ws set IH]; intros st Hsk; simpl.
  - by rewrite app_nil_r.
  - rewrite IH
      by (by destruct (broadcast_to_frame msg st ws) as (_ & _ & -> & _)).
    assert (Hub.is_open st ws = Hub.is_open st0 ws) as Hopen
      by (unfold Hub.is_open; by rewrite Hsk).
    rewrite filter_cons. unfold Hub.broadcast_to at 1. rewrite Hopen.
    destruct (Hub.is_open st0 ws) eqn:Hws.
    + rewrite decide_True by done.
      destruct (ws_send_wire ws msg st) as (st1 & [Hs|Hs] & ->);
        rewrite Hs; simpl; by rewrite <- app_assoc.
    + by rewrite decide_False by done.
Qed.

(** C8, as the code has it.  [broadcastStatus(id)] sends the job as it is
    at that moment, once, to every member of the subscriber set whose
    connection is open, and to no one else; a send that throws is
    swallowed and the members after it are still sent the message. *)
Theorem broadcast_reaches_open_members id st set :
  Hub.subscribers st !! id = Some set ->
  Hub.wire (Hub.broadcastStatus id st) =
  (Hub.wire st ++
   map (fun ws => (ws, {| Hub.msg_id := id;
                          Hub.msg_job := Hub.transcode_status id st |}))
       (filter (fun ws => Hub.is_open st ws = true) set))%list.
Proof.
  intros Hset. unfold Hub.broadcastStatus. rewrite Hset.
  by apply broadcast_loop_wire.
Qed.

End HubClaims.

Lemma subscribe_sends_current_state_witness :
  "v1" <> EmptyString /\
  let st := Hub.on_connection 4%nat false Sample.hub in
  let st' := Hub.on_message 4%nat (Sample.subscribe_to "v1") st in
  Hub.subscribers st' !! "v1" = Some [1; 2; 3; 4]%nat /\
  Hub.wire st' =
    [(4%nat, {| Hub.msg_id := "v1";
                Hub.msg_job := Js.Own Sample.remuxing |})] /\
  Hub.transcodeJobs st' = Hub.transcodeJobs Sample.hub.
Proof.
  split; [discriminate|].
  destruct (subscribe_sends_current_state 4%nat "v1"
              (Hub.on_connection 4%nat false Sample.hub))
    as (Hset & _ & Hwire & Hjobs & _); [discriminate|].
  split_and!; [exact Hset|exact Hwire|exact Hjobs].
Defined.

Lemma broadcast_reaches_open_members_witness :
  Hub.subscribers Sample.hub !! "v1" = Some [1; 2; 3]%nat /\
  Hub.wire (Hub.broadcastStatus "v1" Sample.hub) =
  [(2%nat, {| Hub.msg_id := "v1"; Hub.msg_job := Js.Own Sample.remuxing |});
   (3%nat, {| Hub.msg_id := "v1"; Hub.msg_job := Js.Own Sample.remuxing |})].
Proof.
  split; [reflexivity|].
  apply (broadcast_reaches_open_members "v1" Sample.hub [1; 2; 3]%nat).
  reflexivity.
Defined.

(** C8 as stated fails: connection 1 is a member of the subscriber set of
    ["v1"], and [broadcastStatus("v1")] sends it nothing, because its
    [readyState] is not [OPEN]. *)
Lemma broadcast_skips_member_not_open :
  Hub.subscribers Sample.hub !! "v1" = Some [1; 2; 3]%nat /\
  1%nat ∈ [1; 2; 3]%nat /\
  forall msg, (1%nat, msg) ∉ Hub.wire (Hub.broadcastStatus "v1" Sample.hub).
Proof.
  split_and!; [reflexivity|set_solver|].
  intros msg Hin. vm_compute in Hin.
  apply elem_of_cons in Hin as [Heq|Hin]; [discriminate|].
  apply elem_of_cons in Hin as [Heq|Hin]; [discriminate|].
  by apply not_elem_of_nil in Hin.
Qed.

(** What the close handler does remove: the connection leaves the set of
    the identifier it subscribed to last. *)
Lemma close_removes_last_subscription ws st sk id :
  Hub.sockets st !! ws = Some sk ->
  Hub._subscribedId sk = Some id -> id <> EmptyString ->
  ~ Hub.subscribed (Hub.on_close ws st) ws id.
Proof.
  intros Hsk Hid Hne [set [Hset Hin]]. unfold Hub.on_close in Hset.
  rewrite Hsk, Hid in Hset.
  assert (Js.truthy id = true) as Ht by by destruct id.
  rewrite Ht in Hset. unfold Hub.unsubscribe in Hset.
  destruct (Hub.subscribers st !! id) as [set0|] eqn:Hs0.
  - simpl in Hset. rewrite lookup_insert_eq in Hset.
    injection Hset as <-. apply set_delete_elem in Hin. by destruct Hin.
  - congruence.
Qed.

Lemma on_message_subscribe ws id st :
  id <> EmptyString ->
  let st' := Hub.on_message ws
               (Some {| Hub.type := "subscribe"; Hub.id := id |}) st in
  Hub.subscribers st' =
    <[id := Hub.set_add ws (default [] (Hub.subscribers st !! id))]>
      (Hub.subscribers st) /\
  Hub.sockets st' =
    alter (fun sk => {| Hub.readyState := Hub.readyState sk;
                        Hub.send_throws := Hub.send_throws sk;
                        Hub._subscribedId := Some id |}) ws (Hub.sockets st).
Proof.
  intros Hid st'. subst st'. unfold Hub.on_message. simpl.
  assert (Js.truthy id = true) as -> by by destruct id.
  simpl. unfold Hub.subscribe.
  match goal with
  | |- context [Hub.ws_send ?w ?m ?s] =>
      destruct (ws_send_wire w m s) as (st1 & [Hs|Hs] & Hst1); rewrite Hs
  end.
  all: subst st1; simpl; by destruct (Hub.subscribers st !! id).
Qed.

(** The same for any server state and any two different identifiers: a
    connection that subscribes to [a], then to [b], and closes, is still
    in the subscriber set of [a]. *)
Lemma close_keeps_earlier_subscription ws sk a b st :
  Hub.sockets st !! ws = Some sk ->
  a <> EmptyString -> b <> EmptyString -> a <> b ->
  Hub.subscribed
    (Hub.on_close ws
       (Hub.on_message ws (Some {| Hub.type := "subscribe"; Hub.id := b |})
          (Hub.on_message ws (Some {| Hub.type := "subscribe"; Hub.id := a |})
             st)))
    ws a.
Proof.
  intros Hsk Ha Hb Hab.
  set (st1 := Hub.on_message ws _ st).
  set (st2 := Hub.on_message ws _ st1).
  destruct (on_message_subscribe ws a st Ha) as [Hsub1 Hsock1].
  destruct (on_message_subscribe ws b st1 Hb) as [Hsub2 Hsock2].
  fold st1 in Hsub1, Hsock1. fold st2 in Hsub2, Hsock2.
  assert (Hub.subscribers st2 !! a =
          Some (Hub.set_add ws (default [] (Hub.subscribers st !! a)))) as Hseta.
  { rewrite Hsub2, lookup_insert_ne by done.
    by rewrite Hsub1, lookup_insert_eq. }
  unfold Hub.on_close. rewrite Hsock2, Hsock1, !lookup_alter_eq, Hsk. simpl.
  assert (Js.truthy b = true) as -> by by destruct b.
  unfold Hub.unsubscribe.
  destruct (Hub.subscribers st2 !! b) as [setb|].
  - eexists. split; [|apply set_add_elem].
    cbn [Hub.subscribers Hub.with_subscribers].
    rewrite lookup_insert_ne by done. exact Hseta.
  - eexists. split; [exact Hseta|apply set_add_elem].
Qed.

(** C7 fails on the code.  The close handler only knows [_subscribedId],
    the identifier of the last subscription: a connection that subscribed
    to ["a"] and then to ["b"] is, after it closes, gone from the set of
    ["b"] and still a member of the set of ["a"]. *)
Theorem close_leaves_earlier_subscription :
  let before := Sample.two_subscriptions in
  let after := Hub.on_close 5%nat before in
  Hub.subscribed before 5%nat "a" /\
  Hub.subscribed before 5%nat "b" /\
  Hub.subscribed after 5%nat "a" /\
  ~ Hub.subscribed after 5%nat "b".
Proof.
  simpl. split_and!.
  - exists [5%nat]. split; [reflexivity|set_solver].
  - exists [5%nat]. split; [reflexivity|set_solver].
  - exists [5%nat]. split; [reflexivity|set_solver].
  - intros [set [Hset Hin]]. vm_compute in Hset.
    injection Hset as <-. by apply not_elem_of_nil in Hin.
Qed.

(** ** Job creation and the metadata update *)

Section UploadClaims.
Context `{Platform}.

Lemma task_prologue_job id st j :
  Hub.transcodeJobs st !! id = Some j ->
  Hub.transcodeJobs (Upload.task_prologue id st) !! id =
  Some (Jobs.set_message "remux/re-encode (simple)"
          (Jobs.set_message "starting" (Jobs.set_status Jobs.Running j))).
Proof.
  intros Hj. unfold Upload.task_prologue.
  rewrite broadcastStatus_jobs. apply update_job_lookup.
  rewrite broadcastStatus_jobs. by do 2 apply update_job_lookup.
Qed.

Lemma task_prologue_other id id' st :
  id <> id' ->
  Hub.transcodeJobs (Upload.task_prologue id st) !! id' =
  Hub.transcodeJobs st !! id'.
Proof.
  intros Hne. unfold Upload.task_prologue.
  rewrite broadcastStatus_jobs, update_job_lookup_ne by done.
  rewrite broadcastStatus_jobs. by rewrite !update_job_lookup_ne by done.
Qed.

Lemma update_metadata_success cv k r content :
  Media.readData k !! Upload.id cv = Some r ->
  Media.files k !! Upload.convertedPath cv = Some content ->
  Upload.finalPath cv <> Upload.convertedPath cv ->
  Upload.update_metadata cv k =
  Upload.Completed
    (Media.writeData
       (<[Upload.id cv :=
            Upload.converted_record cv (Z.of_nat (length content)) r]>
          (Media.readData k))
       (Media.unlink_quiet (Upload.finalPath cv) k)).
Proof.
  intros Hr Hf Hne. unfold Upload.update_metadata.
  change (Media.readData (Media.unlink_quiet (Upload.finalPath cv) k))
    with (Media.readData k).
  rewrite Hr. unfold Media.stat_size.
  by rewrite files_unlink, lookup_delete_ne, Hf by done.
Qed.

(** X11.  The update is all or nothing: whatever is on the disk, [data.json]
    afterwards is what it was, or what it was with the whole converted
    record in place of the old one. *)
Lemma update_metadata_all_or_nothing cv k :
  let k' := match Upload.update_metadata cv k with
            | Upload.Completed k' => k'
            | Upload.Threw k' _ => k'
            end in
  Media.data_file k' = Media.data_file k \/
  exists r sz,
    Media.readData k !! Upload.id cv = Some r /\
    Media.data_file k' =
    Some (<[Upload.id cv := Upload.converted_record cv sz r]> (Media.readData k)).
Proof.
  unfold Upload.update_metadata.
  change (Media.readData (Media.unlink_quiet (Upload.finalPath cv) k))
    with (Media.readData k).
  destruct (Media.readData k !! Upload.id cv) as [r|] eqn:Hr; [|by left].
  destruct (Media.stat_size _ _) as [sz|]; [|by left].
  right. by exists r, sz.
Qed.

(** X28.  When the transcode of an existing record completes and the
    converted file is there, in either revision of the task, [data.json]
    is rewritten once, to the mapping it held with the record of the
    identifier replaced by one that has the new [filename], [mime],
    [size] and [converted] and the old [id], [originalName] and
    [createdAt]; every other record is as before.  When the encoder
    reports an error, in either revision, the disk is not touched: the
    record and its file are as before and [GET /v/:id] answers as
    before. *)
Theorem transcode_metadata_update cv st r :
  Media.readData (Hub.disk st) !! Upload.id cv = Some r ->
  (forall content st',
     Media.files (Hub.disk st) !! Upload.convertedPath cv = Some content ->
     Upload.finalPath cv <> Upload.convertedPath cv ->
     st' = Upload.after_success cv st \/ st' = MainJs.after_success cv st ->
     let r' :=
       {| Media.id := Media.id r;
          Media.filename := Upload.convertedName cv;
          Media.originalName := Media.originalName r;
          Media.mime := match mime_lookup (Upload.convertedPath cv) with
                        | Some t => t
                        | None => Media.mime r
                        end;
          Media.size := Z.of_nat (length content);
          Media.createdAt := Media.createdAt r;
          Media.converted := true |} in
     Media.data_file (Hub.disk st') =
       Some (<[Upload.id cv := r']> (Media.readData (Hub.disk st))) /\
     Media.readData (Hub.disk st') !! Upload.id cv = Some r' /\
     forall id', Upload.id cv <> id' ->
       Media.readData (Hub.disk st') !! id' =
       Media.readData (Hub.disk st) !! id') /\
  (forall msg st',
     st' = Upload.after_failure cv msg st \/
     st' = MainJs.after_failure cv msg st ->
     Hub.disk st' = Hub.disk st /\
     Media.readData (Hub.disk st') !! Upload.id cv = Some r /\
     forall range,
       Range.get_v (Hub.disk st') (Upload.id cv) range =
       Range.get_v (Hub.disk st) (Upload.id cv) range).
Proof.
  intros Hr. split.
  - intros content st' Hf Hne Hst' r'.
    assert (Hub.disk st' =
            Media.writeData (<[Upload.id cv := r']> (Media.readData (Hub.disk st)))
              (Media.unlink_quiet (Upload.finalPath cv) (Hub.disk st))) as ->.
    { destruct Hst' as [-> | ->];
        unfold Upload.after_success, MainJs.after_success;
        rewrite (update_metadata_success cv _ r content Hr Hf Hne).
      - by rewrite broadcastStatus_disk.
      - done. }
    simpl. split_and!; [done|apply lookup_insert_eq|].
    intros id' Hid'. by apply lookup_insert_ne.
  - intros msg st' Hst'.
    assert (Hub.disk st' = Hub.disk st) as ->.
    { destruct Hst' as [-> | ->];
        unfold Upload.after_failure, MainJs.after_failure;
        [by rewrite broadcastStatus_disk|done]. }
    done.
Qed.

End UploadClaims.

Lemma transcode_metadata_update_witness :
  let st := Hub.with_disk Sample.disk_after_encoding Sample.hub in
  let cv := Sample.movie_conversion in
  Media.readData (Hub.disk st) !! "v2" = Some Sample.movie /\
  (Media.files (Hub.disk st) !! "uploads/v2.mp4" =
     Some [Byte.x05; Byte.x06; Byte.x07] /\
   "uploads/v2.avi" <> "uploads/v2.mp4") /\
  Media.readData (Hub.disk (@Upload.after_success Sample.platform cv st)) !! "v2" =
    Some {| Media.id := "v2";
            Media.filename := "v2.mp4";
            Media.originalName := "holiday.avi";
            Media.mime := "video/mp4";
            Media.size := 3;
            Media.createdAt := 1700000000002;
            Media.converted := true |} /\
  Hub.disk (Upload.after_failure cv "ffmpeg exited with code 1" st) =
    Hub.disk st.
Proof.
  intros st cv.
  assert (Media.readData (Hub.disk st) !! Upload.id cv = Some Sample.movie)
    as Hr by reflexivity.
  assert (Media.files (Hub.disk st) !! Upload.convertedPath cv =
          Some [Byte.x05; Byte.x06; Byte.x07]) as Hf by reflexivity.
  assert (Upload.finalPath cv <> Upload.convertedPath cv) as Hne
    by discriminate.
  destruct (@transcode_metadata_update Sample.platform cv st Sample.movie Hr)
    as [Hok Hfail].
  split; [reflexivity|].
  split; [split; [reflexivity|discriminate]|].
  split.
  - exact (proj1 (proj2 (Hok _ _ Hf Hne (or_introl eq_refl)))).
  - exact (proj1 (Hfail "ffmpeg exited with code 1" _ (or_introl eq_refl))).
Defined.

(** C9 fails on the code.  The task unlinks the uploaded file before it
    has looked at the converted one.  When the encoder ends and
    [fs.statSync] then finds no converted file, the update throws: the
    job ends in [error], the record is not modified and still names
    [v2.avi], and that file is gone, so [GET /v/:id], which served it
    before, sends the fallback page.  The same in both revisions. *)
Theorem failed_update_deletes_original :
  let cv := Sample.movie_conversion in
  let st := Sample.unlucky in
  let ended :=
    from_option Upload.app st
      (last (Upload.trace (@Upload.step Sample.platform cv
                             (@Upload.start_task Sample.platform cv 1000 st).1)
               [Upload.FfStart 1100; Upload.FfEnd 2500; Upload.Resume]
               (@Upload.start_task Sample.platform cv 1000 st).2)) in
  let ended_main :=
    from_option Upload.app st
      (last (Upload.trace (@MainJs.step Sample.platform cv)
               [MainJs.FfStart; MainJs.FfEnd; MainJs.Resume]
               (MainJs.start_task cv st))) in
  (exists resp,
     @Range.get_v Sample.platform (Hub.disk st) "v2" None =
       Range.Served resp /\
     Range.status resp = 200 /\
     Range.body resp = [Byte.x01; Byte.x02; Byte.x03; Byte.x04]) /\
  forall st', st' = ended \/ st' = ended_main ->
    Upload.status_in "v2" st' = Some Jobs.Error /\
    Media.readData (Hub.disk st') !! "v2" = Some Sample.movie /\
    Media.filename Sample.movie = "v2.avi" /\
    Media.files (Hub.disk st') !! "uploads/v2.avi" = None /\
    @Range.get_v Sample.platform (Hub.disk st') "v2" None =
      Range.InvalidEmbed.
Proof.
  split.
  - eexists. split; [vm_compute; reflexivity|]. by split.
  - intros st' [-> | ->]; split_and!; vm_compute; reflexivity.
Qed.

(** ** The status of a job over the life of its task *)

Section StatusOrder.

Lemma advances_refl s : Jobs.advances s s.
Proof. by destruct s. Qed.

Lemma advances_trans s1 s2 s3 :
  Jobs.advances s1 s2 -> Jobs.advances s2 s3 -> Jobs.advances s1 s3.
Proof. by destruct s1, s2, s3. Qed.

Lemma follows_refl o : Jobs.follows o o.
Proof. destruct o; [apply advances_refl|done]. Qed.

Lemma follows_trans o1 o2 o3 :
  Jobs.follows o1 o2 -> Jobs.follows o2 o3 -> Jobs.follows o1 o3.
Proof.
  destruct o1 as [s1|], o2 as [s2|], o3 as [s3|]; simpl; try done.
  apply advances_trans.
Qed.

(** Nothing but itself follows a terminal status. *)
Lemma follows_terminal s o :
  Jobs.terminal s = true -> Jobs.follows (Some s) o -> o = Some s.
Proof. destruct s, o as [[]|]; simpl; try done. Qed.

Lemma chain_join (l r : list (option Jobs.Status)) x :
  StronglySorted Jobs.follows (l ++ [x]) ->
  StronglySorted Jobs.follows (x :: r) ->
  StronglySorted Jobs.follows (l ++ x :: r).
Proof.
  intros [Hlx [Hl _]]%StronglySorted_app Hr.
  apply StronglySorted_app. split_and!; [|done|done].
  intros a b Ha Hb.
  assert (Jobs.follows a x) as Hax by (apply Hlx; [done|constructor]).
  destruct (proj1 (elem_of_cons _ _ _) Hb) as [->|Hb']; [done|].
  apply StronglySorted_cons in Hr as [Hxr _].
  rewrite Forall_forall in Hxr. eapply follows_trans; eauto.
Qed.

Lemma chain_merge (l r : list (option Jobs.Status)) x :
  StronglySorted Jobs.follows (l ++ [x]) ->
  StronglySorted Jobs.follows (x :: r) ->
  StronglySorted Jobs.follows (l ++ r).
Proof.
  intros [Hlx [Hl _]]%StronglySorted_app [Hxr Hr]%StronglySorted_cons.
  apply StronglySorted_app. split_and!; [|done|done].
  intros a b Ha Hb. rewrite Forall_forall in Hxr.
  apply (follows_trans _ x); [apply Hlx; [done|constructor]|by apply Hxr].
Qed.

Lemma chain_lookup (l : list (option Jobs.Status)) (i j : nat) x y :
  StronglySorted Jobs.follows l -> (i < j)%nat ->
  l !! i = Some x -> l !! j = Some y -> Jobs.follows x y.
Proof.
  intros Hl. revert i j. induction Hl as [|a l Hl IH Ha]; intros i j Hij Hi Hj.
  - done.
  - destruct j as [|j]; [lia|]. simpl in Hj. destruct i as [|i]; simpl in Hi.
    + injection Hi as <-. rewrite Forall_forall in Ha.
      apply Ha. by eapply list_elem_of_lookup_2.
    + apply (IH i j); [lia|done|done].
Qed.

Lemma chain_constant o (l : list (option Jobs.Status)) :
  Forall (fun x => x = o) l -> StronglySorted Jobs.follows l.
Proof.
  induction 1 as [|x l -> Hl IH]; constructor; [done|].
  eapply Forall_impl; [exact Hl|]. intros y ->. apply follows_refl.
Qed.

Lemma status_in_jobs id st :
  Upload.status_in id st = Jobs.status <$> Hub.transcodeJobs st !! id.
Proof.
  unfold Upload.status_in, Hub.transcode_status. by rewrite own_get.
Qed.

Lemma statuses_sent_app id w1 w2 :
  Upload.statuses_sent id (w1 ++ w2) =
  (Upload.statuses_sent id w1 ++ Upload.statuses_sent id w2)%list.
Proof. apply omap_app. Qed.

Lemma evolves_refl id st : Upload.evolves id st st.
Proof.
  exists []. split; [by rewrite app_nil_r|]. simpl.
  repeat constructor. apply follows_refl.
Qed.

Lemma evolves_trans id st1 st2 st3 :
  Upload.evolves id st1 st2 -> Upload.evolves id st2 st3 ->
  Upload.evolves id st1 st3.
Proof.
  intros (w1 & Hw1 & H1) (w2 & Hw2 & H2). exists (w1 ++ w2)%list. split.
  - by rewrite Hw2, Hw1, app_assoc.
  - rewrite statuses_sent_app, <- app_assoc.
    apply (chain_merge (_ :: _) _ (Upload.status_in id st2));
      [exact H1|exact H2].
Qed.

(** A state that differs only in its disk, or in job properties other
    than the status. *)
Lemma evolves_same id st st' :
  Hub.wire st' = Hub.wire st ->
  Upload.status_in id st' = Upload.status_in id st ->
  Upload.evolves id st st'.
Proof.
  intros Hw Hs. exists []. split; [by rewrite app_nil_r|]. simpl.
  rewrite Hs. repeat constructor. apply follows_refl.
Qed.

Lemma status_in_update_job id id' f st :
  (forall j, Jobs.status (f j) = Jobs.status j) ->
  Upload.status_in id (Hub.update_job id' f st) = Upload.status_in id st.
Proof.
  intros Hf. rewrite !status_in_jobs. simpl.
  destruct (decide (id' = id)) as [->|Hne].
  - rewrite lookup_alter_eq. destruct (Hub.transcodeJobs st !! id); simpl;
      [by rewrite Hf|done].
  - by rewrite lookup_alter_ne.
Qed.

Lemma evolves_update_job id id' f st :
  (forall j, Jobs.status (f j) = Jobs.status j) ->
  Upload.evolves id st (Hub.update_job id' f st).
Proof.
  intros Hf. apply evolves_same; [done|by apply status_in_update_job].
Qed.

Lemma evolves_set_status id st s s' :
  Upload.status_in id st = Some s -> Jobs.advances s s' ->
  Upload.evolves id st (Hub.update_job id (Jobs.set_status s') st).
Proof.
  intros Hs Hadv. exists []. split; [by rewrite app_nil_r|]. simpl.
  assert (Upload.status_in id (Hub.update_job id (Jobs.set_status s') st)
          = Some s') as ->.
  { rewrite status_in_jobs in *. simpl.
    rewrite lookup_alter_eq.
    by destruct (Hub.transcodeJobs st !! id). }
  rewrite Hs. repeat constructor. done.
Qed.

Lemma evolves_broadcast id st :
  Upload.evolves id st (Hub.broadcastStatus id st).
Proof.
  unfold Hub.broadcastStatus.
  destruct (Hub.subscribers st !! id) as [set|] eqn:Hset;
    [|apply evolves_refl].
  eexists. split; [by apply broadcast_loop_wire|].
  assert (forall l : list Hub.Conn,
    Upload.statuses_sent id
      (map (fun ws => (ws, {| Hub.msg_id := id;
                              Hub.msg_job := Js.get (Hub.transcodeJobs st) id |})) l)
    = replicate (length l) (Upload.status_in id st)) as ->.
  { induction l as [|x l IH]; simpl; [done|].
    by rewrite String.eqb_refl, IH, own_get, status_in_jobs. }
  pose proof (broadcast_loop_frame
    {| Hub.msg_id := id; Hub.msg_job := Js.get (Hub.transcodeJobs st) id |} set st)
    as (Hj & _).
  assert (Upload.status_in id
            (foldl (Hub.broadcast_to
                      {| Hub.msg_id := id;
                         Hub.msg_job := Js.get (Hub.transcodeJobs st) id |}) st set)
          = Upload.status_in id st) as ->.
  { rewrite !status_in_jobs. by rewrite Hj. }
  apply (chain_constant (Upload.status_in id st)).
  constructor; [done|]. apply Forall_app. split; [|by repeat constructor].
  apply Forall_forall. by intros x ->%elem_of_replicate_inv.
Qed.

End StatusOrder.

Section TaskMonotone.
Context `{Platform}.

Lemma status_in_broadcast id id' st :
  Upload.status_in id (Hub.broadcastStatus id' st) = Upload.status_in id st.
Proof.
  rewrite !status_in_jobs. by rewrite broadcastStatus_jobs.
Qed.

(** Chains the steps of a handler, last operation first. *)
Ltac evolve :=
  repeat first
    [ apply evolves_refl
    | eapply evolves_trans;
        [|first [ apply evolves_broadcast
                | apply evolves_update_job; by intros [] ]] ].

Ltac same_status :=
  repeat first
    [ rewrite status_in_broadcast
    | rewrite status_in_update_job by (by intros []) ];
  try reflexivity.

Lemma on_start_evolves c now st :
  Upload.evolves (Transcode.jobId c) st (Transcode.on_start c now st) /\
  Upload.status_in (Transcode.jobId c) (Transcode.on_start c now st) =
  Upload.status_in (Transcode.jobId c) st.
Proof.
  unfold Transcode.on_start.
  destruct (Transcode.job_present c st); split; evolve; same_status.
Qed.

Lemma on_poll_evolves c now st :
  Upload.evolves (Transcode.jobId c) st (Transcode.on_poll c now st) /\
  Upload.status_in (Transcode.jobId c) (Transcode.on_poll c now st) =
  Upload.status_in (Transcode.jobId c) st.
Proof.
  unfold Transcode.on_poll.
  destruct (Transcode.inputSize c =? 0)%Z; [split; evolve; same_status|].
  destruct (Transcode.job_present c st); split; evolve; same_status.
Qed.

Lemma on_progress_evolves c tm st :
  Upload.evolves (Transcode.jobId c) st (Transcode.on_progress c tm st) /\
  Upload.status_in (Transcode.jobId c) (Transcode.on_progress c tm st) =
  Upload.status_in (Transcode.jobId c) st.
Proof.
  unfold Transcode.on_progress.
  destruct tm as [tm|]; [|split; evolve; same_status].
  destruct (Transcode.job_present c st && Js.truthy tm);
    split; evolve; same_status.
Qed.

Lemma on_end_evolves c now st :
  Upload.evolves (Transcode.jobId c) st (Transcode.on_end c now st) /\
  Upload.status_in (Transcode.jobId c) (Transcode.on_end c now st) =
  Upload.status_in (Transcode.jobId c) st.
Proof.
  unfold Transcode.on_end.
  destruct (Transcode.job_present c st); split; evolve; same_status.
Qed.

Lemma after_failure_evolves cv msg st :
  Upload.status_in (Upload.id cv) st = Some Jobs.Running ->
  Upload.evolves (Upload.id cv) st (Upload.after_failure cv msg st).
Proof.
  intros Hs. unfold Upload.after_failure. evolve.
  by eapply evolves_set_status.
Qed.

Lemma after_success_evolves cv st :
  Upload.status_in (Upload.id cv) st = Some Jobs.Running ->
  Upload.evolves (Upload.id cv) st (Upload.after_success cv st).
Proof.
  intros Hs. unfold Upload.after_success.
  destruct (Upload.update_metadata cv (Hub.disk st)) as [k|k msg]; evolve.
  all: eapply evolves_trans;
    [apply (evolves_same _ st (Hub.with_disk k st)); done|].
  all: by eapply evolves_set_status.
Qed.

Lemma step_evolves cv c ev t :
  Transcode.jobId c = Upload.id cv ->
  Upload.awaiting cv t ->
  Upload.evolves (Upload.id cv) (Upload.app t) (Upload.app (Upload.step cv c ev t)) /\
  Upload.awaiting cv (Upload.step cv c ev t).
Proof.
  intros Hid Hinv. unfold Upload.awaiting in *.
  destruct ev as [content|now|now|tm|msg|now|]; simpl.
  - split; [by apply evolves_same|done].
  - destruct (on_start_evolves c now (Upload.app t)) as [He Hs].
    rewrite Hid in He, Hs. split; [done|]. simpl. intros Hr. by rewrite Hs, Hinv.
  - destruct (Upload.polling t); [|split; [apply evolves_refl|done]].
    destruct (on_poll_evolves c now (Upload.app t)) as [He Hs].
    rewrite Hid in He, Hs. split; [done|]. simpl. intros Hr. by rewrite Hs, Hinv.
  - destruct (on_progress_evolves c tm (Upload.app t)) as [He Hs].
    rewrite Hid in He, Hs. split; [done|]. simpl. intros Hr. by rewrite Hs, Hinv.
  - split; [apply evolves_refl|done].
  - destruct (on_end_evolves c now (Upload.app t)) as [He Hs].
    rewrite Hid in He, Hs. split; [done|]. simpl. intros Hr. by rewrite Hs, Hinv.
  - destruct (Upload.resumed t) eqn:Hr; [split; [apply evolves_refl|congruence]|].
    pose proof (Hinv eq_refl) as Hrun.
    destruct (Upload.promise t) as [| |msg]; simpl.
    + split; [apply evolves_refl|by rewrite Hr].
    + split; [by apply after_success_evolves|done].
    + split; [by apply after_failure_evolves|done].
Qed.

Lemma trace_linked cv c evs t prev :
  Transcode.jobId c = Upload.id cv ->
  Upload.awaiting cv t ->
  Upload.evolves (Upload.id cv) prev (Upload.app t) ->
  Upload.linked (Upload.id cv) prev
    (map Upload.app (Upload.trace (Upload.step cv c) evs t)).
Proof.
  intros Hid. revert t prev.
  induction evs as [|ev evs IH]; intros t prev Hinv Hprev; simpl; [done|].
  split; [done|].
  destruct (step_evolves cv c ev t Hid Hinv) as [He Hinv'].
  by apply IH.
Qed.

Lemma observations_chain id rest prev :
  Upload.linked id prev rest ->
  StronglySorted Jobs.follows
    (Upload.status_in id prev :: Upload.observations id prev rest).
Proof.
  revert prev. induction rest as [|st rest IH]; intros prev; simpl.
  - intros _. repeat constructor.
  - intros [(sent & Hw & Hc) Hl]. rewrite Hw, drop_app_length.
    apply (chain_join (_ :: _)); [exact Hc|by apply IH].
Qed.

Lemma start_task_evolves cv now st :
  Hub.transcodeJobs st !! Upload.id cv = None ->
  let '(c, t) := Upload.start_task cv now st in
  Transcode.jobId c = Upload.id cv /\
  Upload.awaiting cv t /\
  Upload.evolves (Upload.id cv) st (Upload.app t).
Proof.
  intros Hnone. simpl. split; [done|].
  assert (Upload.status_in (Upload.id cv) st = None) as Hs0.
  { rewrite status_in_jobs. by rewrite Hnone. }
  set (st1 := Upload.create_job (Upload.id cv) st).
  assert (Hub.transcodeJobs st1 !! Upload.id cv = Some Jobs.fresh) as Hj1.
  { unfold st1, Upload.create_job. rewrite Hnone. simpl.
    apply lookup_insert_eq. }
  split.
  - intros _. unfold Upload.awaiting. rewrite status_in_jobs. simpl.
    by rewrite (task_prologue_job _ _ _ Hj1).
  - apply (evolves_trans _ _ st1).
    + exists []. split.
      * unfold st1, Upload.create_job. rewrite Hnone. simpl.
        by rewrite app_nil_r.
      * simpl. rewrite Hs0. repeat constructor.
    + unfold Upload.task_prologue. evolve.
      apply (evolves_set_status _ _ Jobs.Queued); [|exact I].
      rewrite status_in_jobs. by rewrite Hj1.
Qed.

(** X13.  The task of the WebSocket revision keeps the order of the state
    machine.  For a fresh identifier and any sequence of encoder events,
    timer firings and resumptions, what an observer can read, by polling
    [GET /transcode-status/:id] between events or from the messages
    broadcast, is in the order [none], [queued], [running], then [done]
    or [error]: for any two observations the later one follows the
    earlier one. *)
Theorem task_status_monotone cv now st evs :
  Hub.transcodeJobs st !! Upload.id cv = None ->
  let '(c, t) := Upload.start_task cv now st in
  StronglySorted Jobs.follows
    (Upload.status_in (Upload.id cv) st ::
     Upload.observations (Upload.id cv) st
       (map Upload.app (Upload.trace (Upload.step cv c) evs t))).
Proof.
  intros Hnone.
  pose proof (start_task_evolves cv now st Hnone) as Hstart.
  destruct (Upload.start_task cv now st) as [c t].
  destruct Hstart as (Hid & Hinv & He).
  apply observations_chain. by apply trace_linked.
Qed.

(** X21.  In particular, once an observation shows [done] or [error],
    every later observation shows the same. *)
Corollary task_terminal_status_stays cv now st evs (i j : nat) s o :
  Hub.transcodeJobs st !! Upload.id cv = None ->
  let '(c, t) := Upload.start_task cv now st in
  let seen :=
    Upload.status_in (Upload.id cv) st ::
    Upload.observations (Upload.id cv) st
      (map Upload.app (Upload.trace (Upload.step cv c) evs t)) in
  (i < j)%nat -> seen !! i = Some (Some s) -> seen !! j = Some o ->
  Jobs.terminal s = true -> o = Some s.
Proof.
  intros Hnone.
  pose proof (start_task_evolves cv now st Hnone) as Hstart.
  destruct (Upload.start_task cv now st) as [c t].
  destruct Hstart as (Hid & Hinv & He).
  intros seen Hij Hi Hj Hterm. eapply follows_terminal; [done|].
  eapply (chain_lookup seen i j); [|done..].
  apply observations_chain. by apply trace_linked.
Qed.

End TaskMonotone.

(** A run of the WebSocket revision with one subscriber: the messages of
    the prologue, of ['start'], of one poll, of ['end'] and of the
    resumed task, and the status a poll reads after each event. *)
Example remux_run_observed :
  let '(c, t) :=
    @Upload.start_task Sample.platform Sample.movie_conversion 1000
      Sample.watched in
  Upload.observations "v2" Sample.watched
    (map Upload.app
       (Upload.trace (@Upload.step Sample.platform Sample.movie_conversion c)
          [Upload.FfStart 1100; Upload.PollTick 1900; Upload.FfEnd 2500;
           Upload.Resume] t)) =
  [Some Jobs.Running; Some Jobs.Running; Some Jobs.Running;
   Some Jobs.Running; Some Jobs.Running;
   Some Jobs.Running; Some Jobs.Running;
   Some Jobs.Running; Some Jobs.Running;
   Some Jobs.Done; Some Jobs.Done].
Proof. vm_compute. reflexivity. Qed.

(** C2 fails on [main.js].  There the ['end'] handler sets the status to
    [done] before the task is resumed; when the metadata update that
    follows throws (here [fs.statSync] finds no converted file), the
    [catch] block sets the status to [error].  The status of ["v2"] after
    the start of the task and after ['start'], ['end'] and the
    resumption is [running], [running], [done], [error]. *)
Theorem main_js_done_then_error :
  let cv := Sample.movie_conversion in
  let t0 := MainJs.start_task cv Sample.unlucky in
  map (fun t => Upload.status_in "v2" (Upload.app t))
    (Upload.trace (@MainJs.step Sample.platform cv)
       [MainJs.FfStart; MainJs.FfEnd; MainJs.Resume] t0) =
  [Some Jobs.Running; Some Jobs.Running; Some Jobs.Done; Some Jobs.Error] /\
  ~ Jobs.advances Jobs.Done Jobs.Error.
Proof. split; [vm_compute; reflexivity|intros Hadv; exact Hadv]. Qed.

(** The scenario of the specification in the WebSocket revision: an
    [.avi] upload is answered with [converted: false] while its job is
    running; once the encoder has written its file and ended and the
    task has been resumed, the job is [done] at 100 percent, the record
    names the [.mp4] file with its size, and [GET /v/:id] streams it. *)
Example upload_avi_scenario :
  match @Upload.post_upload Sample.platform "v2" 1000 1001
          (Some Sample.holiday) Sample.incoming with
  | Upload.Accepted info (Some (c, t)) st =>
      Media.converted info = false /\
      Media.filename info = "v2.avi" /\
      Upload.status_in "v2" st = Some Jobs.Running /\
      match last (Upload.trace
                    (@Upload.step Sample.platform
                       (@Upload.conversion Sample.platform "v2" "v2.avi") c)
                    [Upload.FfStart 1100;
                     Upload.EncoderWrote Sample.converted_file;
                     Upload.PollTick 1900; Upload.FfEnd 2500; Upload.Resume]
                    t) with
      | Some t' =>
          let st' := Upload.app t' in
          Upload.status_in "v2" st' = Some Jobs.Done /\
          Jobs.progress <$> Js.own (Hub.transcode_status "v2" st') =
            Some 100 /\
          Media.readData (Hub.disk st') !! "v2" =
            Some {| Media.id := "v2"; Media.filename := "v2.mp4";
                    Media.originalName := "holiday.avi";
                    Media.mime := "video/mp4"; Media.size := 3;
                    Media.createdAt := 1001; Media.converted := true |} /\
          match @Range.get_v Sample.platform (Hub.disk st') "v2" None with
          | Range.Served r =>
              Range.status r = 200 /\
              Range.headers r !! "Content-Type" = Some "video/mp4" /\
              Range.headers r !! "Content-Length" = Some "3" /\
              Range.body r = [Byte.x05; Byte.x06; Byte.x07]
          | Range.InvalidEmbed | Range.Crashed => False
          end
      | None => False
      end
  | _ => False
  end.
Proof. vm_compute. repeat split; reflexivity. Qed.

(** An end bound that starts with a minus sign leaves an empty second
    piece, which counts as omitted. *)
Example range_negative_end_omitted :
  Range.end_text "bytes=2--1" = Some EmptyString /\
  Range.range_end 5 "bytes=2--1" = Js.Int 4.
Proof. split; reflexivity. Qed.

(** * Further properties of the routes *)

(** ** [GET /v/:id] beyond the claims *)

Section RangeMore.
Context `{Platform}.

(** X1.  A request without a [Range] header, or with an empty one, for a
    record whose file is present is answered 200 with the whole file,
    [Content-Length] its size, and [Accept-Ranges: bytes]. *)
Theorem whole_file_without_range k id r content range :
  Media.readData k !! id = Some r ->
  Media.files k !! path_join UPLOADS_DIR (Media.filename r) = Some content ->
  range = None \/ range = Some EmptyString ->
  exists resp,
    Range.get_v k id range = Range.Served resp /\
    Range.status resp = 200 /\
    Range.headers resp !! "Content-Length" =
      Some (Js.num_to_string (Z.of_nat (length content))) /\
    Range.headers resp !! "Accept-Ranges" = Some "bytes" /\
    Range.headers resp !! "Content-Range" = None /\
    Range.body resp = content.
Proof.
  intros Hr Hf Hrange. unfold Range.get_v.
  rewrite (get_own _ _ _ Hr), Hf.
  exists (Range.whole_file (Range.base_headers r) content
            (Z.of_nat (length content))).
  split; [by destruct Hrange as [-> | ->]|].
  simpl. unfold Range.base_headers.
  split_and!; try done;
    by rewrite ?lookup_insert_ne, ?lookup_insert_eq by done.
Qed.

(** X2.  The handler sends the fallback page exactly when [data.json]
    has no record for the identifier and the identifier is not the name
    of a property every object inherits, or the file the record names is
    not on disk; the [Range] header plays no part in that.  For an
    identifier without a record that is such a name ([constructor],
    [toString], ...) the lookup [d[id]] finds the inherited value, and
    the handler ends in an exception. *)
Theorem fallback_iff_record_or_file_missing k id range :
  (Range.get_v k id range = Range.InvalidEmbed <->
   (Media.readData k !! id = None /\ Js.inherited id = false) \/
   exists r, Media.readData k !! id = Some r /\
             Media.files k !! path_join UPLOADS_DIR (Media.filename r) = None)
  /\
  (Range.get_v k id range = Range.Crashed <->
   (Media.readData k !! id = None /\ Js.inherited id = true) \/
   exists r content rg,
     Media.readData k !! id = Some r /\
     Media.files k !! path_join UPLOADS_DIR (Media.filename r) = Some content /\
     range = Some rg /\ rg <> EmptyString /\
     let start := Range.range_start rg in
     let end_ := Range.range_end (Z.of_nat (length content)) rg in
     Js.isNaN start = false /\ Js.isNaN end_ = false /\
     Js.gt start end_ = false /\
     Range.createReadStream content start end_ = None).
Proof.
  unfold Range.get_v, Js.get.
  destruct (Media.readData k !! id) as [r|] eqn:Hr.
  - destruct (Media.files k !! path_join UPLOADS_DIR (Media.filename r))
      as [content|] eqn:Hf.
    + split.
      * split.
        -- intros Hget. exfalso. revert Hget. by repeat case_match.
        -- intros [[Hnone _]|(r' & Hr' & Hf')]; [done|]. congruence.
      * split.
        -- intros Hget. right. exists r, content.
           destruct range as [rg|]; [|done].
           destruct rg as [|c0 rg0]; [done|]. exists (String c0 rg0).
           simpl Js.truthy in Hget. cbv iota zeta in Hget.
           destruct (Js.isNaN _ || Js.isNaN _ || Js.gt _ _) eqn:Hbad;
             [done|].
           apply orb_false_iff in Hbad as [Hbad Hgt].
           apply orb_false_iff in Hbad as [Hs He].
           destruct (Range.createReadStream _ _ _) eqn:Hread; [done|].
           by split_and!.
        -- intros [[Hnone _]|(r' & content' & rg & Hr' & Hf' & -> & Hne
                              & Hs & He & Hgt & Hread)]; [done|].
           assert (r' = r) as -> by congruence.
           assert (content' = content) as -> by congruence.
           destruct rg as [|c0 rg0]; [done|]. simpl Js.truthy. cbv iota zeta.
           by rewrite Hs, He, Hgt, Hread.
    + split.
      * split; [|done]. intros _. right. by exists r.
      * split; [done|]. intros [[Hnone _]|(r' & content' & rg & Hr' & Hf' & _)];
          [done|]. congruence.
  - destruct (Js.inherited id) eqn:Hin.
    + split.
      * split; [done|]. by intros [[_ ?]|(r' & ? & _)].
      * split; [by left|done].
    + split.
      * split; [by left|done].
      * split; [done|]. by intros [[_ ?]|(r' & ? & ? & ? & _)].
Qed.

(** X3.  A request with a non-empty [Range] header for a record whose
    file is present has one of three outcomes, [start] and [end] being
    the numbers the handler reads from the header.  When one of them is
    [NaN] or [start > end]: 416 with [Content-Range: bytes */size] and
    no body.  Otherwise, when [start] is an integer [s] from 0 to
    [Number.MAX_SAFE_INTEGER] and [end] is such an integer or
    [Infinity]: 206 with [Content-Range: bytes start-end/size],
    [Content-Length: end-start+1], and as body the bytes of the file
    from [s] to [end], cut at the end of the file, so never a byte that
    is not in the file.  Otherwise [fs.createReadStream] throws, and the
    request ends in an exception. *)
Theorem ranged_request_outcomes k id r content range :
  Media.readData k !! id = Some r ->
  Media.files k !! path_join UPLOADS_DIR (Media.filename r) = Some content ->
  range <> EmptyString ->
  let size := Z.of_nat (length content) in
  let start := Range.range_start range in
  let end_ := Range.range_end size range in
  ((Js.isNaN start = true \/ Js.isNaN end_ = true \/ Js.gt start end_ = true)
   /\
   exists resp,
     Range.get_v k id (Some range) = Range.Served resp /\
     Range.status resp = 416 /\
     Range.headers resp !! "Content-Range" =
       Some (Range.content_range_unsatisfied size) /\
     Range.body resp = []) \/
  (exists s resp,
     start = Js.Int s /\ 0 <= s <= Js.MAX_SAFE_INTEGER /\
     Range.get_v k id (Some range) = Range.Served resp /\
     Range.status resp = 206 /\
     Range.headers resp !! "Content-Range" =
       Some ("bytes " +:+ Js.num_to_string s +:+ "-" +:+
             Js.number_text end_ +:+ "/" +:+ Js.num_to_string size) /\
     ((exists e,
         end_ = Js.Int e /\ s <= e <= Js.MAX_SAFE_INTEGER /\
         Range.headers resp !! "Content-Length" =
           Some (Js.num_to_string (e - s + 1)) /\
         Range.body resp =
           take (Z.to_nat (e - s + 1)) (drop (Z.to_nat s) content)) \/
      (end_ = Js.Infinity /\
       Range.headers resp !! "Content-Length" = Some "Infinity" /\
       Range.body resp = drop (Z.to_nat s) content)) /\
     forall i b, Range.body resp !! i = Some b ->
                 content !! (Z.to_nat s + i)%nat = Some b) \/
  (Range.get_v k id (Some range) = Range.Crashed /\
   Js.isNaN start = false /\ Js.isNaN end_ = false /\
   Js.gt start end_ = false /\
   (Js.safe_offset start = false \/
    (end_ <> Js.Infinity /\ Js.safe_offset end_ = false))).
Proof.
  intros Hr Hf Hne size start end_. unfold Range.get_v.
  rewrite (get_own _ _ _ Hr), Hf.
  destruct range as [|c0 rg0]; [done|]. simpl Js.truthy. cbv iota zeta.
  fold size. fold start. fold end_.
  destruct (Js.isNaN start || Js.isNaN end_ || Js.gt start end_) eqn:Hbad.
  { left. split.
    - apply orb_true_iff in Hbad as [Hbad|Hbad]; [|by right; right].
      apply orb_true_iff in Hbad as [Hbad|Hbad]; [by left|by right; left].
    - eexists. split; [done|].
      split_and!; [done|apply lookup_insert_eq|done]. }
  apply orb_false_iff in Hbad as [Hbad Hgt].
  apply orb_false_iff in Hbad as [Hs He].
  right.
  destruct (Range.createReadStream content start end_) as [bytes|] eqn:Hread.
  - left. unfold Range.createReadStream in Hread.
    destruct start as [|s| |] eqn:Estart; try done.
    destruct (Js.safe_offset (Js.Int s)) eqn:Hsafe; [|done].
    simpl in Hsafe. apply andb_true_iff in Hsafe as [Hs0 Hs1].
    apply Z.leb_le in Hs0, Hs1.
    exists s. eexists. split; [done|]. split; [done|]. split; [done|].
    split; [done|].
    split; [simpl; by rewrite lookup_insert_ne, lookup_insert_eq|].
    destruct end_ as [|e| |] eqn:Eend; try done.
    + destruct (Js.safe_offset (Js.Int e) && negb (s >? e)) eqn:Hok; [|done].
      injection Hread as <-.
      apply andb_true_iff in Hok as [Hsafe Hle]. simpl in Hsafe.
      apply andb_true_iff in Hsafe as [He0 He1]. apply Z.leb_le in He0, He1.
      apply negb_true_iff in Hle. rewrite Z.gtb_ltb in Hle.
      apply Z.ltb_ge in Hle.
      split.
      * left. exists e. split; [done|]. split; [done|].
        split; [simpl; by rewrite lookup_insert_eq|done].
      * intros i b Hb. simpl in Hb. unfold Range.read_span in Hb.
        apply lookup_take_Some in Hb as [Hb _]. by rewrite lookup_drop in Hb.
    + injection Hread as <-. split.
      * right. split; [done|]. split; [simpl; by rewrite lookup_insert_eq|done].
      * intros i b Hb. simpl in Hb. by rewrite lookup_drop in Hb.
  - right. split; [done|]. split; [done|]. split; [done|]. split; [done|].
    unfold Range.createReadStream in Hread.
    destruct start as [|s| |]; try by left.
    destruct (Js.safe_offset (Js.Int s)) eqn:Hsafe; [|by left].
    right. destruct end_ as [|e| |]; try done.
    simpl in Hgt. split; [done|].
    destruct (Js.safe_offset (Js.Int e)) eqn:Hse; [|done].
    by rewrite Hgt in Hread.
Qed.

Lemma range_parts_open a :
  0 <= a ->
  Range.range_parts ("bytes=" +:+ Js.num_to_string a +:+ "-") =
  [Js.num_to_string a; EmptyString].
Proof.
  intros Ha. unfold Range.range_parts.
  destruct (num_to_string_digits a Ha) as (Hda & _ & _).
  rewrite (replace_first_prefix "bytes=").
  change "-" with (String "-" EmptyString).
  by rewrite split_app_sep by by apply digits_only_free_of.
Qed.

(** The number read from a numeral at or past [n], for [n] a safe
    integer or one more, is above every integer below [n]. *)
Lemma gt_to_double_past a n m :
  0 <= n <= 2 ^ 53 -> n <= a -> m < n ->
  Js.isNaN (Js.to_double a) = false /\
  Js.gt (Js.to_double a) (Js.Int m) = true.
Proof.
  intros Hn Ha Hm.
  destruct (Z_le_gt_dec a (2 ^ 53)) as [Hsmall|Hlarge].
  - rewrite to_double_exact by lia. split; [done|]. simpl. lia.
  - destruct (to_double_large a) as [-> | (m' & -> & Hm')]; [lia|done|].
    split; [done|]. simpl. lia.
Qed.

(** X4.  An open-ended header [bytes=a-] with [0 <= a]: when [a] lies
    inside the file the answer is 206 for the rest of the file from [a],
    with [Content-Range: bytes a-(size-1)/size] and
    [Content-Length: size-a]; when [a] is at or past the end of the file
    (an empty file included) the answer is 416. *)
Theorem open_ended_range k id r content a :
  Media.readData k !! id = Some r ->
  Media.files k !! path_join UPLOADS_DIR (Media.filename r) = Some content ->
  0 <= a ->
  let size := Z.of_nat (length content) in
  exists resp,
    Range.get_v k id (Some ("bytes=" +:+ Js.num_to_string a +:+ "-"))
      = Range.Served resp /\
    (a < size ->
       Range.status resp = 206 /\
       Range.headers resp !! "Content-Range" =
         Some (Range.content_range a (size - 1) size) /\
       Range.headers resp !! "Content-Length" =
         Some (Js.num_to_string (size - a)) /\
       Range.body resp = drop (Z.to_nat a) content) /\
    (size <= a ->
       Range.status resp = 416 /\
       Range.headers resp !! "Content-Range" =
         Some (Range.content_range_unsatisfied size) /\
       Range.body resp = []).
Proof.
  intros Hr Hf Ha size. unfold Range.get_v.
  pose proof (files_size_safe _ _ _ Hf) as Hsafe.
  unfold Js.MAX_SAFE_INTEGER in Hsafe. fold size in Hsafe.
  rewrite (get_own _ _ _ Hr), Hf.
  change (Js.truthy ("bytes=" +:+ Js.num_to_string a +:+ "-")) with true.
  cbv iota zeta. fold size.
  assert (Range.range_start ("bytes=" +:+ Js.num_to_string a +:+ "-") =
          Js.to_double a) as ->.
  { unfold Range.range_start, Range.start_text.
    rewrite range_parts_open by done. simpl.
    unfold Js.parseInt. by rewrite mathInt_num_to_string. }
  assert (Range.range_end size
            ("bytes=" +:+ Js.num_to_string a +:+ "-") = Js.Int (size - 1))
    as ->.
  { unfold Range.range_end, Range.end_text.
    by rewrite range_parts_open by done. }
  destruct (Z_lt_ge_dec a size) as [Hin|Hout].
  - rewrite to_double_exact by lia.
    assert (Js.gt (Js.Int a) (Js.Int (size - 1)) = false) as ->
      by (simpl; lia).
    simpl orb. cbv iota.
    unfold Range.createReadStream.
    rewrite !safe_offset_int by (unfold Js.MAX_SAFE_INTEGER; lia).
    assert ((a >? size - 1) = false) as -> by lia.
    simpl andb. cbv iota.
    eexists. split; [done|]. split; [|lia]. intros _.
    simpl. split_and!.
    + done.
    + by rewrite lookup_insert_ne, lookup_insert_eq.
    + rewrite lookup_insert_eq. do 2 f_equal. lia.
    + unfold Range.read_span. apply take_ge. rewrite length_drop. lia.
  - destruct (gt_to_double_past a size (size - 1)) as [-> ->]; [lia..|].
    simpl orb. cbv iota.
    eexists. split; [done|]. split; [lia|]. intros _.
    split_and!; [done|apply lookup_insert_eq|done].
Qed.

(** X5.  Whatever the request, a response the handler builds is for a
    record of [data.json] whose file is on disk, advertises
    [Accept-Ranges: bytes], and has the [Content-Type] chosen for the
    record.  (What follows a read error of the stream is not part of
    the embedding.) *)
Theorem served_headers k id range resp :
  Range.get_v k id range = Range.Served resp ->
  Range.headers resp !! "Accept-Ranges" = Some "bytes" /\
  exists r content,
    Media.readData k !! id = Some r /\
    Media.files k !! path_join UPLOADS_DIR (Media.filename r) = Some content /\
    Range.headers resp !! "Content-Type" = Some (Range.content_type r).
Proof.
  unfold Range.get_v, Js.get.
  destruct (Media.readData k !! id) as [r|] eqn:Hr;
    [|by destruct (Js.inherited id)].
  destruct (Media.files k !! _) as [content|] eqn:Hf; [|done].
  assert (forall resp',
    (resp' = Range.whole_file (Range.base_headers r) content
               (Z.of_nat (length content)) \/
     resp' = Range.range_not_satisfiable (Range.base_headers r)
               (Z.of_nat (length content)) \/
     exists s e bytes,
       resp' = Range.partial_content (Range.base_headers r)
                 (Z.of_nat (length content)) s e bytes) ->
    Range.headers resp' !! "Accept-Ranges" = Some "bytes" /\
    Range.headers resp' !! "Content-Type" = Some (Range.content_type r))
    as Hshape.
  { intros resp' [-> | [-> | (s & e & bytes & ->)]]; simpl;
      unfold Range.base_headers;
      by rewrite ?lookup_insert_ne, ?lookup_insert_eq by done. }
  intros Hget.
  assert (resp = Range.whole_file (Range.base_headers r) content
                   (Z.of_nat (length content)) \/
          resp = Range.range_not_satisfiable (Range.base_headers r)
                   (Z.of_nat (length content)) \/
          exists s e bytes,
            resp = Range.partial_content (Range.base_headers r)
                     (Z.of_nat (length content)) s e bytes)
    as Hcases.
  { revert Hget. repeat case_match; intros [= <-];
      first [by left | by right; left | by right; right; eexists _, _, _]. }
  destruct (Hshape resp Hcases) as (Har & Hct).
  split; [done|]. by exists r, content.
Qed.

(** X6.  The first revision answers every request for a stored file as
    the later ones do, range handling included; the revisions differ
    only where the later ones send the fallback page and the first one
    answers 404. *)
Theorem first_revision_serves_alike k id range :
  (forall resp,
     Legacy.get_v k id range = Legacy.Served resp <->
     Range.get_v k id range = Range.Served resp) /\
  ((exists text, Legacy.get_v k id range = Legacy.NotFound text) <->
   Range.get_v k id range = Range.InvalidEmbed).
Proof.
  unfold Legacy.get_v, Range.get_v.
  assert (forall (P : Range.Response),
            (forall resp, Legacy.Served P = Legacy.Served resp <->
                          Range.Served P = Range.Served resp) /\
            ((exists text, Legacy.Served P = Legacy.NotFound text) <->
             Range.Served P = Range.InvalidEmbed)) as Hsame.
  { intros P. split.
    - intros resp. split; intros [= ->]; done.
    - split; [by intros [text Ht]|done]. }
  assert ((forall resp, Legacy.Crashed = Legacy.Served resp <->
                        Range.Crashed = Range.Served resp) /\
          ((exists text, Legacy.Crashed = Legacy.NotFound text) <->
           Range.Crashed = Range.InvalidEmbed)) as Hcrash.
  { split; [done|]. split; [by intros [text Ht]|done]. }
  destruct (Js.get (Media.readData k) id) as [r| |];
    [|done|split; [done|by split; eauto]].
  cbv zeta.
  destruct (Media.files k !! _) as [content|];
    [|split; [done|by split; eauto]].
  fold (Range.content_type r). fold (Range.base_headers r).
  destruct range as [rg|]; [|apply Hsame].
  destruct (Js.truthy rg); [|apply Hsame].
  fold (Range.range_parts rg).
  assert (match Range.range_parts rg !! 0%nat with
          | Some p => Js.parseInt p
          | None => Js.NaN
          end = Range.range_start rg) as ->.
  { unfold Range.range_start, Range.start_text.
    by destruct (Range.range_parts rg !! 0%nat). }
  fold (Range.end_text rg).
  fold (Range.range_end (Z.of_nat (length content)) rg).
  destruct (Js.isNaN _ || Js.isNaN _ || Js.gt _ _); [apply Hsame|].
  destruct (Range.createReadStream _ _ _); [apply Hsame|apply Hcrash].
Qed.

End RangeMore.

Lemma whole_file_without_range_witness :
  (Media.readData Sample.disk !! "v1" = Some Sample.clip /\
   Media.files Sample.disk !! "uploads/v1.mp4" = Some Sample.clip_bytes) /\
  exists resp,
    @Range.get_v Sample.platform Sample.disk "v1" None = Range.Served resp /\
    Range.status resp = 200 /\
    Range.headers resp !! "Content-Length" = Some "5" /\
    Range.body resp = Sample.clip_bytes.
Proof.
  split; [split; reflexivity|].
  destruct (@whole_file_without_range Sample.platform Sample.disk "v1"
              Sample.clip Sample.clip_bytes None eq_refl eq_refl
              (or_introl eq_refl))
    as (resp & Hget & Hst & Hcl & _ & _ & Hbody).
  exists resp. split_and!; [exact Hget|exact Hst|exact Hcl|exact Hbody].
Defined.

Lemma ranged_request_outcomes_witness :
  (Media.readData Sample.disk !! "v1" = Some Sample.clip /\
   Media.files Sample.disk !! "uploads/v1.mp4" = Some Sample.clip_bytes /\
   "bytes=3-9" <> EmptyString) /\
  exists resp,
    @Range.get_v Sample.platform Sample.disk "v1" (Some "bytes=3-9")
      = Range.Served resp /\
    Range.status resp = 206 /\
    Range.headers resp !! "Content-Range" = Some "bytes 3-9/5" /\
    forall i b, Range.body resp !! i = Some b ->
                Sample.clip_bytes !! (3 + i)%nat = Some b.
Proof.
  split; [split_and!; [reflexivity|reflexivity|discriminate]|].
  destruct (@ranged_request_outcomes Sample.platform Sample.disk "v1"
              Sample.clip Sample.clip_bytes "bytes=3-9" eq_refl eq_refl)
    as [([Hbad|[Hbad|Hbad]] & _)
       |[(s & resp & Hs & _ & Hget & Hst & Hcr & _ & Hbody)
        |(Hget & _)]];
    [discriminate|discriminate Hbad|discriminate Hbad|discriminate Hbad|
    |vm_compute in Hget; discriminate Hget].
  vm_compute in Hs. injection Hs as <-.
  exists resp. split_and!; [exact Hget|exact Hst|exact Hcr|exact Hbody].
Defined.

Lemma open_ended_range_witness :
  (Media.readData Sample.disk !! "v1" = Some Sample.clip /\
   Media.files Sample.disk !! "uploads/v1.mp4" = Some Sample.clip_bytes /\
   0 <= 2) /\
  exists resp,
    @Range.get_v Sample.platform Sample.disk "v1" (Some "bytes=2-")
      = Range.Served resp /\
    Range.status resp = 206 /\
    Range.headers resp !! "Content-Range" = Some "bytes 2-4/5" /\
    Range.headers resp !! "Content-Length" = Some "3" /\
    Range.body resp = [Byte.x12; Byte.x13; Byte.x14].
Proof.
  split; [split_and!; first [reflexivity | lia]|].
  destruct (@open_ended_range Sample.platform Sample.disk "v1" Sample.clip
              Sample.clip_bytes 2 eq_refl eq_refl)
    as (resp & Hget & Hin & _); [lia|].
  exists resp. split; [exact Hget|].
  apply Hin. simpl. lia.
Defined.

Lemma served_headers_witness :
  exists resp,
    @Range.get_v Sample.platform Sample.disk "v1" (Some "bytes=9-") =
      Range.Served resp /\
    Range.headers resp !! "Accept-Ranges" = Some "bytes" /\
    Range.headers resp !! "Content-Type" = Some "video/mp4".
Proof.
  eexists. split; [reflexivity|].
  destruct (@served_headers Sample.platform Sample.disk "v1"
              (Some "bytes=9-") _ eq_refl)
    as (Har & r & content & Hr & _ & Hct).
  split; [exact Har|]. injection Hr as <-. exact Hct.
Defined.

(** ** [POST /upload] *)

Section UploadMore.
Context `{Platform}.

Lemma create_job_disk id st :
  Hub.disk (Upload.create_job id st) = Hub.disk st.
Proof. unfold Upload.create_job. by destruct (Hub.transcodeJobs st !! id). Qed.

Lemma task_prologue_disk id st :
  Hub.disk (Upload.task_prologue id st) = Hub.disk st.
Proof.
  unfold Upload.task_prologue.
  by repeat (rewrite broadcastStatus_disk; simpl).
Qed.

(** What an accepted upload leaves behind, for any extension. *)
Lemma post_upload_accepted id clock stamp f st content :
  Media.files (Hub.disk st) !! path_join UPLOADS_DIR (Upload.filename f)
    = Some content ->
  let finalPath := path_join UPLOADS_DIR (Keeps.final_name id f) in
  let info := Keeps.upload_record id stamp f (Z.of_nat (length content)) in
  let ext := toLowerCase (path_extname (Upload.originalname f)) in
  exists moved task st',
    Media.data_file moved = Media.data_file (Hub.disk st) /\
    Media.files moved =
      <[finalPath := content]>
        (delete (path_join UPLOADS_DIR (Upload.filename f))
           (Media.files (Hub.disk st))) /\
    Upload.post_upload id clock stamp (Some f) st =
      Upload.Accepted info task st' /\
    Hub.disk st' =
      Media.writeData (<[id := info]> (Media.readData (Hub.disk st))) moved /\
    (Upload.supported ext = true ->
       task = None /\ Hub.transcodeJobs st' = Hub.transcodeJobs st /\
       Hub.wire st' = Hub.wire st) /\
    (Upload.supported ext = false ->
       exists c t,
         task = Some (c, t) /\
         Upload.app t = st' /\
         Upload.promise t = Upload.Pending /\
         Upload.resumed t = false /\
         Transcode.inputSize c = Z.of_nat (length content) /\
         Transcode.jobId c = id /\
         Hub.transcodeJobs st' =
           Hub.transcodeJobs
             (Upload.task_prologue id
                (Upload.create_job id (Hub.with_disk moved st)))).
Proof.
  intros Htemp. cbv zeta.
  destruct (move_file_moves (path_join UPLOADS_DIR (Upload.filename f))
              (path_join UPLOADS_DIR (Keeps.final_name id f))
              (Hub.disk st) content Htemp)
    as (moved & Hmove & Hdata & Hfiles).
  exists moved.
  assert (Media.stat_size moved (path_join UPLOADS_DIR (Keeps.final_name id f))
          = Some (Z.of_nat (length content))) as Hsize.
  { unfold Media.stat_size. by rewrite Hfiles, lookup_insert_eq. }
  assert (Media.readData moved = Media.readData (Hub.disk st)) as Hread
    by (unfold Media.readData; by rewrite Hdata).
  unfold Upload.post_upload. fold (Keeps.final_name id f).
  rewrite Hmove. cbv zeta.
  destruct (Upload.supported (toLowerCase (path_extname (Upload.originalname f))))
    eqn:Hsup.
  - cbn [Hub.disk Hub.with_disk]. rewrite Hsize, Hread.
    eexists _, _. split; [done|]. split; [done|]. split; [reflexivity|].
    split_and!; [done| |done]. by intros _.
  - unfold Upload.start_task. cbn [Upload.app].
    rewrite !task_prologue_disk, !create_job_disk.
    cbn [Hub.disk Hub.with_disk]. rewrite Hsize, Hread.
    eexists _, _. split; [done|]. split; [done|]. split; [reflexivity|].
    cbn [Hub.disk Hub.with_disk].
    rewrite ?task_prologue_disk, ?create_job_disk.
    split_and!; [done|done|].
    intros _. eexists _, _. split; [reflexivity|].
    cbn [Upload.app Upload.promise Upload.resumed Transcode.inputSize
         Transcode.jobId Transcode.transcodeToMp4 Upload.conversion
         Upload.finalPath Upload.id Hub.transcodeJobs Hub.with_disk].
    rewrite ?task_prologue_disk, ?create_job_disk.
    cbn [Hub.disk Hub.with_disk]. rewrite Hsize. split_and!; done.
Qed.

(** X7.  Round trip for a supported container.  When the temporary file
    is there and the lower-cased extension is [.mp4], [.mov] or [.webm],
    the upload is accepted with [converted: false] and its size, no job
    is created and nothing is broadcast, and a following [GET /v/:id]
    without [Range] answers 200 with exactly the uploaded bytes. *)
Theorem supported_upload_round_trip id clock stamp f st content :
  Media.files (Hub.disk st) !! path_join UPLOADS_DIR (Upload.filename f)
    = Some content ->
  Upload.supported (toLowerCase (path_extname (Upload.originalname f)))
    = true ->
  exists info st',
    Upload.post_upload id clock stamp (Some f) st =
      Upload.Accepted info None st' /\
    Media.converted info = false /\
    Media.size info = Z.of_nat (length content) /\
    Hub.transcodeJobs st' = Hub.transcodeJobs st /\
    Hub.wire st' = Hub.wire st /\
    exists resp,
      Range.get_v (Hub.disk st') id None = Range.Served resp /\
      Range.status resp = 200 /\
      Range.body resp = content.
Proof.
  intros Htemp Hsup.
  destruct (post_upload_accepted id clock stamp f st content Htemp)
    as (moved & task & st' & _ & Hfiles & Hpost & Hdisk & Hyes & _).
  destruct (Hyes Hsup) as (-> & Hjobs & Hwire).
  eexists _, st'. split; [exact Hpost|].
  split_and!; [done|done|done|done|].
  unfold Range.get_v. rewrite Hdisk.
  erewrite get_own by (unfold Media.readData; simpl; apply lookup_insert_eq).
  rewrite files_writeData, Hfiles.
  cbn [Keeps.upload_record Media.filename]. rewrite lookup_insert_eq.
  eexists. split; [reflexivity|done].
Qed.

(** X8.  An upload whose lower-cased extension is not supported, for a
    fresh identifier: it is accepted with [converted: false] under its
    own name, a job exists and is [running], the task awaits the encoder
    with the input size of the uploaded file, and the other jobs are as
    they were. *)
Theorem unsupported_upload_starts_job id clock stamp f st content :
  Media.files (Hub.disk st) !! path_join UPLOADS_DIR (Upload.filename f)
    = Some content ->
  Upload.supported (toLowerCase (path_extname (Upload.originalname f)))
    = false ->
  Hub.transcodeJobs st !! id = None ->
  exists info c t st',
    Upload.post_upload id clock stamp (Some f) st =
      Upload.Accepted info (Some (c, t)) st' /\
    Media.converted info = false /\
    Media.filename info = Keeps.final_name id f /\
    Media.readData (Hub.disk st') !! id = Some info /\
    Upload.status_in id st' = Some Jobs.Running /\
    Upload.promise t = Upload.Pending /\
    Transcode.inputSize c = Z.of_nat (length content) /\
    forall id', id <> id' ->
      Hub.transcodeJobs st' !! id' = Hub.transcodeJobs st !! id'.
Proof.
  intros Htemp Hsup Hfresh.
  destruct (post_upload_accepted id clock stamp f st content Htemp)
    as (moved & task & st' & _ & _ & Hpost & Hdisk & _ & Hno).
  destruct (Hno Hsup) as (c & t & -> & Happ & Hp & Hr & Hin & Hid & Hjobs).
  eexists _, c, t, st'. split; [exact Hpost|].
  split_and!; try done.
  - rewrite Hdisk. simpl. apply lookup_insert_eq.
  - rewrite status_in_jobs. rewrite Hjobs.
    erewrite task_prologue_job; [done|].
    unfold Upload.create_job. simpl. rewrite Hfresh. simpl.
    apply lookup_insert_eq.
  - intros id' Hne. rewrite Hjobs, task_prologue_other by done.
    unfold Upload.create_job. simpl. rewrite Hfresh. simpl.
    by rewrite lookup_insert_ne.
Qed.

(** X9.  An accepted upload rewrites [data.json] to what [readData] gave
    with the new record added: the records of other identifiers are kept
    when the file could be parsed, and when it could not, the new record
    is the only one left. *)
Theorem upload_rewrites_store id clock stamp f st info task st' :
  Upload.post_upload id clock stamp (Some f) st = Upload.Accepted info task st' ->
  Media.data_file (Hub.disk st') =
    Some (<[id := info]> (Media.readData (Hub.disk st))) /\
  (forall id', id <> id' ->
     Media.readData (Hub.disk st') !! id' =
     Media.readData (Hub.disk st) !! id') /\
  (Media.data_file (Hub.disk st) = None ->
   Media.readData (Hub.disk st') = {[ id := info ]}).
Proof.
  intros Hpost.
  destruct (Media.files (Hub.disk st) !! path_join UPLOADS_DIR (Upload.filename f))
    as [content|] eqn:Htemp.
  - destruct (post_upload_accepted id clock stamp f st content Htemp)
      as (moved & task0 & st0 & _ & _ & Hpost0 & Hdisk & _).
    rewrite Hpost0 in Hpost. injection Hpost as <- <- <-.
    rewrite Hdisk. unfold Media.readData at 2 3.
    cbn [Media.writeData Media.data_file]. split_and!; [done| |].
    + intros id' Hne. by rewrite lookup_insert_ne.
    + intros Hcorrupt. unfold Media.readData. by rewrite Hcorrupt.
  - unfold Upload.post_upload in Hpost.
    by rewrite (move_file_missing _ _ _ Htemp) in Hpost.
Qed.

(** X10.  After an accepted upload [GET /info/:id] answers with the
    record the upload answered with and the two links, and [GET /s/:id]
    redirects to [/v/:id]. *)
Theorem info_after_upload o id clock stamp f st info task st' :
  Upload.post_upload id clock stamp (Some f) st = Upload.Accepted info task st' ->
  Pages.get_info o (Hub.disk st') id =
    Some {| Pages.info_id := id;
            Pages.info_videoUrl := Pages.videoUrl o id;
            Pages.info_shortUrl := Pages.shortUrl o id;
            Pages.info := info |} /\
  Pages.get_s (Hub.disk st') id = Pages.Redirect ("/v/" +:+ id).
Proof.
  intros Hpost.
  assert (Media.readData (Hub.disk st') !! id = Some info) as Hinfo.
  { destruct (Media.files (Hub.disk st)
                !! path_join UPLOADS_DIR (Upload.filename f))
      as [content|] eqn:Htemp.
    - destruct (post_upload_accepted id clock stamp f st content Htemp)
        as (moved & task0 & st0 & _ & _ & Hpost0 & Hdisk & _).
      rewrite Hpost0 in Hpost. injection Hpost as <- <- <-.
      rewrite Hdisk. simpl. apply lookup_insert_eq.
    - unfold Upload.post_upload in Hpost.
      by rewrite (move_file_missing _ _ _ Htemp) in Hpost. }
  unfold Pages.get_info, Pages.get_s. by rewrite (get_own _ _ _ Hinfo).
Qed.

(** X12.  When the encoder has ended and the converted file is not
    there, the uploaded file has already been unlinked when
    [fs.statSync] throws: in both revisions [data.json] is left as it
    was, still naming the uploaded file, and [GET /v/:id] answers with
    the fallback page from then on. *)
Theorem failed_update_loses_upload cv st r range :
  Media.readData (Hub.disk st) !! Upload.id cv = Some r ->
  path_join UPLOADS_DIR (Media.filename r) = Upload.finalPath cv ->
  Upload.finalPath cv <> Upload.convertedPath cv ->
  Media.files (Hub.disk st) !! Upload.convertedPath cv = None ->
  forall st',
    st' = Upload.after_success cv st \/ st' = MainJs.after_success cv st ->
    Media.data_file (Hub.disk st') = Media.data_file (Hub.disk st) /\
    Range.get_v (Hub.disk st') (Upload.id cv) range = Range.InvalidEmbed /\
    forall j, Hub.transcodeJobs st !! Upload.id cv = Some j ->
      Upload.status_in (Upload.id cv) st' = Some Jobs.Error.
Proof.
  intros Hr Hpath Hne Hmissing st' Hst'.
  assert (Upload.update_metadata cv (Hub.disk st) =
          Upload.Threw (Media.unlink_quiet (Upload.finalPath cv) (Hub.disk st))
            ("ENOENT: no such file or directory, stat '" +:+
             Upload.convertedPath cv +:+ "'")) as Hup.
  { unfold Upload.update_metadata.
    change (Media.readData (Media.unlink_quiet _ (Hub.disk st)))
      with (Media.readData (Hub.disk st)).
    rewrite Hr. unfold Media.stat_size. cbv zeta.
    by rewrite files_unlink, lookup_delete_ne, Hmissing by done. }
  assert (Hub.disk st' =
          Media.unlink_quiet (Upload.finalPath cv) (Hub.disk st)) as Hdisk.
  { destruct Hst' as [-> | ->];
      unfold Upload.after_success, MainJs.after_success; rewrite Hup;
      [by rewrite broadcastStatus_disk|done]. }
  split_and!.
  - by rewrite Hdisk.
  - unfold Range.get_v. rewrite Hdisk.
    change (Media.readData (Media.unlink_quiet _ (Hub.disk st)))
      with (Media.readData (Hub.disk st)).
    rewrite (get_own _ _ _ Hr), Hpath, files_unlink.
    by rewrite lookup_delete_eq.
  - intros j Hj. rewrite status_in_jobs.
    destruct Hst' as [-> | ->];
      unfold Upload.after_success, MainJs.after_success; rewrite Hup;
      rewrite ?broadcastStatus_jobs; simpl;
      rewrite !lookup_alter_eq, Hj; done.
Qed.

End UploadMore.

Lemma supported_upload_round_trip_witness :
  (Media.files (Hub.disk Demo.incoming_mp4) !! "uploads/tmp9" =
     Some [Byte.x0a; Byte.x0b; Byte.x0c] /\
   Upload.supported ".mp4" = true) /\
  exists info st',
    @Upload.post_upload Sample.platform "v3" 10 11 (Some Demo.clip2)
      Demo.incoming_mp4 = Upload.Accepted info None st' /\
    Media.size info = 3 /\
    exists resp,
      @Range.get_v Sample.platform (Hub.disk st') "v3" None
        = Range.Served resp /\
      Range.status resp = 200 /\
      Range.body resp = [Byte.x0a; Byte.x0b; Byte.x0c].
Proof.
  split; [split; reflexivity|].
  destruct (@supported_upload_round_trip Sample.platform "v3" 10 11 Demo.clip2
              Demo.incoming_mp4 [Byte.x0a; Byte.x0b; Byte.x0c]
              eq_refl eq_refl)
    as (info & st' & Hpost & _ & Hsize & _ & _ & Hresp).
  exists info, st'. split_and!; [exact Hpost|exact Hsize|exact Hresp].
Defined.

Lemma unsupported_upload_starts_job_witness :
  (Media.files (Hub.disk Sample.incoming) !! "uploads/tmp123" =
     Some [Byte.x01; Byte.x02; Byte.x03; Byte.x04] /\
   Upload.supported ".avi" = false /\
   Hub.transcodeJobs Sample.incoming !! "v2" = None) /\
  exists info c t st',
    @Upload.post_upload Sample.platform "v2" 1000 1001 (Some Sample.holiday)
      Sample.incoming = Upload.Accepted info (Some (c, t)) st' /\
    Media.converted info = false /\
    Media.filename info = "v2.avi" /\
    Upload.status_in "v2" st' = Some Jobs.Running /\
    Transcode.inputSize c = 4.
Proof.
  split; [split_and!; reflexivity|].
  destruct (@unsupported_upload_starts_job Sample.platform "v2" 1000 1001
              Sample.holiday Sample.incoming
              [Byte.x01; Byte.x02; Byte.x03; Byte.x04] eq_refl eq_refl eq_refl)
    as (info & c & t & st' & Hpost & Hconv & Hname & _ & Hrun & _ & Hin & _).
  exists info, c, t, st'.
  split_and!; [exact Hpost|exact Hconv|exact Hname|exact Hrun|exact Hin].
Defined.

Lemma upload_rewrites_store_witness :
  exists info task st',
    @Upload.post_upload Sample.platform "v3" 10 11 (Some Demo.clip2)
      Demo.incoming_mp4 = Upload.Accepted info task st' /\
    Media.readData (Hub.disk st') !! "v1" = Some Sample.clip.
Proof.
  eexists _, _, _. split; [reflexivity|].
  match goal with
  | |- Media.readData (Hub.disk ?st') !! _ = _ =>
      destruct (@upload_rewrites_store Sample.platform "v3" 10 11 Demo.clip2
                  Demo.incoming_mp4 _ None st' eq_refl)
        as (_ & Hother & _)
  end.
  refine (eq_trans (Hother "v1" _) eq_refl). discriminate.
Defined.

Lemma info_after_upload_witness :
  exists info task st',
    @Upload.post_upload Sample.platform "v3" 10 11 (Some Demo.clip2)
      Demo.incoming_mp4 = Upload.Accepted info task st' /\
    Pages.info <$> Pages.get_info Demo.origin (Hub.disk st') "v3" =
      Some (Js.Own info) /\
    Pages.info_videoUrl <$> Pages.get_info Demo.origin (Hub.disk st') "v3" =
      Some "https://vid.example/v/v3" /\
    Pages.get_s (Hub.disk st') "v3" = Pages.Redirect "/v/v3".
Proof.
  eexists _, _, _. split; [reflexivity|].
  match goal with
  | |- Pages.info <$> Pages.get_info _ (Hub.disk ?st') _ =
       Some (Js.Own ?info) /\ _ =>
      destruct (@info_after_upload Sample.platform Demo.origin "v3" 10 11
                  Demo.clip2 Demo.incoming_mp4 info None st' eq_refl)
        as (Hinfo & Hs)
  end.
  rewrite Hinfo. split_and!; [reflexivity|reflexivity|exact Hs].
Defined.

Lemma failed_update_loses_upload_witness :
  (Media.readData (Hub.disk Sample.unlucky) !! "v2" = Some Sample.movie /\
   "uploads/v2.avi" <> "uploads/v2.mp4" /\
   Media.files (Hub.disk Sample.unlucky) !! "uploads/v2.mp4" = None) /\
  @Range.get_v Sample.platform
    (Hub.disk (@Upload.after_success Sample.platform Sample.movie_conversion
                 Sample.unlucky)) "v2" None = Range.InvalidEmbed /\
  @Range.get_v Sample.platform (Hub.disk Sample.unlucky) "v2" None <>
    Range.InvalidEmbed.
Proof.
  split; [split_and!; [reflexivity|discriminate|reflexivity]|].
  split; [|discriminate].
  refine (proj1 (proj2 (@failed_update_loses_upload Sample.platform
            Sample.movie_conversion Sample.unlucky Sample.movie None
            eq_refl eq_refl _ eq_refl _ (or_introl eq_refl)))).
  discriminate.
Defined.

(** ** The hub beyond the claims *)

Section HubMore.

Lemma set_add_nodup ws set : NoDup set -> NoDup (Hub.set_add ws set).
Proof.
  intros Hnd. unfold Hub.set_add. destruct (decide (ws ∈ set)); [done|].
  apply NoDup_app. split_and!; [done| |apply NoDup_singleton].
  intros x Hx ->%list_elem_of_singleton. done.
Qed.

Lemma set_delete_nodup ws set : NoDup set -> NoDup (Hub.set_delete ws set).
Proof. intros Hnd. by apply NoDup_filter. Qed.

Lemma set_delete_twice ws set :
  Hub.set_delete ws (Hub.set_delete ws set) = Hub.set_delete ws set.
Proof.
  unfold Hub.set_delete. induction set as [|x set IH]; [done|].
  rewrite filter_cons. destruct (decide (x <> ws)) as [Hx|Hx].
  - rewrite filter_cons, decide_True by done. by rewrite IH.
  - done.
Qed.

Lemma on_message_unsubscribe ws id st :
  id <> EmptyString ->
  Hub.on_message ws (Some {| Hub.type := "unsubscribe"; Hub.id := id |}) st =
  Hub.unsubscribe ws id st.
Proof.
  intros Hid. unfold Hub.on_message. simpl.
  by assert (Js.truthy id = true) as -> by by destruct id.
Qed.

Lemma unsubscribe_nodup ws id st :
  Keeps.sets_nodup st -> Keeps.sets_nodup (Hub.unsubscribe ws id st).
Proof.
  intros Hnd id' set'. unfold Hub.unsubscribe.
  destruct (Hub.subscribers st !! id) as [set|] eqn:Hset; [|apply Hnd].
  cbn [Hub.subscribers Hub.with_subscribers].
  destruct (decide (id = id')) as [<-|Hne].
  - rewrite lookup_insert_eq. intros [= <-]. apply set_delete_nodup. eauto.
  - rewrite lookup_insert_ne by done. apply Hnd.
Qed.

Lemma on_message_cases ws d st :
  Hub.on_message ws (Some d) st =
  if String.eqb (Hub.type d) "subscribe" && Js.truthy (Hub.id d) then
    match Hub.subscribe ws (Hub.id d) st with
    | Hub.Returned st' => st'
    | Hub.Thrown st' => st'
    end
  else if String.eqb (Hub.type d) "unsubscribe" && Js.truthy (Hub.id d)
       then Hub.unsubscribe ws (Hub.id d) st
       else st.
Proof.
  unfold Hub.on_message.
  destruct (String.eqb (Hub.type d) "subscribe") eqn:Htype; [|done].
  apply String.eqb_eq in Htype. rewrite Htype.
  change (String.eqb "subscribe" "unsubscribe") with false.
  cbn [andb]. destruct (Js.truthy (Hub.id d)); [|done].
  by destruct (Hub.subscribe ws (Hub.id d) st).
Qed.

Lemma subscribe_subscribers ws id st :
  Hub.subscribers
    match Hub.subscribe ws id st with
    | Hub.Returned st' => st'
    | Hub.Thrown st' => st'
    end =
  <[id := Hub.set_add ws (default [] (Hub.subscribers st !! id))]>
    (Hub.subscribers st).
Proof.
  unfold Hub.subscribe.
  match goal with
  | |- context [Hub.ws_send ?w ?m ?s] =>
      destruct (ws_send_wire w m s) as (st1 & [Hs|Hs] & Hst1); rewrite Hs
  end.
  all: subst st1; cbn [Hub.subscribers Hub.with_wire Hub.with_sockets
                         Hub.with_subscribers];
    by destruct (Hub.subscribers st !! id).
Qed.

(** X14.  No handler ever puts a connection twice into a subscriber
    set: when no set holds a connection twice, the same is true after a
    message of any kind, after a close, after a new connection and after
    a broadcast. *)
Theorem handlers_keep_sets_duplicate_free st :
  Keeps.sets_nodup st ->
  (forall ws data, Keeps.sets_nodup (Hub.on_message ws data st)) /\
  (forall ws, Keeps.sets_nodup (Hub.on_close ws st)) /\
  (forall ws throws, Keeps.sets_nodup (Hub.on_connection ws throws st)) /\
  (forall id, Keeps.sets_nodup (Hub.broadcastStatus id st)).
Proof.
  intros Hnd. split_and!.
  - intros ws [d|]; [|done]. rewrite on_message_cases.
    destruct (String.eqb (Hub.type d) "subscribe" && Js.truthy (Hub.id d)).
    + intros id' set'. rewrite subscribe_subscribers.
      destruct (decide (Hub.id d = id')) as [<-|Hne'].
      * rewrite lookup_insert_eq. intros [= <-]. apply set_add_nodup.
        destruct (Hub.subscribers st !! Hub.id d) eqn:Hs; simpl;
          [by eapply Hnd|apply NoDup_nil_2].
      * rewrite lookup_insert_ne by done. apply Hnd.
    + destruct (String.eqb (Hub.type d) "unsubscribe" && Js.truthy (Hub.id d));
        [by apply unsubscribe_nodup|done].
  - intros ws. unfold Hub.on_close.
    destruct (Hub.sockets st !! ws) as [sk|]; [|done].
    destruct (Hub._subscribedId sk) as [id|]; [|done].
    destruct (Js.truthy id); [by apply unsubscribe_nodup|done].
  - intros ws throws. exact Hnd.
  - intros id id' set'. rewrite broadcastStatus_subscribers. apply Hnd.
Qed.

(** X15.  When the subscriber set of an identifier holds no connection
    twice, one broadcast sends no connection more than one message, and
    only to members of the set, each message carrying the job as it is. *)
Theorem broadcast_once_per_connection id st set :
  Hub.subscribers st !! id = Some set ->
  NoDup set ->
  exists sent,
    Hub.wire (Hub.broadcastStatus id st) = (Hub.wire st ++ sent)%list /\
    NoDup (sent.*1) /\
    forall ws m, (ws, m) ∈ sent ->
      ws ∈ set /\ Hub.is_open st ws = true /\
      m = {| Hub.msg_id := id; Hub.msg_job := Hub.transcode_status id st |}.
Proof.
  intros Hset Hnd. unfold Hub.broadcastStatus. rewrite Hset.
  eexists. split; [by apply broadcast_loop_wire|]. split.
  - match goal with
    | |- NoDup ((map ?f ?l).*1) =>
        assert ((map f l).*1 = l) as ->
          by (generalize l; intros l0; induction l0 as [|x l0 IH];
              [done|cbn; f_equal; exact IH])
    end.
    by apply NoDup_filter.
  - intros ws m [ws' [[= -> ->] Hin]]%list_elem_of_fmap.
    apply list_elem_of_filter in Hin as [Hopen Hin]. done.
Qed.

(** X16.  An [unsubscribe] message for an identifier sends nothing,
    takes the connection out of the set of that identifier, leaves the
    other members of that set and every other set as they were, and
    changes nothing when it is repeated. *)
Theorem unsubscribe_effect ws id st :
  id <> EmptyString ->
  let st' := Hub.on_message ws
               (Some {| Hub.type := "unsubscribe"; Hub.id := id |}) st in
  Hub.wire st' = Hub.wire st /\
  ~ Hub.subscribed st' ws id /\
  (forall ws', ws' <> ws ->
     (Hub.subscribed st' ws' id <-> Hub.subscribed st ws' id)) /\
  (forall id', id <> id' ->
     Hub.subscribers st' !! id' = Hub.subscribers st !! id') /\
  Hub.on_message ws
    (Some {| Hub.type := "unsubscribe"; Hub.id := id |}) st' = st'.
Proof.
  intros Hid st'. subst st'. rewrite !on_message_unsubscribe by done.
  unfold Hub.unsubscribe at 1 2 3 4 6.
  destruct (Hub.subscribers st !! id) as [set|] eqn:Hset.
  - cbn [Hub.wire Hub.with_subscribers Hub.subscribers]. split_and!.
    + done.
    + intros [set' [Hset' Hin]]. cbn in Hset'.
      rewrite lookup_insert_eq in Hset'. injection Hset' as <-.
      apply set_delete_elem in Hin. by destruct Hin.
    + intros ws' Hne. unfold Hub.subscribed.
      cbn [Hub.subscribers Hub.with_subscribers].
      rewrite lookup_insert_eq, Hset. split.
      * intros [set' [[= <-] Hin]]. exists set. split; [done|].
        apply set_delete_elem in Hin. by destruct Hin.
      * intros [set' [[= <-] Hin]]. eexists. split; [done|].
        by apply set_delete_elem.
    + intros id' Hne. by rewrite lookup_insert_ne.
    + unfold Hub.unsubscribe.
      cbn [Hub.subscribers Hub.with_subscribers].
      rewrite lookup_insert_eq. unfold Hub.with_subscribers. simpl.
      by rewrite Hset, insert_insert_eq, set_delete_twice.
  - split_and!; try done.
    all: try (intros [set' [Hset' _]]; congruence).
    all: try (unfold Hub.unsubscribe; by rewrite Hset).
Qed.

(** X17.  A message that cannot be parsed, one whose [type] is neither
    [subscribe] nor [unsubscribe], and one without an [id] change
    nothing and are not answered. *)
Theorem other_messages_ignored ws data st :
  data = None \/
  (exists d, data = Some d /\
     (Hub.id d = EmptyString \/
      (Hub.type d <> "subscribe" /\ Hub.type d <> "unsubscribe"))) ->
  Hub.on_message ws data st = st.
Proof.
  intros [-> | (d & -> & Hd)]; [done|]. unfold Hub.on_message.
  destruct Hd as [Hid | [Hs Hu]].
  - rewrite Hid. simpl. by rewrite !andb_false_r.
  - apply String.eqb_neq in Hs. apply String.eqb_neq in Hu.
    by rewrite Hs, Hu.
Qed.

(** X18.  When the only set a connection is in is that of the identifier
    it subscribed to last, it is in no set after it closes; and the
    close of a connection that never subscribed changes nothing. *)
Theorem close_cleans_single_subscription ws sk st :
  Hub.sockets st !! ws = Some sk ->
  (forall id, Hub.subscribed st ws id ->
     Hub._subscribedId sk = Some id /\ id <> EmptyString) ->
  (forall id, ~ Hub.subscribed (Hub.on_close ws st) ws id) /\
  (Hub._subscribedId sk = None -> Hub.on_close ws st = st).
Proof.
  intros Hsk Honly. split.
  - intros id Hsub.
    assert (Hub.subscribed st ws id) as Hbefore.
    { destruct Hsub as [set [Hset Hin]]. unfold Hub.on_close in Hset.
      rewrite Hsk in Hset.
      destruct (Hub._subscribedId sk) as [last|]; [|by exists set].
      destruct (Js.truthy last); [|by exists set].
      unfold Hub.unsubscribe in Hset.
      destruct (Hub.subscribers st !! last) as [set0|] eqn:Hlast;
        [|by exists set].
      cbn [Hub.subscribers Hub.with_subscribers] in Hset.
      destruct (decide (last = id)) as [->|Hne].
      - rewrite lookup_insert_eq in Hset. injection Hset as <-.
        exists set0. split; [done|].
        apply set_delete_elem in Hin. by destruct Hin.
      - rewrite lookup_insert_ne in Hset by done. by exists set. }
    destruct (Honly id Hbefore) as [Hlast Hne].
    by eapply close_removes_last_subscription.
  - intros Hnone. unfold Hub.on_close. by rewrite Hsk, Hnone.
Qed.

(** X19.  A broadcast changes nothing but the wire: jobs, subscriber
    sets, connections and disk are as before, the wire only grows, and
    for an identifier without a subscriber set nothing happens at all. *)
Theorem broadcast_only_sends id st :
  Hub.transcodeJobs (Hub.broadcastStatus id st) = Hub.transcodeJobs st /\
  Hub.subscribers (Hub.broadcastStatus id st) = Hub.subscribers st /\
  Hub.sockets (Hub.broadcastStatus id st) = Hub.sockets st /\
  Hub.disk (Hub.broadcastStatus id st) = Hub.disk st /\
  (exists sent,
     Hub.wire (Hub.broadcastStatus id st) = (Hub.wire st ++ sent)%list /\
     forall m, m ∈ sent -> Hub.msg_id m.2 = id) /\
  (Hub.subscribers st !! id = None -> Hub.broadcastStatus id st = st).
Proof.
  split_and!.
  - apply broadcastStatus_jobs.
  - apply broadcastStatus_subscribers.
  - apply broadcastStatus_sockets.
  - apply broadcastStatus_disk.
  - unfold Hub.broadcastStatus.
    destruct (Hub.subscribers st !! id) as [set|].
    + eexists. split; [by apply broadcast_loop_wire|].
      by intros m [ws [-> _]]%list_elem_of_fmap.
    + exists []. split; [by rewrite app_nil_r|]. by intros m Hm%not_elem_of_nil.
  - intros Hnone. unfold Hub.broadcastStatus. by rewrite Hnone.
Qed.

End HubMore.

(** ** The task beyond the claims *)

Section TaskMore.
Context `{Platform}.

Lemma trace_invariant {E S : Type} (P : S -> Prop) (step : E -> S -> S)
    (evs : list E) (s : S) :
  P s -> (forall e s0, P s0 -> P (step e s0)) ->
  forall s', s' ∈ Upload.trace step evs s -> P s'.
Proof.
  intros Hs Hstep. revert s Hs.
  induction evs as [|e evs IH]; intros s Hs s' Hin; simpl in Hin.
  - by apply list_elem_of_singleton in Hin as ->.
  - apply elem_of_cons in Hin as [-> | Hin]; [done|]. eauto.
Qed.

(** The jobs and the disk after the handlers of the encoder events. *)
Lemma update_job_in_range id id' f st :
  (forall j, Keeps.job_in_range j -> Keeps.job_in_range (f j)) ->
  (forall j, Hub.transcodeJobs st !! id = Some j -> Keeps.job_in_range j) ->
  forall j, Hub.transcodeJobs (Hub.update_job id' f st) !! id = Some j ->
    Keeps.job_in_range j.
Proof.
  intros Hf Hst j. simpl. destruct (decide (id' = id)) as [->|Hne].
  - rewrite lookup_alter_eq.
    destruct (Hub.transcodeJobs st !! id) as [j0|] eqn:Hj0; [|done].
    intros [= <-]. apply Hf. by apply Hst.
  - rewrite lookup_alter_ne by done. apply Hst.
Qed.

Lemma broadcast_in_range id id' st :
  (forall j, Hub.transcodeJobs st !! id = Some j -> Keeps.job_in_range j) ->
  forall j, Hub.transcodeJobs (Hub.broadcastStatus id' st) !! id = Some j ->
    Keeps.job_in_range j.
Proof. by rewrite broadcastStatus_jobs. Qed.

Ltac in_range :=
  repeat first
    [ assumption
    | apply broadcast_in_range
    | apply update_job_in_range;
        [intros [? ? ? ? ? ? ?] (Hp & He & Hs); repeat split; simpl in *;
         first [done | lia | by intros ? [= <-] | eauto]|] ].

Lemma elapsed_in_range c now e :
  Some (Transcode.elapsed_seconds c now) = Some e -> 0 <= e.
Proof. intros [= <-]. apply elapsed_seconds_nonneg. Qed.

Lemma poll_eta_in_range pct elapsed s :
  Transcode.poll_eta pct elapsed = Jobs.EtaSeconds s -> 0 <= s.
Proof.
  unfold Transcode.poll_eta. destruct (pct >? 0); [|done].
  intros [= <-]. lia.
Qed.

Lemma step_in_range cv c ev t :
  0 <= Transcode.inputSize c ->
  (forall j, Hub.transcodeJobs (Upload.app t) !! Upload.id cv = Some j ->
     Keeps.job_in_range j) ->
  forall j,
    Hub.transcodeJobs (Upload.app (Upload.step cv c ev t)) !! Upload.id cv
      = Some j ->
    Keeps.job_in_range j.
Proof.
  intros Hin Hinv. destruct ev as [content|now|now|tm|msg|now|]; simpl.
  - done.
  - unfold Transcode.on_start.
    destruct (Transcode.job_present c (Upload.app t)); [|done]. in_range.
  - destruct (Upload.polling t); [|done]. simpl. unfold Transcode.on_poll.
    destruct (Transcode.inputSize c =? 0)%Z eqn:Hz; [done|].
    destruct (Transcode.job_present c (Upload.app t)); [|done].
    pose proof (percent_bounds (Transcode.output_size c (Upload.app t))
                  (Transcode.inputSize c)
                  (output_size_nonneg c (Upload.app t))) as Hpct.
    apply broadcast_in_range.
    apply update_job_in_range.
    { intros [? ? ? ? ? ? ?] (Hp & He & Hs). repeat split; simpl in *;
        [lia|lia|done|apply poll_eta_in_range]. }
    apply update_job_in_range.
    { intros [? ? ? ? ? ? ?] (Hp & He & Hs). repeat split; simpl in *;
        [lia|lia|apply elapsed_in_range|done]. }
    apply update_job_in_range; [|done].
    intros [? ? ? ? ? ? ?] (Hp & He & Hs). repeat split; simpl in *;
      [lia|lia|done|done].
  - unfold Transcode.on_progress. destruct tm as [tm|]; [|done].
    destruct (Transcode.job_present c (Upload.app t) && Js.truthy tm);
      [|done]. in_range.
  - done.
  - unfold Transcode.on_end.
    destruct (Transcode.job_present c (Upload.app t)); [|done].
    apply broadcast_in_range.
    apply update_job_in_range.
    { intros [? ? ? ? ? ? ?] (Hp & He & Hs). repeat split; simpl in *;
        [lia|lia|done|by intros ? [= <-]]. }
    apply update_job_in_range.
    { intros [? ? ? ? ? ? ?] (Hp & He & Hs). repeat split; simpl in *;
        [lia|lia|apply elapsed_in_range|done]. }
    apply update_job_in_range; [|done].
    intros [? ? ? ? ? ? ?] (Hp & He & Hs). repeat split; simpl in *;
      [lia|lia|done|done].
  - destruct (Upload.resumed t); [done|].
    destruct (Upload.promise t) as [| |msg]; simpl; [done| |].
    + unfold Upload.after_success.
      destruct (Upload.update_metadata cv (Hub.disk (Upload.app t)));
        in_range.
    + unfold Upload.after_failure. in_range.
Qed.

(** X20.  For a fresh identifier and any sequence of events, the job of
    the WebSocket revision always shows a progress between 0 and 100 and
    never a negative elapsed or remaining time. *)
Theorem job_numbers_stay_in_range cv now st evs :
  Hub.transcodeJobs st !! Upload.id cv = None ->
  let '(c, t) := Upload.start_task cv now st in
  forall t' j,
    t' ∈ Upload.trace (Upload.step cv c) evs t ->
    Hub.transcodeJobs (Upload.app t') !! Upload.id cv = Some j ->
    0 <= Jobs.progress j <= 100 /\
    (forall e, Jobs.elapsed j = Some e -> 0 <= e) /\
    (forall s, Jobs.eta j = Jobs.EtaSeconds s -> 0 <= s).
Proof.
  intros Hfresh. unfold Upload.start_task. intros t' j Hin Hj.
  refine (trace_invariant
            (fun t0 => forall j, Hub.transcodeJobs (Upload.app t0)
                                   !! Upload.id cv = Some j ->
                                 Keeps.job_in_range j)
            _ evs _ _ _ t' Hin j Hj).
  - simpl. intros j0. rewrite (task_prologue_job _ _ Jobs.fresh).
    + intros [= <-]. repeat split; simpl; first [lia | done].
    + unfold Upload.create_job. rewrite Hfresh. simpl. apply lookup_insert_eq.
  - intros e s0. apply step_in_range. simpl. unfold Media.stat_size.
    destruct (Media.files _ !! _); simpl; lia.
Qed.

Lemma handlers_keep_disk c now tm st :
  Hub.disk (Transcode.on_start c now st) = Hub.disk st /\
  Hub.disk (Transcode.on_poll c now st) = Hub.disk st /\
  Hub.disk (Transcode.on_progress c tm st) = Hub.disk st /\
  Hub.disk (Transcode.on_end c now st) = Hub.disk st.
Proof.
  unfold Transcode.on_start, Transcode.on_poll, Transcode.on_progress,
    Transcode.on_end.
  split_and!; repeat case_match; by rewrite ?broadcastStatus_disk.
Qed.

Lemma step_keeps_done_converted cv c ev t :
  Transcode.jobId c = Upload.id cv ->
  Upload.awaiting cv t /\ Keeps.done_means_converted cv (Upload.app t) ->
  Upload.awaiting cv (Upload.step cv c ev t) /\
  Keeps.done_means_converted cv (Upload.app (Upload.step cv c ev t)).
Proof.
  intros Hid [Haw Hdone].
  split; [by apply step_evolves|].
  assert (forall st',
    Upload.status_in (Upload.id cv) st' =
      Upload.status_in (Upload.id cv) (Upload.app t) ->
    Media.data_file (Hub.disk st') = Media.data_file (Hub.disk (Upload.app t)) ->
    Keeps.done_means_converted cv st') as Hsame.
  { intros st' Hs Hd. unfold Keeps.done_means_converted, Media.readData in *.
    by rewrite Hs, Hd. }
  destruct ev as [content|now|now|tm|msg|now|]; simpl.
  - by apply Hsame.
  - destruct (on_start_evolves c now (Upload.app t)) as [_ Hs].
    destruct (handlers_keep_disk c now None (Upload.app t)) as (Hd & _).
    rewrite Hid in Hs. apply Hsame; [done|by rewrite Hd].
  - destruct (Upload.polling t); [|done]. simpl.
    destruct (on_poll_evolves c now (Upload.app t)) as [_ Hs].
    destruct (handlers_keep_disk c now None (Upload.app t)) as (_ & Hd & _).
    rewrite Hid in Hs. apply Hsame; [done|by rewrite Hd].
  - destruct (on_progress_evolves c tm (Upload.app t)) as [_ Hs].
    destruct (handlers_keep_disk c 0 tm (Upload.app t)) as (_ & _ & Hd & _).
    rewrite Hid in Hs. apply Hsame; [done|by rewrite Hd].
  - done.
  - destruct (on_end_evolves c now (Upload.app t)) as [_ Hs].
    destruct (handlers_keep_disk c now None (Upload.app t)) as (_ & _ & _ & Hd).
    rewrite Hid in Hs. apply Hsame; [done|by rewrite Hd].
  - destruct (Upload.resumed t) eqn:Hr; [done|].
    pose proof (Haw Hr) as Hrun.
    assert (exists j, Hub.transcodeJobs (Upload.app t) !! Upload.id cv = Some j)
      as [j Hj].
    { rewrite status_in_jobs in Hrun.
      destruct (Hub.transcodeJobs (Upload.app t) !! Upload.id cv); [|done].
      by eexists. }
    destruct (Upload.promise t) as [| |msg]; simpl; [done| |].
    + unfold Upload.after_success, Upload.update_metadata.
      change (Media.readData (Media.unlink_quiet _ (Hub.disk (Upload.app t))))
        with (Media.readData (Hub.disk (Upload.app t))).
      destruct (Media.readData (Hub.disk (Upload.app t)) !! Upload.id cv)
        as [r|] eqn:Hrec.
      * destruct (Media.stat_size _ _) as [sz|].
        -- intros _ r'. rewrite broadcastStatus_disk.
           unfold Media.readData.
           cbn [Hub.disk Hub.update_job Hub.with_jobs Hub.with_disk
                Media.writeData Media.data_file].
           rewrite lookup_insert_eq. by intros [= <-].
        -- unfold Keeps.done_means_converted. rewrite status_in_jobs.
           rewrite broadcastStatus_jobs. simpl.
           by rewrite !lookup_alter_eq, Hj.
      * intros _ r'. rewrite broadcastStatus_disk.
        cbn [Hub.disk Hub.update_job Hub.with_jobs Hub.with_disk].
        change (Media.readData (Media.unlink_quiet _ (Hub.disk (Upload.app t))))
          with (Media.readData (Hub.disk (Upload.app t))).
        by rewrite Hrec.
    + unfold Keeps.done_means_converted, Upload.after_failure.
      rewrite status_in_jobs.
      rewrite broadcastStatus_jobs. simpl.
      by rewrite !lookup_alter_eq, Hj.
Qed.

(** X22.  In the WebSocket revision a job is never shown [done] before
    its record is converted.  For a fresh identifier and any sequence of
    events, in every state in which the job is [done], the record of the
    identifier, when [data.json] has one, has [converted: true] and names
    the [.mp4] file. *)
Theorem done_only_after_conversion cv now st evs :
  Hub.transcodeJobs st !! Upload.id cv = None ->
  let '(c, t) := Upload.start_task cv now st in
  forall t' r,
    t' ∈ Upload.trace (Upload.step cv c) evs t ->
    Upload.status_in (Upload.id cv) (Upload.app t') = Some Jobs.Done ->
    Media.readData (Hub.disk (Upload.app t')) !! Upload.id cv = Some r ->
    Media.converted r = true /\
    Media.filename r = Upload.convertedName cv.
Proof.
  intros Hfresh.
  pose proof (start_task_evolves cv now st Hfresh) as Hstart.
  unfold Upload.start_task in *. destruct Hstart as (Hid & Haw & _).
  intros t' r Hin Hdone Hrec.
  refine (proj2 (trace_invariant
            (fun t0 => Upload.awaiting cv t0 /\
                       Keeps.done_means_converted cv (Upload.app t0))
            _ evs _ _ _ t' Hin) Hdone r Hrec).
  - split; [exact Haw|]. intros Hd. by rewrite (Haw eq_refl) in Hd.
  - intros e s0. by apply step_keeps_done_converted.
Qed.

End TaskMore.

(** ** The webhook route *)

Section WebhookMore.

Lemma trim_end_first c r :
  Webhook.trim_end (String c r) = EmptyString \/
  exists r', Webhook.trim_end (String c r) = String c r'.
Proof.
  simpl. destruct (Webhook.trim_end r); [|right; by eexists].
  destruct (Js.is_white c); [by left|right; by eexists].
Qed.

Lemma trim_start_head s c r :
  Js.trim_start s = String c r -> Js.is_white c = false.
Proof.
  induction s as [|c0 s IH]; simpl; [done|].
  destruct (Js.is_white c0) eqn:Hc0; [done|]. by intros [= <- <-].
Qed.

(** X24.  The title of the embed is never empty.  It is the label
    without its outer white space when that leaves something, else the
    original name of the upload when there is one, else ['Video']; a
    title taken from the label does not start with white space, and a
    label of white space only counts as no label. *)
Theorem embed_title_never_empty label originalName :
  Webhook.embed_title label originalName <> EmptyString /\
  (Webhook.trim label <> EmptyString ->
     Webhook.embed_title label originalName = Webhook.trim label /\
     exists c r, Webhook.trim label = String c r /\ Js.is_white c = false) /\
  (Webhook.trim label = EmptyString ->
     Webhook.embed_title label originalName =
       if Js.truthy originalName then originalName else "Video") /\
  (Forall (fun c => Js.is_white c = true) (list_ascii_of_string label) ->
     Webhook.trim label = EmptyString).
Proof.
  unfold Webhook.embed_title. split_and!.
  - destruct (Js.truthy label && Js.truthy (Webhook.trim label)) eqn:Hl.
    + apply andb_true_iff in Hl as [_ Hl]. by destruct (Webhook.trim label).
    + by destruct originalName.
  - intros Hne.
    assert (Js.truthy label && Js.truthy (Webhook.trim label) = true) as ->.
    { destruct label; [done|]. simpl.
      by destruct (Webhook.trim (String _ _)). }
    split; [done|]. unfold Webhook.trim in *.
    destruct (Js.trim_start label) as [|c r] eqn:Hstart; [done|].
    destruct (trim_end_first c r) as [Hempty | [r' Hr']]; [done|].
    exists c, r'. split; [done|]. by eapply trim_start_head.
  - intros ->. by rewrite andb_false_r.
  - intros Hblank. unfold Webhook.trim. by rewrite trim_start_blank.
Qed.

(** X25.  The webhook is contacted only for a request that names a
    webhook URL and an identifier for which the lookup [d[id]] finds
    something.  Without one of the two the answer is 400; for an
    identifier that has no record and is not the name of a property
    every object inherits the answer is 404; in both cases no request
    goes out.  Otherwise exactly one request goes out, to the given URL,
    carrying the video link of the identifier: for an identifier with a
    record, under the title made of the label and the original name of
    the record; for an identifier without a record that is the name of
    an inherited property ([constructor], [toString], ...), under the
    title made of the label alone. *)
Theorem webhook_contacted_only_when_valid o k body up :
  let '(answer, sent) := Webhook.post_webhook o k body up in
  (sent = [] /\ Webhook.code answer = 400 /\
   (body = None \/
    exists b, body = Some b /\
      (Webhook.webhookUrl b = EmptyString \/ Webhook.id b = EmptyString))) \/
  (sent = [] /\ Webhook.code answer = 404 /\
   exists b, body = Some b /\
     Webhook.webhookUrl b <> EmptyString /\ Webhook.id b <> EmptyString /\
     Media.readData k !! Webhook.id b = None /\
     Js.inherited (Webhook.id b) = false) \/
  (exists b out,
     body = Some b /\
     Webhook.webhookUrl b <> EmptyString /\ Webhook.id b <> EmptyString /\
     sent = [out] /\
     Webhook.target out = Webhook.webhookUrl b /\
     Webhook.url out = Pages.videoUrl o (Webhook.id b) /\
     ((exists r,
         Media.readData k !! Webhook.id b = Some r /\
         Webhook.title out = Webhook.embed_title (Webhook.label b)
                               (Media.originalName r)) \/
      (Media.readData k !! Webhook.id b = None /\
       Js.inherited (Webhook.id b) = true /\
       Webhook.title out = Webhook.embed_title (Webhook.label b)
                             EmptyString)) /\
     Webhook.code answer <> 400 /\ Webhook.code answer <> 404).
Proof.
  unfold Webhook.post_webhook.
  destruct body as [b|]; [|left; split_and!; [done|done|by left]].
  destruct (Js.truthy (Webhook.webhookUrl b)) eqn:Hurl; cbn [negb orb].
  2:{ left. split_and!; [done|done|]. right. exists b. split; [done|].
      left. by destruct (Webhook.webhookUrl b). }
  destruct (Js.truthy (Webhook.id b)) eqn:Hid; cbn [negb].
  2:{ left. split_and!; [done|done|]. right. exists b. split; [done|].
      right. by destruct (Webhook.id b). }
  assert (Webhook.webhookUrl b <> EmptyString) as Hu
    by (by destruct (Webhook.webhookUrl b)).
  assert (Webhook.id b <> EmptyString) as Hi by (by destruct (Webhook.id b)).
  unfold Js.get.
  destruct (Media.readData k !! Webhook.id b) as [r|] eqn:Hr.
  - destruct up as [status|msg]; [destruct (Webhook.accepted status)|];
      cbv zeta; right; right; exists b; eexists;
      (split_and!; [done..| |done|done]); left; by exists r.
  - destruct (Js.inherited (Webhook.id b)) eqn:Hin.
    + destruct up as [status|msg]; [destruct (Webhook.accepted status)|];
        cbv zeta; right; right; exists b; eexists;
        (split_and!; [done..| |done|done]); by right.
    + right; left. split_and!; [done|done|]. by exists b.
Qed.

(** X26.  For a request that passes the checks the answer follows the
    webhook: 200 exactly when it replied with a status from 200 to 299,
    502 carrying its status when it replied with another one, 500 with
    the message when the request broke; and the request is made once,
    whatever the outcome. *)
Theorem webhook_answer_follows_upstream o k b r up :
  Webhook.webhookUrl b <> EmptyString -> Webhook.id b <> EmptyString ->
  Media.readData k !! Webhook.id b = Some r ->
  let '(answer, sent) := Webhook.post_webhook o k (Some b) up in
  length sent = 1%nat /\
  match up with
  | Webhook.Replied status =>
      (200 <= status < 300 -> answer = Webhook.Delivered) /\
      (~ 200 <= status < 300 -> answer = Webhook.Rejected status)
  | Webhook.Broke msg => answer = Webhook.Crashed msg
  end /\
  (Webhook.code answer = 200 <->
   exists status, up = Webhook.Replied status /\ 200 <= status < 300).
Proof.
  intros Hu Hi Hr. unfold Webhook.post_webhook.
  assert (Js.truthy (Webhook.webhookUrl b) = true) as ->
    by (by destruct (Webhook.webhookUrl b)).
  assert (Js.truthy (Webhook.id b) = true) as ->
    by (by destruct (Webhook.id b)).
  cbn [negb orb]. rewrite (get_own _ _ _ Hr).
  destruct up as [status|msg].
  - unfold Webhook.accepted.
    destruct (200 <=? status)%Z eqn:Hlo; destruct (status <? 300)%Z eqn:Hhi;
      cbn [andb]; (split; [done|]); (split; [split; intros; first [done|lia]|]);
      simpl; split; try done; try lia.
    all: try (intros _; exists status; split; [done|lia]).
    all: intros (s' & [= <-] & Hrange); lia.
  - split; [done|]. split; [done|]. simpl. split; [done|].
    by intros (s' & Hs' & _).
Qed.

End WebhookMore.

(** ** The properties above on the sample server *)

Lemma sample_hub_sets_nodup : Keeps.sets_nodup Sample.hub.
Proof.
  intros id set Hset. unfold Sample.hub in Hset.
  cbn [Hub.subscribers] in Hset.
  apply lookup_singleton_Some in Hset as [_ <-].
  compute_done.
Qed.

Lemma task_status_monotone_witness :
  Hub.transcodeJobs Sample.watched !! "v2" = None /\
  let '(c, t) :=
    @Upload.start_task Sample.platform Sample.movie_conversion 1000
      Sample.watched in
  StronglySorted Jobs.follows
    (Upload.status_in "v2" Sample.watched ::
     Upload.observations "v2" Sample.watched
       (map Upload.app
          (Upload.trace
             (@Upload.step Sample.platform Sample.movie_conversion c)
             [Upload.FfStart 1100; Upload.PollTick 1900; Upload.FfEnd 2500;
              Upload.Resume] t))).
Proof.
  split; [reflexivity|].
  apply (@task_status_monotone Sample.platform Sample.movie_conversion 1000
           Sample.watched
           [Upload.FfStart 1100; Upload.PollTick 1900; Upload.FfEnd 2500;
            Upload.Resume]).
  reflexivity.
Defined.

Lemma task_terminal_status_stays_witness :
  let '(c, t) :=
    @Upload.start_task Sample.platform Sample.movie_conversion 1000
      Sample.watched in
  let seen :=
    Upload.status_in "v2" Sample.watched ::
    Upload.observations "v2" Sample.watched
      (map Upload.app
         (Upload.trace
            (@Upload.step Sample.platform Sample.movie_conversion c)
            [Upload.FfStart 1100; Upload.PollTick 1900; Upload.FfEnd 2500;
             Upload.Resume] t)) in
  Hub.transcodeJobs Sample.watched !! "v2" = None /\
  (10 < 11)%nat /\
  seen !! 10%nat = Some (Some Jobs.Done) /\
  seen !! 11%nat = Some (Some Jobs.Done) /\
  Jobs.terminal Jobs.Done = true /\
  Some Jobs.Done = Some Jobs.Done.
Proof.
  pose proof (@task_terminal_status_stays Sample.platform
                Sample.movie_conversion 1000 Sample.watched
                [Upload.FfStart 1100; Upload.PollTick 1900;
                 Upload.FfEnd 2500; Upload.Resume]
                10%nat 11%nat Jobs.Done (Some Jobs.Done) eq_refl) as Hstays.
  destruct (@Upload.start_task Sample.platform Sample.movie_conversion 1000
              Sample.watched) as [c t] eqn:Hstart.
  vm_compute in Hstart. injection Hstart as <- <-.
  split_and!; [reflexivity|lia|reflexivity|reflexivity|reflexivity|].
  apply Hstays; [lia|reflexivity|reflexivity|reflexivity].
Defined.

Lemma handlers_keep_sets_duplicate_free_witness :
  Keeps.sets_nodup Sample.hub /\
  Keeps.sets_nodup
    (Hub.on_message 3%nat (Sample.subscribe_to "v1") Sample.hub) /\
  Keeps.sets_nodup (Hub.on_close 2%nat Sample.hub) /\
  Keeps.sets_nodup (Hub.on_connection 4%nat false Sample.hub) /\
  Keeps.sets_nodup (Hub.broadcastStatus "v1" Sample.hub).
Proof.
  split; [exact sample_hub_sets_nodup|].
  destruct (handlers_keep_sets_duplicate_free Sample.hub
              sample_hub_sets_nodup) as (Hmessage & Hclose & Hconn & Hcast).
  split_and!; [apply Hmessage|apply Hclose|apply Hconn|apply Hcast].
Defined.

Lemma broadcast_once_per_connection_witness :
  (Hub.subscribers Sample.hub !! "v1" = Some [1; 2; 3]%nat /\
   NoDup [1; 2; 3]%nat) /\
  exists sent,
    Hub.wire (Hub.broadcastStatus "v1" Sample.hub) =
      (Hub.wire Sample.hub ++ sent)%list /\
    NoDup (sent.*1) /\
    forall ws m, (ws, m) ∈ sent ->
      ws ∈ [1; 2; 3]%nat /\ Hub.is_open Sample.hub ws = true /\
      m = {| Hub.msg_id := "v1";
             Hub.msg_job := Hub.transcode_status "v1" Sample.hub |}.
Proof.
  assert (NoDup [1; 2; 3]%nat) as Hnodup
    by compute_done.
  split; [split; [reflexivity|exact Hnodup]|].
  apply (broadcast_once_per_connection "v1" Sample.hub [1; 2; 3]%nat);
    [reflexivity|exact Hnodup].
Defined.

Lemma unsubscribe_effect_witness :
  "v1" <> EmptyString /\
  let st' := Hub.on_message 3%nat
               (Some {| Hub.type := "unsubscribe"; Hub.id := "v1" |})
               Sample.hub in
  Hub.wire st' = Hub.wire Sample.hub /\
  ~ Hub.subscribed st' 3%nat "v1" /\
  (forall ws', ws' <> 3%nat ->
     (Hub.subscribed st' ws' "v1" <-> Hub.subscribed Sample.hub ws' "v1")) /\
  (forall id', "v1" <> id' ->
     Hub.subscribers st' !! id' = Hub.subscribers Sample.hub !! id') /\
  Hub.on_message 3%nat
    (Some {| Hub.type := "unsubscribe"; Hub.id := "v1" |}) st' = st'.
Proof.
  split; [discriminate|].
  apply (unsubscribe_effect 3%nat "v1" Sample.hub). discriminate.
Defined.

Lemma other_messages_ignored_witness :
  (exists d, Sample.subscribe_to EmptyString = Some d /\
     (Hub.id d = EmptyString \/
      (Hub.type d <> "subscribe" /\ Hub.type d <> "unsubscribe"))) /\
  Hub.on_message 3%nat (Sample.subscribe_to EmptyString) Sample.hub =
    Sample.hub.
Proof.
  assert (exists d, Sample.subscribe_to EmptyString = Some d /\
     (Hub.id d = EmptyString \/
      (Hub.type d <> "subscribe" /\ Hub.type d <> "unsubscribe"))) as Hdata.
  { eexists. split; [reflexivity|]. left. reflexivity. }
  split; [exact Hdata|].
  apply (other_messages_ignored 3%nat (Sample.subscribe_to EmptyString)
           Sample.hub).
  right. exact Hdata.
Defined.

Lemma close_cleans_single_subscription_witness :
  (Hub.sockets Sample.hub !! 3%nat =
     Some (Sample.socket Hub.OPEN false (Some "v1")) /\
   forall id, Hub.subscribed Sample.hub 3%nat id ->
     Some "v1" = Some id /\ id <> EmptyString) /\
  forall id, ~ Hub.subscribed (Hub.on_close 3%nat Sample.hub) 3%nat id.
Proof.
  assert (forall id, Hub.subscribed Sample.hub 3%nat id ->
            Some "v1" = Some id /\ id <> EmptyString) as Honly.
  { intros id (set & Hset & _). unfold Sample.hub in Hset.
    cbn [Hub.subscribers] in Hset.
    apply lookup_singleton_Some in Hset as [<- _]. by split. }
  split; [split; [reflexivity|exact Honly]|].
  apply (close_cleans_single_subscription 3%nat
           (Sample.socket Hub.OPEN false (Some "v1")) Sample.hub);
    [reflexivity|exact Honly].
Defined.

Lemma job_numbers_stay_in_range_witness :
  Hub.transcodeJobs Sample.watched !! "v2" = None /\
  let '(c, t) :=
    @Upload.start_task Sample.platform Sample.movie_conversion 1000
      Sample.watched in
  forall t' j,
    t' ∈ Upload.trace
           (@Upload.step Sample.platform Sample.movie_conversion c)
           [Upload.FfStart 1100; Upload.PollTick 1900;
            Upload.FfProgress (Some "00:00:01.50"); Upload.FfEnd 2500;
            Upload.Resume] t ->
    Hub.transcodeJobs (Upload.app t') !! "v2" = Some j ->
    0 <= Jobs.progress j <= 100 /\
    (forall e, Jobs.elapsed j = Some e -> 0 <= e) /\
    (forall s, Jobs.eta j = Jobs.EtaSeconds s -> 0 <= s).
Proof.
  split; [reflexivity|].
  apply (@job_numbers_stay_in_range Sample.platform Sample.movie_conversion
           1000 Sample.watched
           [Upload.FfStart 1100; Upload.PollTick 1900;
            Upload.FfProgress (Some "00:00:01.50"); Upload.FfEnd 2500;
            Upload.Resume]).
  reflexivity.
Defined.

Lemma done_only_after_conversion_witness :
  Hub.transcodeJobs Sample.watched !! "v2" = None /\
  let '(c, t) :=
    @Upload.start_task Sample.platform Sample.movie_conversion 1000
      Sample.watched in
  forall t' r,
    t' ∈ Upload.trace
           (@Upload.step Sample.platform Sample.movie_conversion c)
           [Upload.FfStart 1100; Upload.PollTick 1900; Upload.FfEnd 2500;
            Upload.Resume] t ->
    Upload.status_in "v2" (Upload.app t') = Some Jobs.Done ->
    Media.readData (Hub.disk (Upload.app t')) !! "v2" = Some r ->
    Media.converted r = true /\ Media.filename r = "v2.mp4".
Proof.
  split; [reflexivity|].
  apply (@done_only_after_conversion Sample.platform Sample.movie_conversion
           1000 Sample.watched
           [Upload.FfStart 1100; Upload.PollTick 1900; Upload.FfEnd 2500;
            Upload.Resume]).
  reflexivity.
Defined.

Lemma webhook_answer_follows_upstream_witness :
  ("https://hooks.example/1" <> EmptyString /\ "v1" <> EmptyString /\
   Media.readData Sample.disk !! "v1" = Some Sample.clip) /\
  let '(answer, sent) :=
    Webhook.post_webhook Demo.origin Sample.disk (Some Demo.hook)
      (Webhook.Replied 204) in
  length sent = 1%nat /\
  ((200 <= 204 < 300 -> answer = Webhook.Delivered) /\
   (~ 200 <= 204 < 300 -> answer = Webhook.Rejected 204)) /\
  (Webhook.code answer = 200 <->
   exists status, Webhook.Replied 204 = Webhook.Replied status /\
                  200 <= status < 300).
Proof.
  split; [split_and!; [discriminate|discriminate|reflexivity]|].
  apply (webhook_answer_follows_upstream Demo.origin Sample.disk Demo.hook
           Sample.clip (Webhook.Replied 204));
    [discriminate|discriminate|reflexivity].
Defined.

(** ** A broadcast after an unsubscribe *)

Section BroadcastAfter.

Lemma sent_without ws (msg : Hub.StatusMessage) (P : Hub.Conn -> bool) set :
  filter (fun p : Hub.Conn * Hub.StatusMessage => p.1 <> ws)
    (map (fun x => (x, msg)) (filter (fun x => P x = true) set)) =
  map (fun x => (x, msg))
    (filter (fun x => P x = true) (Hub.set_delete ws set)).
Proof.
  unfold Hub.set_delete. induction set as [|x set IH]; [done|].
  rewrite !filter_cons.
  destruct (decide (P x = true)) as [HP|HP];
    destruct (decide (x <> ws)) as [Hx|Hx]; cbn [map];
    rewrite ?filter_cons; cbn [fst];
    repeat case_decide; try done; cbn [map]; by rewrite IH.
Qed.

(** X23.  After a connection has unsubscribed from an identifier, a
    broadcast for that identifier sends what it would have sent before,
    without the messages to that connection: the connection gets
    nothing, every other connection the same as before. *)
Theorem broadcast_after_unsubscribe ws id st :
  id <> EmptyString ->
  let st1 := Hub.on_message ws
               (Some {| Hub.type := "unsubscribe"; Hub.id := id |}) st in
  exists sent,
    Hub.wire (Hub.broadcastStatus id st) = (Hub.wire st ++ sent)%list /\
    Hub.wire (Hub.broadcastStatus id st1) =
      (Hub.wire st ++ filter (fun p => p.1 <> ws) sent)%list /\
    forall m, (ws, m) ∉ filter (fun p => p.1 <> ws) sent.
Proof.
  intros Hid st1. subst st1. rewrite on_message_unsubscribe by done.
  unfold Hub.unsubscribe, Hub.broadcastStatus.
  destruct (Hub.subscribers st !! id) as [set|] eqn:Hset.
  - cbn [Hub.subscribers Hub.with_subscribers Hub.transcodeJobs].
    rewrite lookup_insert_eq.
    eexists. split; [by apply broadcast_loop_wire|]. split.
    + rewrite sent_without.
      by rewrite (broadcast_loop_wire _ _ st).
    + intros m [Hne _]%list_elem_of_filter. by apply Hne.
  - rewrite Hset. exists []. split_and!; [by rewrite app_nil_r..|].
    intros m Hin. by apply elem_of_nil in Hin.
Qed.

End BroadcastAfter.

Lemma broadcast_after_unsubscribe_witness :
  "v1" <> EmptyString /\
  let st1 := Hub.on_message 3%nat
               (Some {| Hub.type := "unsubscribe"; Hub.id := "v1" |})
               Sample.hub in
  exists sent,
    Hub.wire (Hub.broadcastStatus "v1" Sample.hub) =
      (Hub.wire Sample.hub ++ sent)%list /\
    Hub.wire (Hub.broadcastStatus "v1" st1) =
      (Hub.wire Sample.hub ++ filter (fun p => p.1 <> 3%nat) sent)%list /\
    forall m, (3%nat, m) ∉ filter (fun p => p.1 <> 3%nat) sent.
Proof.
  split; [discriminate|].
  apply (broadcast_after_unsubscribe 3%nat "v1" Sample.hub). discriminate.
Defined.
